(** * Event / Booking models: slug, time and date normalisation, save hooks

    A shallow embedding of [database/event.model.ts] and of the Booking model
    (schema, validators and pre-save hooks), together with the part of the
    JavaScript runtime and of the document-store library they call.

    Conventions.
    - A JavaScript string is a [string]: a sequence of code units, here the
      code units below 256 (Basic Latin and Latin-1 Supplement), for which
      [toLowerCase], [trim] and the regular-expression classes [\s], [\d] are
      written out exactly.
    - A function that throws returns [Err]; a function that returns a value
      returns [Ok].
    - Time values are integers: milliseconds since the epoch, as in the
      language standard; an invalid date is [None]. *)

From Stdlib Require Import ZArith NArith Ascii String List Bool Lia.
From stdpp Require Import gmap strings.
Import ListNotations.

Open Scope string_scope.

(** ** Results of functions that may throw *)

Inductive result (E A : Type) : Type :=
| Ok (a : A)
| Err (e : E).
Arguments Ok {E A} a.
Arguments Err {E A} e.

#[global] Instance result_eq_dec {E A} `{EqDecision E, EqDecision A} : EqDecision (result E A).
Proof. solve_decision. Defined.

(** A property of the integers from [0] below [n], checked one by one. *)
Definition below (n : nat) (p : Z -> bool) : bool :=
  forallb (fun i => p (Z.of_nat i)) (seq 0 n).

(** ** The string primitives of the runtime *)

Module JSString.

Definition code (c : ascii) : N := N_of_ascii c.

Definition inRange (lo hi : N) (c : ascii) : bool :=
  ((lo <=? code c) && (code c <=? hi))%N.

(** [\d] is [0-9]. *)
Definition isDigit (c : ascii) : bool := inRange 48 57 c.

(** [a-z]. *)
Definition isLower (c : ascii) : bool := inRange 97 122 c.

(** White space and line terminators among the code units below 256: TAB,
    LF, VT, FF, CR, SPACE and NO-BREAK SPACE. This is the class [\s], and
    the set [trim] removes. *)
Definition isWhiteSpace (c : ascii) : bool :=
  inRange 9 13 c || (code c =? 32)%N || (code c =? 160)%N.

(** Letters with a lower-case form among the code units below 256: [A-Z],
    and U+00C0..U+00DE without the multiplication sign U+00D7. Their
    lower-case form is 32 code units further. *)
Definition hasLower (c : ascii) : bool :=
  inRange 65 90 c || (inRange 192 222 c && negb (code c =? 215)%N).

Definition toLowerChar (c : ascii) : ascii :=
  if hasLower c then ascii_of_N (code c + 32) else c.

Fixpoint all (p : ascii -> bool) (s : string) : bool :=
  match s with
  | EmptyString => true
  | String c s' => p c && all p s'
  end.

Fixpoint map (f : ascii -> ascii) (s : string) : string :=
  match s with
  | EmptyString => EmptyString
  | String c s' => String (f c) (map f s')
  end.

(** [s.toLowerCase()] *)
Definition toLowerCase (s : string) : string := map toLowerChar s.

Fixpoint trimStart (s : string) : string :=
  match s with
  | EmptyString => EmptyString
  | String c s' => if isWhiteSpace c then trimStart s' else s
  end.

Fixpoint trimEnd (s : string) : string :=
  match s with
  | EmptyString => EmptyString
  | String c s' =>
      match trimEnd s' with
      | EmptyString => if isWhiteSpace c then EmptyString else String c EmptyString
      | t => String c t
      end
  end.

(** [s.trim()] *)
Definition trim (s : string) : string := trimEnd (trimStart s).

(** [s.replace(/[C]/g, rep)] for a character class [C]: every code unit of
    the class is a match of its own. *)
Fixpoint replaceEach (p : ascii -> bool) (rep : string) (s : string) : string :=
  match s with
  | EmptyString => EmptyString
  | String c s' =>
      if p c then rep ++ replaceEach p rep s'
      else String c (replaceEach p rep s')
  end.

(** [s.replace(/[C]+/g, rep)]: the quantifier is greedy, so a match is a
    maximal run of code units of the class. [inMatch] tells that the code
    unit before the current one belongs to the match being consumed. *)
Fixpoint replaceRunsFrom (p : ascii -> bool) (rep : string)
         (inMatch : bool) (s : string) : string :=
  match s with
  | EmptyString => EmptyString
  | String c s' =>
      if p c then
        if inMatch then replaceRunsFrom p rep true s'
        else rep ++ replaceRunsFrom p rep true s'
      else String c (replaceRunsFrom p rep false s')
  end.

Definition replaceRuns (p : ascii -> bool) (rep : string) (s : string) : string :=
  replaceRunsFrom p rep false s.

Fixpoint repeat (c : ascii) (n : nat) : string :=
  match n with
  | O => EmptyString
  | S n' => String c (repeat c n')
  end.

(** [s.padStart(width, fill)] for a one-character [fill]. *)
Definition padStart (width : nat) (fill : ascii) (s : string) : string :=
  repeat fill (width - String.length s) ++ s.

Definition digitChar (d : Z) : ascii := ascii_of_N (48 + Z.to_N d).

Definition digitVal (c : ascii) : Z := Z.of_N (code c) - 48.

(** The decimal digits of a natural number below [10 ^ fuel], most
    significant first, without leading zeros; [String(n)] for such [n]. *)
Fixpoint digitsOf (fuel : nat) (n : Z) (acc : string) : string :=
  match fuel with
  | O => acc
  | S fuel' =>
      let acc' := String (digitChar (n mod 10)) acc in
      if (n / 10 =? 0)%Z then acc' else digitsOf fuel' (n / 10) acc'
  end.

Definition ofNat (n : Z) : string := digitsOf 20 n EmptyString.

(** [parseInt(s, 10)] on a string of decimal digits. *)
Fixpoint parseDigitsFrom (acc : Z) (s : string) : Z :=
  match s with
  | EmptyString => acc
  | String c s' => parseDigitsFrom (10 * acc + digitVal c)%Z s'
  end.

Definition parseDigits (s : string) : Z := parseDigitsFrom 0 s.

End JSString.

Import JSString.

(** ** [slugify] *)

Definition isHyphen (c : ascii) : bool := (code c =? 45)%N.

(** The class [[a-z0-9\s-]]; the first replacement removes its complement. *)
Definition slugKeep (c : ascii) : bool :=
  isLower c || isDigit c || isWhiteSpace c || isHyphen c.

Definition slugify (input : string) : string :=
  replaceRuns isHyphen "-"
    (replaceRuns isWhiteSpace "-"
       (replaceEach (fun c => negb (slugKeep c)) ""
          (trim (toLowerCase input)))).

(** The alphabet [[a-z0-9-]] of a slug. *)
Definition slugChar (c : ascii) : bool := isLower c || isDigit c || isHyphen c.

(** No two adjacent hyphens. *)
Fixpoint noHyphenRun (s : string) : bool :=
  match s with
  | EmptyString => true
  | String c s' =>
      match s' with
      | String d _ => negb (isHyphen c && isHyphen d) && noHyphenRun s'
      | EmptyString => true
      end
  end.

(** The first code unit, if any, satisfies [p]. *)
Definition startsWith (p : ascii -> bool) (s : string) : bool :=
  match s with
  | String c _ => p c
  | EmptyString => false
  end.

(** ** Regular expressions

    The fragment of the pattern language that the models use: character
    classes, concatenation, alternation, the greedy quantifiers [?] on a
    pattern and [*], [+] on a class, numbered capturing groups and the end
    anchor. Matching is the backtracking search of the language standard,
    written with a continuation: alternatives are tried left to right and a
    greedy quantifier tries the longest repetition first. *)

Module RegExp.

Inductive regex : Type :=
| Empty
| Class (p : ascii -> bool)
| Seq (r1 r2 : regex)
| Alt (r1 r2 : regex)
| Opt (r : regex)
| Star (p : ascii -> bool)
| Plus (p : ascii -> bool)
| Group (i : nat) (r : regex)
| AtEnd.

Definition Cat (rs : list regex) : regex := foldr Seq Empty rs.

(** Classes *)
Definition chr (a : ascii) : ascii -> bool := fun c => Ascii.eqb c a.
Definition rng (a b : ascii) : ascii -> bool := inRange (code a) (code b).
Definition neg (p : ascii -> bool) : ascii -> bool := fun c => negb (p c).
Definition either (p q : ascii -> bool) : ascii -> bool := fun c => p c || q c.
(** A lower-case letter under the [i] flag: itself or its upper case. *)
Definition chrI (a : ascii) : ascii -> bool :=
  fun c => Ascii.eqb c a || (code c + 32 =? code a)%N.

(** [\d], [\d\d] and a literal character. *)
Definition d1 : regex := Class isDigit.
Definition d2 : regex := Seq d1 d1.
Definition lit (a : ascii) : regex := Class (chr a).

(** Captures, by group number; index 0 is unused. *)
Definition captures := list (option string).

(** What was consumed between the input [s] and the rest [s']. *)
Definition consumed (s s' : string) : string :=
  substring 0 (String.length s - String.length s') s.

Section Matcher.
Context {R : Type}.

(** A greedy repetition of a class: the longest run first, then, when what
    follows fails, one code unit less. *)
Fixpoint star (p : ascii -> bool) (k : string -> option R) (s : string) : option R :=
  match s with
  | String c s' =>
      if p c then
        match star p k s' with
        | Some x => Some x
        | None => k s
        end
      else k s
  | EmptyString => k s
  end.

Fixpoint run (r : regex) (s : string) (caps : captures)
         (k : string -> captures -> option R) {struct r} : option R :=
  match r with
  | Empty => k s caps
  | Class p =>
      match s with
      | String c s' => if p c then k s' caps else None
      | EmptyString => None
      end
  | Seq r1 r2 => run r1 s caps (fun s1 caps1 => run r2 s1 caps1 k)
  | Alt r1 r2 =>
      match run r1 s caps k with
      | Some x => Some x
      | None => run r2 s caps k
      end
  | Opt r1 =>
      match run r1 s caps k with
      | Some x => Some x
      | None => k s caps
      end
  | Star p => star p (fun s1 => k s1 caps) s
  | Plus p =>
      match s with
      | String c s' => if p c then star p (fun s1 => k s1 caps) s' else None
      | EmptyString => None
      end
  | Group i r1 =>
      run r1 s caps (fun s1 caps1 => k s1 (<[i := Some (consumed s s1)]> caps1))
  | AtEnd =>
      match s with
      | EmptyString => k s caps
      | String _ _ => None
      end
  end.
End Matcher.

(** [/^r/.exec(s)] for a pattern with [n] groups: the captures of the
    first successful match at index 0, or [None] for [null]. *)
Definition exec (n : nat) (r : regex) (s : string) : option captures :=
  run r s (replicate (S n) None) (fun _ caps => Some caps).

(** [/^r/.test(s)] *)
Definition test (r : regex) (s : string) : bool :=
  match run r s [] (fun _ _ => Some tt) with
  | Some _ => true
  | None => false
  end.

(** [m[i]] when the group took part in the match. *)
Definition group (i : nat) (m : captures) : option string :=
  match m !! i with
  | Some (Some x) => Some x
  | _ => None
  end.

(** [m[i]] for a group that takes part in every match of the pattern. *)
Definition group' (i : nat) (m : captures) : string :=
  match group i m with
  | Some x => x
  | None => EmptyString
  end.

End RegExp.

Import RegExp.


(** ** Dates of the runtime

    The time-value arithmetic of the language standard, under its names.
    What the standard leaves to the host is a field of [Runtime]: the offset
    of local time, taken constant, and the parser an engine may fall back on
    for a string outside the standard date-time format. *)

Module JSDate.

Open Scope Z_scope.

Definition msPerDay : Z := 86400000.
Definition msPerHour : Z := 3600000.
Definition msPerMinute : Z := 60000.
Definition msPerSecond : Z := 1000.

Definition Day (t : Z) : Z := t / msPerDay.
Definition TimeWithinDay (t : Z) : Z := t mod msPerDay.

Definition InLeapYear (y : Z) : bool :=
  if negb (y mod 4 =? 0) then false
  else if negb (y mod 100 =? 0) then true
  else if negb (y mod 400 =? 0) then false
  else true.

Definition DaysInYear (y : Z) : Z := if InLeapYear y then 366 else 365.

Definition DayFromYear (y : Z) : Z :=
  365 * (y - 1970) + (y - 1969) / 4 - (y - 1901) / 100 + (y - 1601) / 400.

(** The largest [y] with [DayFromYear y <= d]: an estimate from the mean
    length of a year, corrected by at most one. *)
Definition YearFromDay (d : Z) : Z :=
  let y := 1970 + (400 * d) / 146097 in
  if d <? DayFromYear y then y - 1
  else if DayFromYear (y + 1) <=? d then y + 1
  else y.

Definition YearFromTime (t : Z) : Z := YearFromDay (Day t).

Definition DayWithinYear (t : Z) : Z := Day t - DayFromYear (YearFromTime t).

(** The day of the year on which month [m] (0 to 11) starts. *)
Definition monthStart (leap : bool) (m : Z) : Z :=
  let l := if leap then 1 else 0 in
  match m with
  | 0 => 0
  | 1 => 31
  | 2 => 59 + l
  | 3 => 90 + l
  | 4 => 120 + l
  | 5 => 151 + l
  | 6 => 181 + l
  | 7 => 212 + l
  | 8 => 243 + l
  | 9 => 273 + l
  | 10 => 304 + l
  | 11 => 334 + l
  | _ => 365 + l
  end.

Definition MonthFromTime (t : Z) : Z :=
  let d := DayWithinYear t in
  let leap := InLeapYear (YearFromTime t) in
  if d <? monthStart leap 1 then 0
  else if d <? monthStart leap 2 then 1
  else if d <? monthStart leap 3 then 2
  else if d <? monthStart leap 4 then 3
  else if d <? monthStart leap 5 then 4
  else if d <? monthStart leap 6 then 5
  else if d <? monthStart leap 7 then 6
  else if d <? monthStart leap 8 then 7
  else if d <? monthStart leap 9 then 8
  else if d <? monthStart leap 10 then 9
  else if d <? monthStart leap 11 then 10
  else 11.

Definition DateFromTime (t : Z) : Z :=
  DayWithinYear t - monthStart (InLeapYear (YearFromTime t)) (MonthFromTime t) + 1.

Definition HourFromTime (t : Z) : Z := (t / msPerHour) mod 24.
Definition MinFromTime (t : Z) : Z := (t / msPerMinute) mod 60.
Definition SecFromTime (t : Z) : Z := (t / msPerSecond) mod 60.
Definition msFromTime (t : Z) : Z := t mod msPerSecond.

Definition MakeTime (hour min sec ms : Z) : Z :=
  hour * msPerHour + min * msPerMinute + sec * msPerSecond + ms.

(** [month] counts from 0. *)
Definition MakeDay (year month date : Z) : Z :=
  let ym := year + month / 12 in
  let mn := month mod 12 in
  DayFromYear ym + monthStart (InLeapYear ym) mn + date - 1.

Definition MakeDate (day time : Z) : Z := day * msPerDay + time.

Definition TimeClip (t : Z) : option Z :=
  if Z.abs t <=? 8640000000000000 then Some t else None.

(** [month] counts from 1. *)
Definition DaysInMonth (year month : Z) : Z :=
  monthStart (InLeapYear year) month - monthStart (InLeapYear year) (month - 1).

(** The host of the program: the offset of local time from UTC, in
    milliseconds, the time value the date parser of the engine gives to a
    string that is not of the standard format, if any, and the time of the
    clock, [Date.now()]. *)
Record Runtime : Type := {
  LocalTZA : Z;
  fallbackParse : string -> option Z;
  now : Z
}.

Definition LocalTime (rt : Runtime) (t : Z) : Z := t + LocalTZA rt.
Definition UTC (rt : Runtime) (t : Z) : Z := t - LocalTZA rt.

(** The date-time string format of the standard:
    [YYYY[-MM[-DD]][THH:mm[:ss[.sss]][Z|+HH:mm|-HH:mm]]], the year also as a
    sign and six digits. *)
Definition sign : ascii -> bool := either (chr "+") (chr "-").

Definition DATE_TIME_FORMAT : regex :=
  Cat [ Group 1 (Alt (Cat [Class sign; d2; d2; d2]) (Cat [d2; d2]));
        Opt (Cat [lit "-"; Group 2 d2; Opt (Cat [lit "-"; Group 3 d2])]);
        Opt (Cat [lit "T"; Group 4 d2; lit ":"; Group 5 d2;
                  Opt (Cat [lit ":"; Group 6 d2;
                            Opt (Cat [lit "."; Group 7 (Seq d2 d1)])]);
                  Opt (Group 8 (Alt (lit "Z")
                                    (Cat [Group 9 (Class sign);
                                          Group 10 d2; lit ":"; Group 11 d2])))]);
        AtEnd ].

Definition signed (s : string) : Z :=
  match s with
  | String c s' =>
      if chr "-" c then - parseDigits s'
      else if chr "+" c then parseDigits s'
      else parseDigits s
  | EmptyString => 0
  end.

Definition field (i : nat) (default : Z) (m : captures) : Z :=
  match group i m with
  | Some x => parseDigits x
  | None => default
  end.

(** The time value of a string of the format whose elements are all legal;
    [None] when the string is not such an instance of the format. A string
    without a time is a UTC date; one with a time and no offset is local. *)
Definition parseDateTimeFormat (rt : Runtime) (s : string) : option Z :=
  match exec 11 DATE_TIME_FORMAT s with
  | None => None
  | Some m =>
      let ys := group' 1 m in
      let year := signed ys in
      let month := field 2 1 m in
      let day := field 3 1 m in
      let hour := field 4 0 m in
      let min := field 5 0 m in
      let sec := field 6 0 m in
      let ms := field 7 0 m in
      let legal :=
        negb (String.eqb ys "-000000")
        && (1 <=? month) && (month <=? 12)
        && (1 <=? day) && (day <=? DaysInMonth year month)
        && (hour <=? 24) && (min <=? 59) && (sec <=? 59)
        && ((hour <? 24) || ((min =? 0) && (sec =? 0) && (ms =? 0)))
        && (field 10 0 m <=? 23) && (field 11 0 m <=? 59) in
      if legal then
        let t := MakeDate (MakeDay year (month - 1) day) (MakeTime hour min sec ms) in
        match group 4 m, group 8 m, group 9 m with
        | None, _, _ => Some t
        | Some _, None, _ => Some (UTC rt t)
        | Some _, Some _, None => Some t
        | Some _, Some _, Some sg =>
            let off := (field 10 0 m * 60 + field 11 0 m) * msPerMinute in
            Some (if String.eqb sg "-" then t + off else t - off)
        end
      else None
  end.

(** [Date.parse(s)] *)
Definition parse (rt : Runtime) (s : string) : option Z :=
  match parseDateTimeFormat rt s with
  | Some t => Some t
  | None => fallbackParse rt s
  end.

(** [new Date(s).getTime()]; [None] is [NaN], the invalid date. *)
Definition newDate (rt : Runtime) (s : string) : option Z :=
  match parse rt s with
  | Some t => TimeClip t
  | None => None
  end.

Definition getHours (rt : Runtime) (t : Z) : Z := HourFromTime (LocalTime rt t).
Definition getMinutes (rt : Runtime) (t : Z) : Z := MinFromTime (LocalTime rt t).

Definition pad (width : nat) (n : Z) : string := padStart width "0" (ofNat n).

Definition yearString (y : Z) : string :=
  if (0 <=? y) && (y <=? 9999) then pad 4 y
  else String (if y <? 0 then "-"%char else "+"%char) (pad 6 (Z.abs y)).

(** [d.toISOString()] for a valid date. *)
Definition toISOString (t : Z) : string :=
  (yearString (YearFromTime t) ++ "-" ++ pad 2 (MonthFromTime t + 1) ++ "-"
   ++ pad 2 (DateFromTime t) ++ "T" ++ pad 2 (HourFromTime t) ++ ":"
   ++ pad 2 (MinFromTime t) ++ ":" ++ pad 2 (SecFromTime t) ++ "."
   ++ pad 3 (msFromTime t) ++ "Z")%string.

(** A string of the format with every field of the date and of the time,
    and the offset [Z]. *)
Definition isFullTimestamp (s : string) : bool :=
  match exec 11 DATE_TIME_FORMAT s with
  | Some m =>
      bool_decide (is_Some (group 3 m)) && bool_decide (is_Some (group 7 m))
      && bool_decide (group 8 m = Some "Z")
  | None => false
  end.

(** ** The date parser of the engine

    Node runs the code on V8. Its parser reads the standard format with
    some leniency (a day up to 31 in any month, a fraction of a second of
    any length) and, for what is left, falls back on its legacy rules: words
    before the first number are skipped, a month is known by the first
    three letters of its name, a number followed by a colon is a time, any
    other number a part of the date. The functions below follow that parser
    step by step, under its names. *)

Module V8.

Inductive KeywordType : Type :=
| INVALID | MONTH_NAME | AM_PM | TIME_ZONE_NAME | TIME_SEPARATOR.

Inductive DateToken : Type :=
| Number (n : Z) (length : nat)
| Symbol (c : ascii)
| Keyword (type : KeywordType) (value : Z) (length : nat)
| WhiteSpace
| Unknown.

(** *** The tokenizer *)

Fixpoint span (p : ascii -> bool) (s : string) : string * string :=
  match s with
  | String c s' =>
      if p c then let (a, b) := span p s' in (String c a, b) else (EmptyString, s)
  | EmptyString => (EmptyString, EmptyString)
  end.

Fixpoint skipZeros (s : string) : string :=
  match s with
  | String c s' => if Ascii.eqb c "0" then skipZeros s' else s
  | EmptyString => EmptyString
  end.

(** Leading zeros are skipped and no more than nine digits are read. *)
Definition ReadUnsignedNumeral (digits : string) : Z :=
  parseDigits (substring 0 9 (skipZeros digits)).

(** The first three code units of a word, each with bit 5 set, padded
    with zeros. *)
Fixpoint codes (s : string) : list N :=
  match s with
  | String c s' => N.lor (code c) 32 :: codes s'
  | EmptyString => []
  end.

Definition prefix (word : string) : list N :=
  firstn 3 (app (codes word) [0%N; 0%N; 0%N]).

Definition KeywordTable : list (string * KeywordType * Z) :=
  [ ("jan", MONTH_NAME, 1); ("feb", MONTH_NAME, 2); ("mar", MONTH_NAME, 3);
    ("apr", MONTH_NAME, 4); ("may", MONTH_NAME, 5); ("jun", MONTH_NAME, 6);
    ("jul", MONTH_NAME, 7); ("aug", MONTH_NAME, 8); ("sep", MONTH_NAME, 9);
    ("oct", MONTH_NAME, 10); ("nov", MONTH_NAME, 11); ("dec", MONTH_NAME, 12);
    ("am", AM_PM, 0); ("pm", AM_PM, 12);
    ("ut", TIME_ZONE_NAME, 0); ("utc", TIME_ZONE_NAME, 0); ("z", TIME_ZONE_NAME, 0);
    ("gmt", TIME_ZONE_NAME, 0);
    ("cdt", TIME_ZONE_NAME, -5); ("cst", TIME_ZONE_NAME, -6);
    ("edt", TIME_ZONE_NAME, -4); ("est", TIME_ZONE_NAME, -5);
    ("mdt", TIME_ZONE_NAME, -6); ("mst", TIME_ZONE_NAME, -7);
    ("pdt", TIME_ZONE_NAME, -7); ("pst", TIME_ZONE_NAME, -8);
    ("t", TIME_SEPARATOR, 0) ].

(** A word longer than its keyword is a keyword for the names of the months
    only. *)
Definition Lookup (pre : list N) (len : nat) : KeywordType * Z :=
  match List.find (fun e : string * KeywordType * Z =>
                     bool_decide (prefix (fst (fst e)) = pre)
                     && ((len <=? 3)%nat
                         || match snd (fst e) with MONTH_NAME => true | _ => false end))
                  KeywordTable with
  | Some e => (snd (fst e), snd e)
  | None => (INVALID, 0)
  end.

Definition IsAsciiAlphaOrAbove (c : ascii) : bool := (65 <=? code c)%N.

Definition wordChar (c : ascii) : bool := IsAsciiAlphaOrAbove c && negb (isWhiteSpace c).

Fixpoint SkipParentheses (balance : Z) (s : string) : string :=
  match s with
  | String c s' =>
      let balance :=
        if Ascii.eqb c ")" then balance - 1
        else if Ascii.eqb c "(" then balance + 1
        else balance in
      if 0 <? balance then SkipParentheses balance s' else s'
  | EmptyString => EmptyString
  end.

(** The next token and the rest of the input. *)
Definition Scan (s : string) : option (DateToken * string) :=
  match s with
  | EmptyString => None
  | String c s' =>
      if isDigit c then
        let (digits, rest) := span isDigit s in
        Some (Number (ReadUnsignedNumeral digits) (String.length digits), rest)
      else if existsb (Ascii.eqb c) [":"; "-"; "+"; "."; ")"]%char then Some (Symbol c, s')
      else if wordChar c then
        let (word, rest) := span wordChar s in
        let (type, value) := Lookup (prefix word) (String.length word) in
        Some (Keyword type value (String.length word), rest)
      else if isWhiteSpace c then Some (WhiteSpace, s')
      else if Ascii.eqb c "(" then Some (Unknown, SkipParentheses 0 s)
      else Some (Unknown, s')
  end.

Fixpoint tokens (fuel : nat) (s : string) : list DateToken :=
  match fuel with
  | O => []
  | S fuel' =>
      match Scan s with
      | Some (token, rest) => token :: tokens fuel' rest
      | None => []
      end
  end.

(** Every token takes a code unit at least. *)
Definition tokenize (s : string) : list DateToken := tokens (String.length s) s.

(** *** The composers of the day, the time and the time zone *)

Record Composers : Type := {
  comp : list Z;
  named_month : option Z;
  is_iso_date : bool;
  time : list Z;
  hour_offset : option Z;
  sign_ : option Z;
  hour_ : option Z;
  minute_ : option Z
}.

Definition empty : Composers :=
  {| comp := []; named_month := None; is_iso_date := false; time := [];
     hour_offset := None; sign_ := None; hour_ := None; minute_ := None |}.

Definition Between (x lo hi : Z) : bool := (lo <=? x) && (x <=? hi).
Definition IsMonth (x : Z) : bool := Between x 1 12.
Definition IsDay (x : Z) : bool := Between x 1 31.
Definition IsHour (x : Z) : bool := Between x 0 23.
Definition IsHour12 (x : Z) : bool := Between x 0 12.
Definition IsMinute (x : Z) : bool := Between x 0 59.
Definition IsSecond (x : Z) : bool := Between x 0 59.
Definition IsMillisecond (x : Z) : bool := Between x 0 999.

Definition dayAdd (n : Z) (c : Composers) : option Composers :=
  if (length (comp c) <? 3)%nat then
    Some {| comp := comp c ++ [n]; named_month := named_month c;
            is_iso_date := is_iso_date c; time := time c;
            hour_offset := hour_offset c; sign_ := sign_ c; hour_ := hour_ c;
            minute_ := minute_ c |}
  else None.

Definition SetNamedMonth (n : Z) (c : Composers) : Composers :=
  {| comp := comp c; named_month := Some n; is_iso_date := is_iso_date c;
     time := time c; hour_offset := hour_offset c; sign_ := sign_ c;
     hour_ := hour_ c; minute_ := minute_ c |}.

Definition set_iso_date (c : Composers) : Composers :=
  {| comp := comp c; named_month := named_month c; is_iso_date := true;
     time := time c; hour_offset := hour_offset c; sign_ := sign_ c;
     hour_ := hour_ c; minute_ := minute_ c |}.

Definition setTime (t : list Z) (c : Composers) : Composers :=
  {| comp := comp c; named_month := named_month c; is_iso_date := is_iso_date c;
     time := t; hour_offset := hour_offset c; sign_ := sign_ c;
     hour_ := hour_ c; minute_ := minute_ c |}.

Definition timeAdd (n : Z) (c : Composers) : option Composers :=
  if (length (time c) <? 4)%nat then Some (setTime (time c ++ [n]) c) else None.

(** The slots that are left are filled with zeros. *)
Definition timeAddFinal (n : Z) (c : Composers) : option Composers :=
  match timeAdd n c with
  | Some c' => Some (setTime (firstn 4 (time c' ++ [0; 0; 0; 0])) c')
  | None => None
  end.

Definition timeIsEmpty (c : Composers) : bool := (length (time c) =? 0)%nat.

Definition timeIsExpecting (n : Z) (c : Composers) : bool :=
  ((length (time c) =? 1)%nat && IsMinute n)
  || ((length (time c) =? 2)%nat && IsSecond n)
  || ((length (time c) =? 3)%nat && IsMillisecond n).

Definition SetHourOffset (n : Z) (c : Composers) : Composers :=
  {| comp := comp c; named_month := named_month c; is_iso_date := is_iso_date c;
     time := time c; hour_offset := Some n; sign_ := sign_ c;
     hour_ := hour_ c; minute_ := minute_ c |}.

Definition setZone (sg h m : option Z) (c : Composers) : Composers :=
  {| comp := comp c; named_month := named_month c; is_iso_date := is_iso_date c;
     time := time c; hour_offset := hour_offset c; sign_ := sg;
     hour_ := h; minute_ := m |}.

(** [tz.Set(offset_in_hours)] *)
Definition zoneSet (offset : Z) (c : Composers) : Composers :=
  let sg := if offset <? 0 then -1 else 1 in
  setZone (Some sg) (Some (offset * sg)) (Some 0) c.

Definition SetSign (sg : Z) (c : Composers) : Composers :=
  setZone (Some (if sg <? 0 then -1 else 1)) (hour_ c) (minute_ c) c.

Definition SetAbsoluteHour (h : Z) (c : Composers) : Composers :=
  setZone (sign_ c) (Some h) (minute_ c) c.

Definition SetAbsoluteMinute (m : option Z) (c : Composers) : Composers :=
  setZone (sign_ c) (hour_ c) m c.

Definition zoneIsExpecting (n : Z) (c : Composers) : bool :=
  bool_decide (is_Some (hour_ c)) && bool_decide (minute_ c = None) && IsMinute n.

Definition IsUTC (c : Composers) : bool :=
  bool_decide (hour_ c = Some 0) && bool_decide (minute_ c = Some 0).

Definition zoneIsEmpty (c : Composers) : bool := bool_decide (hour_ c = None).

(** Three digits of a fraction of a second: a shorter one is scaled up, a
    longer one cut. *)
Definition ReadMilliseconds (n : Z) (length : nat) : Z :=
  match length with
  | 1%nat => n * 100
  | 2%nat => n * 10
  | 3%nat => n
  | _ => n / 10 ^ (Z.of_nat (Nat.min length 9) - 3)
  end.

(** *** Tokens *)

Definition IsAsciiSign (t : DateToken) : bool :=
  match t with
  | Symbol c => Ascii.eqb c "+" || Ascii.eqb c "-"
  | _ => false
  end.

Definition IsSymbol (a : ascii) (t : DateToken) : bool :=
  match t with
  | Symbol c => Ascii.eqb c a
  | _ => false
  end.

Definition IsKeywordZ (t : DateToken) : bool :=
  match t with
  | Keyword TIME_ZONE_NAME _ 1 => true
  | _ => false
  end.

(** [scanner.SkipSymbol(a)] *)
Definition SkipSymbol (a : ascii) (toks : list DateToken) : bool * list DateToken :=
  match toks with
  | t :: rest => if IsSymbol a t then (true, rest) else (false, toks)
  | [] => (false, toks)
  end.

(** *** The standard format, read leniently

    [None] is an invalid date; otherwise the tokens that are left to the
    legacy rules, with what has been composed so far. *)

Definition ES5Zone (toks : list DateToken) (c : Composers)
  : option (list DateToken * Composers) :=
  match toks with
  | Keyword TIME_ZONE_NAME _ 1 :: rest => Some (rest, zoneSet 0 c)
  | Symbol sg :: rest =>
      if Ascii.eqb sg "+" || Ascii.eqb sg "-" then
        let c := SetSign (if Ascii.eqb sg "+" then 1 else -1) c in
        match rest with
        | Number hourmin 4 :: rest' =>
            let hour := hourmin / 100 in
            let min := hourmin mod 100 in
            if IsHour hour && IsMinute min
            then Some (rest', SetAbsoluteMinute (Some min) (SetAbsoluteHour hour c))
            else None
        | Number hour 2 :: Symbol colon :: Number min 2 :: rest' =>
            if IsHour hour && Ascii.eqb colon ":" && IsMinute min
            then Some (rest', SetAbsoluteMinute (Some min) (SetAbsoluteHour hour c))
            else None
        | _ => None
        end
      else Some (toks, c)
  | _ => Some (toks, c)
  end.

Definition ES5Time (toks : list DateToken) (c : Composers)
  : option (list DateToken * Composers) :=
  match toks with
  | Number hour 2 :: Symbol colon :: Number min 2 :: rest =>
      let hour_is_24 := hour =? 24 in
      if Between hour 0 24 && Ascii.eqb colon ":" && IsMinute min
         && negb (hour_is_24 && (0 <? min))
      then
        let c := setTime [hour; min] c in
        match rest with
        | Symbol colon' :: rest1 =>
            if Ascii.eqb colon' ":" then
              match rest1 with
              | Number sec 2 :: rest2 =>
                  if IsSecond sec && negb (hour_is_24 && (0 <? sec)) then
                    let c := setTime [hour; min; sec] c in
                    match rest2 with
                    | Symbol dot :: rest3 =>
                        if Ascii.eqb dot "." then
                          match rest3 with
                          | Number ms len :: rest4 =>
                              if negb (hour_is_24 && (0 <? ms))
                              then ES5Zone rest4
                                     (setTime [hour; min; sec; ReadMilliseconds ms len] c)
                              else None
                          | _ => None
                          end
                        else ES5Zone rest2 c
                    | _ => ES5Zone rest2 c
                    end
                  else None
              | _ => None
              end
            else ES5Zone rest c
        | _ => ES5Zone rest c
        end
      else None
  | _ => None
  end.

Inductive ES5Date : Type :=
| Legacy (toks : list DateToken) (c : Composers)
| Continue (toks : list DateToken) (c : Composers)
| InvalidDate.

Definition pushDay (n : Z) (c : Composers) : Composers :=
  match dayAdd n c with
  | Some c' => c'
  | None => c
  end.

(** The year: four digits, or a sign and six digits. *)
Definition ES5Year (toks : list DateToken) : ES5Date :=
  match toks with
  | Symbol sg :: rest =>
      if Ascii.eqb sg "+" || Ascii.eqb sg "-" then
        match rest with
        | Number year 6 :: rest' =>
            if Ascii.eqb sg "-" && (year =? 0) then InvalidDate
            else Continue rest' (pushDay (if Ascii.eqb sg "-" then - year else year) empty)
        | _ => Legacy toks empty
        end
      else Legacy toks empty
  | Number year 4 :: rest => Continue rest (pushDay year empty)
  | _ => Legacy toks empty
  end.

(** [-MM], and after it [-DD]. A hyphen that is followed by something else
    is dropped, and the rest goes to the legacy rules. *)
Definition ES5MonthDay (toks : list DateToken) (c : Composers) : ES5Date :=
  match SkipSymbol "-" toks with
  | (true, Number month 2 :: rest) =>
      if IsMonth month then
        let c := pushDay month c in
        match SkipSymbol "-" rest with
        | (true, Number day 2 :: rest') =>
            if IsDay day then Continue rest' (pushDay day c)
            else Legacy (Number day 2 :: rest') c
        | (true, rest') => Legacy rest' c
        | (false, _) => Continue rest c
        end
      else Legacy (Number month 2 :: rest) c
  | (true, rest) => Legacy rest c
  | (false, _) => Continue toks c
  end.

Definition ParseES5DateTime (toks : list DateToken)
  : option (list DateToken * Composers) :=
  let finish (c : Composers) :=
    set_iso_date (if zoneIsEmpty c && timeIsEmpty c then zoneSet 0 c else c) in
  match ES5Year toks with
  | InvalidDate => None
  | Legacy rest c => Some (rest, c)
  | Continue rest c =>
      match ES5MonthDay rest c with
      | InvalidDate => None
      | Legacy rest c => Some (rest, c)
      | Continue [] c => Some ([], finish c)
      | Continue (Keyword TIME_SEPARATOR _ _ :: rest) c =>
          match ES5Time rest c with
          | Some ([], c') => Some ([], finish c')
          | _ => None
          end
      | Continue rest c => Some (rest, c)
      end
  end.

(** *** The legacy rules *)

Definition IsNumber (t : option DateToken) : bool :=
  match t with
  | Some (Number _ _) => true
  | _ => false
  end.

(** A number. *)
Definition legacyNumber (n : Z) (rest : list DateToken) (c : Composers)
  : option (list DateToken * Composers) :=
  match SkipSymbol ":" rest with
  | (true, rest) =>
      match SkipSymbol ":" rest with
      | (true, rest) =>
          if timeIsEmpty c then Some (rest, setTime [n; 0] c) else None
      | (false, _) =>
          match timeAdd n c with
          | Some c => Some (snd (SkipSymbol "." rest), c)
          | None => None
          end
      end
  | (false, _) =>
      let (dot, rest) := SkipSymbol "." rest in
      if dot && timeIsExpecting n c then
        match timeAdd n c, rest with
        | Some c, Number ms len :: rest =>
            match timeAddFinal (ReadMilliseconds ms len) c with
            | Some c => Some (rest, c)
            | None => None
            end
        | _, _ => None
        end
      else if zoneIsExpecting n c then Some (rest, SetAbsoluteMinute (Some n) c)
      else if timeIsExpecting n c then
        match timeAddFinal n c with
        | Some c =>
            match rest with
            | [] => Some (rest, c)
            | t :: _ =>
                if match t with WhiteSpace => true | _ => false end
                   || IsKeywordZ t || IsAsciiSign t
                then Some (rest, c) else None
            end
        | None => None
        end
      else
        match dayAdd n c with
        | Some c => Some (snd (SkipSymbol "-" rest), c)
        | None => None
        end
  end.

(** A sign after [UTC] or after a time: the offset from UTC. *)
Definition legacyOffset (sg : ascii) (rest : list DateToken) (c : Composers)
  : option (list DateToken * Composers) :=
  let c := SetSign (if Ascii.eqb sg "+" then 1 else -1) c in
  let '(n, len, rest) :=
    match rest with
    | Number n len :: rest => (n, len, rest)
    | _ => (0, O, rest)
    end in
  if IsSymbol ":" (List.hd Unknown rest) then
    Some (rest, SetAbsoluteMinute None (SetAbsoluteHour n c))
  else if (len =? 2)%nat || (len =? 1)%nat then
    Some (rest, SetAbsoluteMinute (Some 0) (SetAbsoluteHour n c))
  else if (len =? 4)%nat || (len =? 3)%nat then
    Some (rest, SetAbsoluteMinute (Some (n mod 100)) (SetAbsoluteHour (n / 100) c))
  else None.

Fixpoint legacy (fuel : nat) (toks : list DateToken) (c : Composers)
         (has_read_number : bool) : option Composers :=
  match fuel, toks with
  | _, [] => Some c
  | O, _ => None
  | S fuel, token :: rest =>
      match token with
      | Number n _ =>
          match legacyNumber n rest c with
          | Some (rest, c) => legacy fuel rest c true
          | None => None
          end
      | Keyword type value _ =>
          match type with
          | AM_PM =>
              if negb (timeIsEmpty c) then legacy fuel rest (SetHourOffset value c) has_read_number
              else if has_read_number || IsNumber (List.head rest) then None
              else legacy fuel rest c has_read_number
          | MONTH_NAME =>
              legacy fuel (snd (SkipSymbol "-" rest)) (SetNamedMonth value c) has_read_number
          | _ =>
              if match type with TIME_ZONE_NAME => has_read_number | _ => false end
              then legacy fuel rest (zoneSet value c) has_read_number
              else if has_read_number || IsNumber (List.head rest) then None
              else legacy fuel rest c has_read_number
          end
      | Symbol sg =>
          if IsAsciiSign token && (IsUTC c || negb (timeIsEmpty c)) then
            match legacyOffset sg rest c with
            | Some (rest, c) => legacy fuel rest c true
            | None => None
            end
          else if (IsAsciiSign token || Ascii.eqb sg ")") && has_read_number then None
          else legacy fuel rest c has_read_number
      | _ => legacy fuel rest c has_read_number
      end
  end.

(** *** The date, the time and the offset that were composed *)

(** The year, the month (from 1) and the day. The slots of the day that are
    left hold 1; without a named month three numbers are year, month and day
    when the first cannot be a day, and month, day and year otherwise. A year
    below 100 outside the standard format is in 1950..2049. *)
Definition dayWrite (c : Composers) : option (Z * Z * Z) :=
  match firstn 3 (comp c ++ [1; 1; 1])%list with
  | [c0; c1; c2] =>
      if (length (comp c) <? 1)%nat then None
      else
        let '(year, month, day) :=
          match named_month c with
          | None =>
              if is_iso_date c || negb (IsDay c0) then (c0, c1, c2)
              else (c2, c0, c1)
          | Some month =>
              if negb (IsDay c0) then (c0, month, c1) else (c1, month, c0)
          end in
        let year :=
          if is_iso_date c then year
          else if Between year 0 49 then year + 2000
          else if Between year 50 99 then year + 1900
          else year in
        if IsMonth month && IsDay day then Some (year, month, day) else None
  | _ => None
  end.

Definition timeWrite (c : Composers) : option (Z * Z * Z * Z) :=
  match firstn 4 (time c ++ [0; 0; 0; 0])%list with
  | [hour; minute; second; millisecond] =>
      let hour' :=
        match hour_offset c with
        | Some offset => if IsHour12 hour then Some (hour mod 12 + offset) else None
        | None => Some hour
        end in
      match hour' with
      | Some hour =>
          if (IsHour hour && IsMinute minute && IsSecond second && IsMillisecond millisecond)
             || ((hour =? 24) && (minute =? 0) && (second =? 0) && (millisecond =? 0))
          then Some (hour, minute, second, millisecond)
          else None
      | None => None
      end
  | _ => None
  end.

(** The offset from UTC in seconds; [None] is local time. *)
Definition zoneWrite (c : Composers) : option Z :=
  match sign_ c with
  | Some sg => Some (sg * (default 0 (hour_ c) * 3600 + default 0 (minute_ c) * 60))
  | None => None
  end.

Definition kMaxYear : Z := 1000000.

(** [Date.parse(s)] on V8, in a time zone of the given offset. *)
Definition ParseDateTimeString (tza : Z) (s : string) : option Z :=
  match ParseES5DateTime (tokenize s) with
  | None => None
  | Some (rest, c) =>
      match legacy (S (length rest)) rest c (negb (length (comp c) =? 0)%nat) with
      | None => None
      | Some c =>
          match dayWrite c, timeWrite c with
          | Some (year, month, day), Some (hour, minute, second, millisecond) =>
              if Between year (- kMaxYear) kMaxYear then
                let date := MakeDate (MakeDay year (month - 1) day)
                                     (MakeTime hour minute second millisecond) in
                match zoneWrite c with
                | Some offset => Some (date - offset * 1000)
                | None => Some (date - tza)
                end
              else None
          | _, _ => None
          end
      end
  end.

End V8.

(** Node in a time zone of the given offset, its clock at [now]: what the
    standard format does not read is read by the parser of V8. The two
    runtimes of the examples are in Coordinated Universal Time and two hours
    east of it. *)
Definition node (tza now : Z) : Runtime :=
  {| LocalTZA := tza; fallbackParse := V8.ParseDateTimeString tza; now := now |}.

Definition utcRuntime : Runtime := node 0 1780000000000.

Definition eastRuntime : Runtime := node (2 * msPerHour) 1780000000000.

End JSDate.

Import JSDate.

(** ** Errors

    What the program and the library throw: [Error message] is
    [new Error(message)], the error of the two normalisers and of the
    pre-save hook of a Booking; [TypeError] a method call on a missing
    value; [ValidationError] the error of the library's validation, with the
    failing paths and their messages; [DuplicateKey] the error of a unique
    index of the store; [DocumentNotFound] the update of a record that is
    gone; [VersionError] the versioned update of a record that is gone or at
    another version. *)

Inductive error : Type :=
| Error (message : string)
| TypeError
| ValidationError (errors : list (string * string))
| DuplicateKey (path : string)
| DocumentNotFound
| VersionError.

#[global] Instance error_eq_dec : EqDecision error.
Proof. solve_decision. Defined.

(** ** [normalizeTime] and [normalizeDate] *)

(** [/^([01]?\d|2[0-3]):([0-5]\d)$/] *)
Definition HHMM24 : regex :=
  Cat [ Group 1 (Alt (Seq (Opt (Class (rng "0" "1"))) d1)
                     (Seq (lit "2") (Class (rng "0" "3"))));
        lit ":";
        Group 2 (Seq (Class (rng "0" "5")) d1);
        AtEnd ].

(** [/^(1[0-2]|0?[1-9]):([0-5]\d)\s*(am|pm)$/i] *)
Definition AMPM : regex :=
  Cat [ Group 1 (Alt (Seq (lit "1") (Class (rng "0" "2")))
                     (Seq (Opt (lit "0")) (Class (rng "1" "9"))));
        lit ":";
        Group 2 (Seq (Class (rng "0" "5")) d1);
        Star isWhiteSpace;
        Group 3 (Alt (Seq (Class (chrI "a")) (Class (chrI "m")))
                     (Seq (Class (chrI "p")) (Class (chrI "m"))));
        AtEnd ].

Definition normalizeTime (rt : Runtime) (input : string) : result error string :=
  let trimmed := trim input in
  match exec 2 HHMM24 trimmed with
  | Some hhmm24 =>
      Ok (padStart 2 "0" (group' 1 hhmm24) ++ ":" ++ group' 2 hhmm24)
  | None =>
      match exec 3 AMPM trimmed with
      | Some ampm =>
          let hh := parseDigits (group' 1 ampm) in
          let mm := group' 2 ampm in
          let period := toLowerCase (group' 3 ampm) in
          let hh := if String.eqb period "pm" && negb (hh =? 12)%Z then (hh + 12)%Z else hh in
          let hh := if String.eqb period "am" && (hh =? 12)%Z then 0%Z else hh in
          Ok (padStart 2 "0" (ofNat hh) ++ ":" ++ mm)
      | None =>
          match newDate rt ("1970-01-01T" ++ trimmed) with
          | Some parsed =>
              let hh := padStart 2 "0" (ofNat (getHours rt parsed)) in
              let mm := padStart 2 "0" (ofNat (getMinutes rt parsed)) in
              Ok (hh ++ ":" ++ mm)
          | None => Err (Error "Invalid time format")
          end
      end
  end.

(** The spellings of a time that the first two shapes of [normalizeTime]
    are tried on below: the canonical form, the hour with or without its
    leading zero, the separators before the period and the period in
    either case of each letter. *)
Definition hhmm (h m : Z) : string := pad 2 h ++ ":" ++ pad 2 m.

Definition hourSpellings (h : Z) : list string := [ofNat h; pad 2 h].

Definition separators : list string :=
  [""; " "; "  "; String "009"%char EmptyString].

Definition amSpellings : list string := ["am"; "AM"; "Am"; "aM"].
Definition pmSpellings : list string := ["pm"; "PM"; "Pm"; "pM"].

(** An input of one of the first two shapes with the expected result. *)
Definition staticTime (input expected : string) : bool :=
  bool_decide (is_Some (exec 2 HHMM24 (trim input)) \/ is_Some (exec 3 AMPM (trim input)))
  && bool_decide (normalizeTime utcRuntime input = Ok expected).

Definition normalizeDate (rt : Runtime) (input : string) : result error string :=
  match newDate rt input with
  | None => Err (Error "Invalid date format")
  | Some parsed => Ok (toISOString parsed)
  end.

(** ** The document-store library

    Documents, schemas and the [save] operation of the object-document
    mapper, as far as the two models use them. A document is a JavaScript
    object: a finite map from the paths of the schema to values, with what
    the library keeps beside them: the set of modified paths, the [isNew]
    flag, the cast errors of the assignments that failed, the two timestamps
    of the [timestamps] option and the version key [__v]. [save] validates
    the document, then sets the timestamps, then runs the pre-save hook of
    the schema, then writes: the library registers validation ahead of every
    hook, and the hook of the timestamps when the schema is made, before the
    hooks the program adds. The write of a new document inserts it whole; the
    write of a persisted one sends the modified paths only, and nothing when
    none is modified. A failed save returns no document: what the hooks had
    done to it by then is not followed. *)

Module Mongoose.

Inductive value : Type :=
| Str (s : string)
| Arr (l : list string)
| Oid (id : N).

#[global] Instance value_eq_dec : EqDecision value.
Proof. solve_decision. Defined.

Inductive kind : Type := KString | KArray | KObjectId.

#[global] Instance kind_eq_dec : EqDecision kind.
Proof. solve_decision. Defined.

Definition kindOf (v : value) : kind :=
  match v with
  | Str _ => KString
  | Arr _ => KArray
  | Oid _ => KObjectId
  end.

(** The options of a schema path. [required] holds the message. *)
Module Opt.
Record SchemaType : Type := {
  type : kind;
  required : option string;
  trim : bool;
  lowercase : bool;
  validate : option ((value -> bool) * string)
}.
End Opt.
Abbreviation SchemaType := Opt.SchemaType.

Definition Schema : Type := list (string * SchemaType).

Definition pathType (sch : Schema) (path : string) : option SchemaType :=
  snd <$> List.find (fun p => String.eqb (fst p) path) sch.

Record Document : Type := {
  _id : N;
  fields : gmap string value;
  modifiedPaths : gset string;
  isNew : bool;
  castErrors : gmap string string;
  createdAt : option Z;
  updatedAt : option Z;
  __v : option N
}.

Definition isModified (path : string) (doc : Document) : bool :=
  bool_decide (path ∈ modifiedPaths doc).

(** *** Casting

    A value that is not of the type of its path is cast to it. An
    identifier is written as 24 hexadecimal digits, and a string of 24
    hexadecimal digits is read as an identifier; a lone value becomes an
    array of one element; an array is no string. *)

Definition hexValue (c : ascii) : option N :=
  if isDigit c then Some (code c - 48)%N
  else if inRange 97 102 c then Some (code c - 87)%N
  else if inRange 65 70 c then Some (code c - 55)%N
  else None.

Fixpoint parseHexFrom (acc : N) (s : string) : option N :=
  match s with
  | EmptyString => Some acc
  | String c s' =>
      match hexValue c with
      | Some d => parseHexFrom (16 * acc + d)%N s'
      | None => None
      end
  end.

(** [new ObjectId(s)] *)
Definition ObjectId (s : string) : option N :=
  if (String.length s =? 24)%nat then parseHexFrom 0 s else None.

Definition hexDigit (d : N) : ascii :=
  ascii_of_N (if (d <? 10)%N then 48 + d else 87 + d)%N.

Fixpoint toHex (digits : nat) (n : N) : string :=
  match digits with
  | O => EmptyString
  | S digits' => toHex digits' (n / 16)%N ++ String (hexDigit (n mod 16)%N) EmptyString
  end.

(** [id.toString()] *)
Definition toHexString (id : N) : string := toHex 24 id.

(** [l.toString()] *)
Definition join (l : list string) : string := String.concat "," l.

Definition cast (k : kind) (v : value) : option value :=
  match k, v with
  | KString, Str _ => Some v
  | KString, Oid id => Some (Str (toHexString id))
  | KString, Arr _ => None
  | KArray, Arr _ => Some v
  | KArray, Str s => Some (Arr [s])
  | KArray, Oid id => Some (Arr [toHexString id])
  | KObjectId, Oid _ => Some v
  | KObjectId, Str s => Oid <$> ObjectId s
  | KObjectId, Arr l => Oid <$> ObjectId (join l)
  end.

(** The message of the cast error of a path. *)
Definition quote : string := String (ascii_of_N 34) EmptyString.

Definition inspect (v : value) : string :=
  match v with
  | Str s => s
  | Oid id => toHexString id
  | Arr [] => "[]"
  | Arr l => "[ " ++ String.concat ", " (List.map (fun x => "'" ++ x ++ "'") l) ++ " ]"
  end.

Definition castMessage (k : kind) (v : value) (path : string) : string :=
  "Cast to "
  ++ match k with KString => "string" | KArray => "Array" | KObjectId => "ObjectId" end
  ++ " failed for value " ++ quote ++ inspect v ++ quote
  ++ " (type "
  ++ match v with Str _ => "string" | Arr _ => "Array" | Oid _ => "ObjectId" end
  ++ ") at path " ++ quote ++ path ++ quote
  ++ match k with
     | KObjectId => " because of " ++ quote ++ "BSONError" ++ quote
     | _ => ""
     end.

(** The setters the options [lowercase] and [trim] add to a string path. *)
Definition applySetters (st : SchemaType) (v : value) : value :=
  match v with
  | Str s =>
      let s := if Opt.lowercase st then toLowerCase s else s in
      let s := if Opt.trim st then trim s else s in
      Str s
  | _ => v
  end.

(** [doc.path = v]: the value is cast to the type of the path and goes
    through its setters; the path is marked modified on a new document, or
    when the value changes. A value that cannot be cast leaves the path as it
    is and the cast error on the document, until a later assignment to the
    path succeeds. A path outside the schema is dropped ([strict]). *)
Definition assign (sch : Schema) (path : string) (v : value) (doc : Document) : Document :=
  match pathType sch path with
  | Some st =>
      match cast (Opt.type st) v with
      | Some v0 =>
          let v' := applySetters st v0 in
          {| _id := _id doc;
             fields := <[path := v']> (fields doc);
             modifiedPaths :=
               if isNew doc || negb (bool_decide (fields doc !! path = Some v'))
               then {[path]} ∪ modifiedPaths doc
               else modifiedPaths doc;
             isNew := isNew doc;
             castErrors := delete path (castErrors doc);
             createdAt := createdAt doc;
             updatedAt := updatedAt doc;
             __v := __v doc |}
      | None =>
          {| _id := _id doc;
             fields := fields doc;
             modifiedPaths := modifiedPaths doc;
             isNew := isNew doc;
             castErrors := <[path := castMessage (Opt.type st) v path]> (castErrors doc);
             createdAt := createdAt doc;
             updatedAt := updatedAt doc;
             __v := __v doc |}
      end
  | None => doc
  end.

(** An array path without a value defaults to the empty array. *)
Definition applyDefaults (sch : Schema) (doc : Document) : Document :=
  {| _id := _id doc;
     fields :=
       foldr (fun p f =>
                match Opt.type (snd p), f !! fst p with
                | KArray, None => <[fst p := Arr []]> f
                | _, _ => f
                end) (fields doc) sch;
     modifiedPaths := modifiedPaths doc;
     isNew := isNew doc;
     castErrors := castErrors doc;
     createdAt := createdAt doc;
     updatedAt := updatedAt doc;
     __v := __v doc |}.

(** [new Model(attrs)], with the identifier the constructor draws. *)
Definition construct (sch : Schema) (id : N) (attrs : list (string * value)) : Document :=
  applyDefaults sch
    (foldl (fun doc p => assign sch (fst p) (snd p) doc)
           {| _id := id; fields := ∅; modifiedPaths := ∅; isNew := true;
              castErrors := ∅; createdAt := None; updatedAt := None; __v := None |}
           attrs).

(** The [required] validator: a string must be non-empty, any other value
    must be present. *)
Definition checkRequired (v : option value) : bool :=
  match v with
  | None => false
  | Some (Str s) => negb (String.eqb s "")
  | Some _ => true
  end.

(** The error of one path. A path with a cast error is not validated: the
    cast error is its error. Otherwise the validators run in the order of
    their declaration and the first failure is the error of the path; only
    [required] runs on a missing value. *)
Definition validatePath (doc : Document) (p : string * SchemaType) : option (string * string) :=
  let v := fields doc !! fst p in
  let custom :=
    match Opt.validate (snd p), v with
    | Some (f, msg), Some x => if f x then None else Some (fst p, msg)
    | _, _ => None
    end in
  match castErrors doc !! fst p with
  | Some msg => Some (fst p, msg)
  | None =>
      match Opt.required (snd p) with
      | Some msg => if checkRequired v then custom else Some (fst p, msg)
      | None => custom
      end
  end.

(** [doc.validate()]: the failing paths with their messages. *)
Definition validateDoc (sch : Schema) (doc : Document) : list (string * string) :=
  omap (validatePath doc) sch.

(** *** The store

    A record of a collection: the paths of the schema, the timestamps and
    the version key. *)
Module Stored.
Record record : Type := {
  data : gmap string value;
  createdAt : option Z;
  updatedAt : option Z;
  __v : option N
}.
End Stored.
Abbreviation StoredRecord := Stored.record.

(** [r.path] *)
#[global] Instance stored_lookup : Lookup string value StoredRecord :=
  fun path r => Stored.data r !! path.

#[global] Instance stored_empty : stdpp.base.Empty StoredRecord :=
  {| Stored.data := ∅; Stored.createdAt := None; Stored.updatedAt := None;
     Stored.__v := None |}.

(** The store: the collections by model name, and the log of the existence
    queries it has served. *)
Record Store : Type := {
  collections : gmap string (gmap N StoredRecord);
  existsLog : list (string * option N)
}.

Definition collection (name : string) (db : Store) : gmap N StoredRecord :=
  default ∅ (collections db !! name).

(** [Model.exists({ _id: id })] *)
Definition exists_ (name : string) (id : option N) (db : Store) : bool * Store :=
  (match id with
   | Some i => bool_decide (is_Some (collection name db !! i))
   | None => false
   end,
   {| collections := collections db; existsLog := existsLog db ++ [(name, id)] |}).

Record Model : Type := {
  modelName : string;
  schema : Schema;
  timestamps : bool;
  uniquePaths : list string;
  preSave : Runtime -> Store -> Document -> result error Document * Store
}.

(** The hook of the [timestamps] option: a new document gets its creation
    time, unless it has one, and that time as its time of update; a
    persisted document with a modified path gets the time of the clock as its
    time of update. *)
Definition setTimestamps (rt : Runtime) (doc : Document) : Document :=
  if isNew doc then
    let created := default (now rt) (createdAt doc) in
    {| _id := _id doc;
       fields := fields doc;
       modifiedPaths :=
         {["updatedAt"]}
         ∪ (match createdAt doc with
            | Some _ => modifiedPaths doc
            | None => {["createdAt"]} ∪ modifiedPaths doc
            end);
       isNew := isNew doc;
       castErrors := castErrors doc;
       createdAt := Some created;
       updatedAt := Some created;
       __v := __v doc |}
  else if bool_decide (modifiedPaths doc = ∅) then doc
  else
    {| _id := _id doc;
       fields := fields doc;
       modifiedPaths :=
         if bool_decide (updatedAt doc = Some (now rt)) then modifiedPaths doc
         else {["updatedAt"]} ∪ modifiedPaths doc;
       isNew := isNew doc;
       castErrors := castErrors doc;
       createdAt := createdAt doc;
       updatedAt := Some (now rt);
       __v := __v doc |}.

(** Another record of the collection holds the same value at a unique path. *)
Definition conflicts (coll : gmap N StoredRecord) (doc : Document) (path : string) : bool :=
  match fields doc !! path with
  | Some v =>
      existsb (fun r => negb (fst r =? _id doc)%N
                        && bool_decide (snd r !! path = Some v))
              (map_to_list coll)
  | None => false
  end.

(** The document after a write, at the given version. *)
Definition saved (version : option N) (doc : Document) : Document :=
  {| _id := _id doc; fields := fields doc; modifiedPaths := ∅; isNew := false;
     castErrors := castErrors doc; createdAt := createdAt doc;
     updatedAt := updatedAt doc; __v := version |}.

(** The record that an insert makes of a document. *)
Definition toRecord (doc : Document) : StoredRecord :=
  {| Stored.data := fields doc; Stored.createdAt := createdAt doc;
     Stored.updatedAt := updatedAt doc; Stored.__v := __v doc |}.

(** The update of a record: [$set] of the modified paths, a modified path
    without a value being unset, and [$inc] of the version key when the
    update is versioned. *)
Definition update (doc : Document) (increment : bool) (r : StoredRecord) : StoredRecord :=
  {| Stored.data :=
       filter (fun kv => fst kv ∈ modifiedPaths doc) (fields doc)
       ∪ filter (fun kv => fst kv ∉ modifiedPaths doc) (Stored.data r);
     Stored.createdAt :=
       if isModified "createdAt" doc then createdAt doc else Stored.createdAt r;
     Stored.updatedAt :=
       if isModified "updatedAt" doc then updatedAt doc else Stored.updatedAt r;
     Stored.__v :=
       if increment then Some (default 0 (Stored.__v r) + 1)%N else Stored.__v r |}.

(** An update that sets an array is versioned: it applies to the record at
    the version of the document only, and increments the version. *)
Definition versioned (sch : Schema) (doc : Document) : bool :=
  existsb (fun p => isModified (fst p) doc && bool_decide (Opt.type (snd p) = KArray)) sch.

Definition atVersion (doc : Document) (r : StoredRecord) : bool :=
  match __v doc with
  | Some v => bool_decide (Stored.__v r = Some v)
  | None => true
  end.

(** The write that ends a save. A new document is inserted whole, at version
    0. A persisted document updates its record with its modified paths, and
    writes nothing when it has none; the record must exist, and be at the
    version of the document when the update is versioned. The unique indexes
    are checked by the store, on what is written. *)
Definition write (M : Model) (db : Store) (doc : Document) : result error Document * Store :=
  let coll := collection (modelName M) db in
  let put (r : StoredRecord) :=
    {| collections := <[modelName M := <[_id doc := r]> coll]> (collections db);
       existsLog := existsLog db |} in
  if isNew doc then
    if bool_decide (is_Some (coll !! _id doc)) then (Err (DuplicateKey "_id"), db)
    else
      match List.find (conflicts coll doc) (uniquePaths M) with
      | Some path => (Err (DuplicateKey path), db)
      | None => (Ok (saved (Some 0%N) doc), put (toRecord (saved (Some 0%N) doc)))
      end
  else
    let increment := versioned (schema M) doc in
    match coll !! _id doc with
    | None => (Err (if increment then VersionError else DocumentNotFound), db)
    | Some r =>
        if bool_decide (modifiedPaths doc = ∅) then (Ok (saved (__v doc) doc), db)
        else if increment && negb (atVersion doc r) then (Err VersionError, db)
        else
          match List.find (fun path => isModified path doc && conflicts coll doc path)
                          (uniquePaths M) with
          | Some path => (Err (DuplicateKey path), db)
          | None =>
              (Ok (saved (if increment then Some (default 0 (__v doc) + 1)%N else __v doc)
                         doc),
               put (update doc increment r))
          end
    end.

(** [doc.save()] *)
Definition save (M : Model) (rt : Runtime) (db : Store) (doc : Document)
  : result error Document * Store :=
  match validateDoc (schema M) doc with
  | (_ :: _) as errors => (Err (ValidationError errors), db)
  | [] =>
      match preSave M rt db (if timestamps M then setTimestamps rt doc else doc) with
      | (Err e, db') => (Err e, db')
      | (Ok doc', db') => write M db' doc'
      end
  end.

(** The stored record of a document, if any. *)
Definition stored (M : Model) (db : Store) (id : N) : option StoredRecord :=
  collection (modelName M) db !! id.

End Mongoose.

Import Mongoose.

(** ** The Event model *)

Module EventModel.

(** [typeof v === "string" && v.trim().length > 0] *)
Definition nonEmptyString (v : value) : bool :=
  match v with
  | Str s => (0 <? String.length (trim s))%nat
  | _ => false
  end.

(** [Array.isArray(arr) && arr.length > 0] *)
Definition nonEmptyArray (v : value) : bool :=
  match v with
  | Arr l => (0 <? length l)%nat
  | _ => false
  end.

(** The message of [required: true]. *)
Definition requiredMessage (path : string) : string :=
  "Path `" ++ path ++ "` is required.".

(** [{ type: String, required: true, trim: true }] *)
Definition trimmedString (path : string) : string * SchemaType :=
  (path, {| Opt.type := KString; Opt.required := Some (requiredMessage path);
            Opt.trim := true; Opt.lowercase := false; Opt.validate := None |}).

(** [{ type: String, required: true }] *)
Definition plainString (path : string) : string * SchemaType :=
  (path, {| Opt.type := KString; Opt.required := Some (requiredMessage path);
            Opt.trim := false; Opt.lowercase := false; Opt.validate := None |}).

Definition eventSchema : Schema :=
  [ ("title", {| Opt.type := KString; Opt.required := Some "Title is required";
                 Opt.trim := true; Opt.lowercase := false;
                 Opt.validate := Some (nonEmptyString, "Title cannot be empty") |});
    plainString "slug";
    ("description", {| Opt.type := KString; Opt.required := Some "Description is required";
                       Opt.trim := false; Opt.lowercase := false;
                       Opt.validate := Some (nonEmptyString, "Description cannot be empty") |});
    trimmedString "overview";
    trimmedString "image";
    trimmedString "venue";
    trimmedString "location";
    plainString "date";
    plainString "time";
    trimmedString "mode";
    trimmedString "audience";
    ("agenda", {| Opt.type := KArray; Opt.required := Some (requiredMessage "agenda");
                  Opt.trim := false; Opt.lowercase := false;
                  Opt.validate := Some (nonEmptyArray, "Agenda must contain at least one item") |});
    trimmedString "organizer";
    ("tags", {| Opt.type := KArray; Opt.required := Some (requiredMessage "tags");
                Opt.trim := false; Opt.lowercase := false;
                Opt.validate := Some (nonEmptyArray, "Tags must contain at least one item") |}) ].

(** [this.path] read as a string; calling a string method on anything else
    throws. *)
Definition readString (path : string) (this : Document) : result error string :=
  match fields this !! path with
  | Some (Str s) => Ok s
  | _ => Err TypeError
  end.

Definition andThen {A B : Type} (r : result error A) (k : A -> result error B) : result error B :=
  match r with
  | Ok a => k a
  | Err e => Err e
  end.

(** The pre-save hook of the schema. *)
Definition eventPreSaveHook (rt : Runtime) (this : Document) : result error Document :=
  andThen
    (if isModified "title" this then
       andThen (readString "title" this) (fun title =>
       Ok (assign eventSchema "slug" (Str (slugify title)) this))
     else Ok this) (fun this =>
  andThen
    (if isModified "date" this then
       andThen (readString "date" this) (fun date =>
       andThen (normalizeDate rt date) (fun date' =>
       Ok (assign eventSchema "date" (Str date') this)))
     else Ok this) (fun this =>
  if isModified "time" this then
    andThen (readString "time" this) (fun time =>
    andThen (normalizeTime rt time) (fun time' =>
    Ok (assign eventSchema "time" (Str time') this)))
  else Ok this)).

Definition Event : Model :=
  {| modelName := "Event";
     schema := eventSchema;
     timestamps := true;
     uniquePaths := ["slug"];
     preSave := fun rt db this => (eventPreSaveHook rt this, db) |}.

(** [Event.build(attrs)] *)
Definition build (id : N) (attrs : list (string * value)) : Document :=
  construct eventSchema id attrs.

End EventModel.

(** ** The Booking model *)

Module BookingModel.

(** [/^[^\s@]+@[^\s@]+\.[^\s@]+$/] *)
Definition EMAIL_REGEX : regex :=
  let part := Plus (neg (either isWhiteSpace (chr "@"))) in
  Cat [ part; lit "@"; part; lit "."; part; AtEnd ].

(** [EMAIL_REGEX.test(v)] *)
Definition emailValidator (v : value) : bool :=
  match v with
  | Str s => test EMAIL_REGEX s
  | _ => false
  end.

Definition bookingSchema : Schema :=
  [ ("eventId", {| Opt.type := KObjectId; Opt.required := Some "eventId is required";
                   Opt.trim := false; Opt.lowercase := false; Opt.validate := None |});
    ("email", {| Opt.type := KString; Opt.required := Some "Email is required";
                 Opt.trim := true; Opt.lowercase := true;
                 Opt.validate := Some (emailValidator, "Invalid email format") |}) ].

Definition eventId (this : Document) : option N :=
  match fields this !! "eventId" with
  | Some (Oid i) => Some i
  | _ => None
  end.

(** The pre-save hook of the schema. *)
Definition bookingPreSaveHook (db : Store) (this : Document) : result error Document * Store :=
  let (found, db') := exists_ "Event" (eventId this) db in
  if negb found then (Err (Error "Referenced event does not exist"), db')
  else (Ok this, db').

Definition Booking : Model :=
  {| modelName := "Booking";
     schema := bookingSchema;
     timestamps := true;
     uniquePaths := [];
     preSave := fun rt db this => bookingPreSaveHook db this |}.

(** [Booking.build(attrs)] *)
Definition build (id : N) (attrs : list (string * value)) : Document :=
  construct bookingSchema id attrs.

End BookingModel.

Import EventModel BookingModel.

Definition emptyStore : Store := {| collections := ∅; existsLog := [] |}.

Definition sampleAttrs : list (string * value) :=
  [ ("title", Str "  My Talk! "); ("description", Str "About things");
    ("overview", Str "An overview"); ("image", Str "/images/talk.png");
    ("venue", Str "Main hall"); ("location", Str "Lagos");
    ("date", Str "2026-06-10"); ("time", Str "9:00 AM");
    ("mode", Str "offline"); ("audience", Str "Developers");
    ("agenda", Arr ["Opening"; "Talk"]); ("organizer", Str "The team");
    ("tags", Arr ["web"]) ].

(** ** Documents the models make, and sample data *)

(** Every value of the document has the type of its path and is one the
    setters of the path return: what assignment and construction ensure. *)
Definition wellFormed (sch : Schema) (doc : Document) : Prop :=
  forall path st v,
    pathType sch path = Some st -> fields doc !! path = Some v ->
    kindOf v = Opt.type st /\ applySetters st v = v.

(** The string paths and the array paths of an Event that the caller
    gives. *)
Definition stringPaths : list string :=
  ["title"; "description"; "overview"; "image"; "venue"; "location"; "mode";
   "audience"; "organizer"].

Definition arrayPaths : list string := ["agenda"; "tags"].

(** The class of the three parts of an address: [[^\s@]]. *)
Definition addressChar : ascii -> bool := neg (either isWhiteSpace (chr "@")).

(** [local@domain.rest], each part non-empty and free of white space and
    of [@]. *)
Definition emailShape (s : string) : Prop :=
  exists l d e : string,
    s = l ++ "@" ++ d ++ "." ++ e
    /\ l <> EmptyString /\ d <> EmptyString /\ e <> EmptyString
    /\ all addressChar l = true /\ all addressChar d = true /\ all addressChar e = true.

(** No Event of the store has the identifier the Booking refers to. *)
Definition noSuchEvent (db : Store) (doc : Document) : Prop :=
  forall eid, eventId doc = Some eid -> collection "Event" db !! eid = None.

(** A store with one Event, and a Booking for it. *)
Definition storeWithEvent : Store :=
  {| collections := {[ "Event" := {[ 5%N := ∅ ]} ]}; existsLog := [] |}.

Definition sampleBooking : Document :=
  BookingModel.build 1 [("eventId", Oid 5); ("email", Str "  Ada@Example.COM ")].

(** That Booking once saved, the store after the save, and the store after
    the Event has then been removed. *)
Definition savedBooking : Document :=
  match fst (save Booking utcRuntime storeWithEvent sampleBooking) with
  | Ok doc => doc
  | Err _ => sampleBooking
  end.

Definition storeAfterSave : Store :=
  snd (save Booking utcRuntime storeWithEvent sampleBooking).

Definition storeWithoutEvent : Store :=
  {| collections := delete "Event" (collections storeAfterSave);
     existsLog := existsLog storeAfterSave |}.

(** The store after another copy of that Booking, the one of another
    request, has been given another email and saved. *)
Definition storeAfterChange : Store :=
  snd (save Booking utcRuntime storeAfterSave
         (assign bookingSchema "email" (Str "grace@example.com") savedBooking)).

(** What a pattern accepts: [matches r u v caps caps'] when [r] can consume
    [u] in front of the rest [v], taking the captures from [caps] to
    [caps']. Every answer of [run] is such a match. *)
Inductive matches : regex -> string -> string -> captures -> captures -> Prop :=
| matches_Empty v caps : matches Empty "" v caps caps
| matches_Class p c v caps :
    p c = true -> matches (Class p) (String c "") v caps caps
| matches_Seq r1 r2 u1 u2 v caps caps1 caps2 :
    matches r1 u1 (u2 ++ v) caps caps1 -> matches r2 u2 v caps1 caps2 ->
    matches (Seq r1 r2) (u1 ++ u2) v caps caps2
| matches_Alt_l r1 r2 u v caps caps1 :
    matches r1 u v caps caps1 -> matches (Alt r1 r2) u v caps caps1
| matches_Alt_r r1 r2 u v caps caps1 :
    matches r2 u v caps caps1 -> matches (Alt r1 r2) u v caps caps1
| matches_Opt_some r u v caps caps1 :
    matches r u v caps caps1 -> matches (Opt r) u v caps caps1
| matches_Opt_none r v caps : matches (Opt r) "" v caps caps
| matches_Star p u v caps :
    JSString.all p u = true -> matches (Star p) u v caps caps
| matches_Plus p c u v caps :
    p c = true -> JSString.all p u = true -> matches (Plus p) (String c u) v caps caps
| matches_Group i r u v caps caps1 :
    matches r u v caps caps1 -> matches (Group i r) u v caps (<[i := Some u]> caps1)
| matches_AtEnd caps : matches AtEnd "" "" caps caps.

(** No two Events of the store have the same slug: what the unique index
    on [slug] is there for. *)
Definition uniqueSlugs (db : Store) : Prop :=
  forall i j ri rj v,
    collection "Event" db !! i = Some ri -> collection "Event" db !! j = Some rj ->
    ri !! "slug" = Some v -> rj !! "slug" = Some v -> i = j.

(** Every Booking of the store refers to an Event of the store. *)
Definition bookingsRefer (db : Store) : Prop :=
  forall id r,
    collection "Booking" db !! id = Some r ->
    exists eid, r !! "eventId" = Some (Oid eid)
                /\ is_Some (collection "Event" db !! eid).

(** An Event with every path given, the slug included, once saved, and the
    store after that save. *)
Definition sampleEvent : Document :=
  EventModel.build 1 (("slug", Str "draft") :: sampleAttrs).

Definition savedEvent : Document :=
  match fst (save Event utcRuntime emptyStore sampleEvent) with
  | Ok doc => doc
  | Err _ => sampleEvent
  end.

Definition storeAfterEvent : Store :=
  snd (save Event utcRuntime emptyStore sampleEvent).

(** An Event whose title has no letter and no digit. *)
Definition untitledEvent : Document :=
  EventModel.build 2 (("slug", Str "draft") :: sampleAttrs ++ [("title", Str "?!")])%list.

(** A second Event with the title of the first in another case. *)
Definition secondEvent : Document :=
  EventModel.build 2 (("slug", Str "draft") :: sampleAttrs ++ [("title", Str "MY talk")])%list.

(** The number of occurrences of a code unit in a string. *)
Fixpoint occurrences (a : ascii) (s : string) : nat :=
  match s with
  | EmptyString => 0
  | String c s' => (if Ascii.eqb c a then 1 else 0) + occurrences a s'
  end.

(** ** The connection helper

    [connectToDatabase] is an [async] function over the global
    [mongooseCache]. Its body runs without interruption up to its one
    [await]; a call is modelled by that first part, which answers with the
    cached connection or with the promise the caller goes on to await, and
    by [resume], what the caller gets once the promise is settled. The
    promise [mongoose.connect(uri).then(...)] settles in one step, [settle],
    in which the callback of [then] runs when the connection succeeds. The
    heap holds the promises that the helper has made, in the order of their
    creation: its length is the number of calls of [mongoose.connect]. *)

Module Database.

Inductive promiseState : Type :=
| Pending
| Fulfilled (connection : N)
| Rejected (reason : string).

(** The container [{ conn, promise }]; [None] is [null]. *)
Record MongooseCache : Type := {
  conn : option N;
  promise : option nat
}.

Record Global : Type := {
  mongooseCache : option MongooseCache;
  promises : list promiseState
}.

(** The first part of a call: [return { conn, mongoose }] at once, or the
    promise that the call awaits. *)
Inductive answer : Type :=
| Return (connection : N)
| Await (p : nat).

Definition connectToDatabase (g : Global) : answer * Global :=
  match mongooseCache g ≫= conn with
  | Some c => (Return c, g)
  | None =>
      let cache := default {| conn := None; promise := None |} (mongooseCache g) in
      match promise cache with
      | Some p => (Await p, {| mongooseCache := Some cache; promises := promises g |})
      | None =>
          let p := length (promises g) in
          (Await p,
           {| mongooseCache := Some {| conn := conn cache; promise := Some p |};
              promises := promises g ++ [Pending] |})
      end
  end.

(** The promise [p] settles. When the connection succeeds the callback
    stores it in the cache, which it takes to exist; without a cache the
    assignment throws and the promise is rejected with that error. A
    promise settles once. *)
Definition settle (p : nat) (outcome : promiseState) (g : Global) : Global :=
  match promises g !! p, outcome with
  | Some Pending, Fulfilled c =>
      match mongooseCache g with
      | Some cache =>
          {| mongooseCache := Some {| conn := Some c; promise := promise cache |};
             promises := <[p := Fulfilled c]> (promises g) |}
      | None =>
          {| mongooseCache := None;
             promises := <[p := Rejected "TypeError"]> (promises g) |}
      end
  | Some Pending, Rejected r =>
      {| mongooseCache := mongooseCache g;
         promises := <[p := Rejected r]> (promises g) |}
  | _, _ => g
  end.

(** What a call gets in the end: [{ conn: mongooseInstance.connection }],
    or the rejection of the promise it awaits; [None] while that promise
    is pending. *)
Definition resume (a : answer) (g : Global) : option (result string N) :=
  match a with
  | Return c => Some (Ok c)
  | Await p =>
      match promises g !! p with
      | Some (Fulfilled c) => Some (Ok c)
      | Some (Rejected r) => Some (Err r)
      | _ => None
      end
  end.

(** What happens to the global over time: calls of the helper and
    settlements of promises, in any order. *)
Inductive action : Type :=
| Call
| Settle (p : nat) (outcome : promiseState).

Definition step (g : Global) (a : action) : Global :=
  match a with
  | Call => snd (connectToDatabase g)
  | Settle p outcome => settle p outcome g
  end.

Definition steps (tr : list action) (g : Global) : Global := fold_left step tr g.

(** The global when the module is first loaded. *)
Definition initial : Global := {| mongooseCache := None; promises := [] |}.

(** The global after the first call: one promise, in the state [st], which
    the cache holds; the connection is cached once the promise is
    fulfilled. *)
Definition connecting (st : promiseState) : Global :=
  {| mongooseCache :=
       Some {| conn := match st with Fulfilled c => Some c | _ => None end;
               promise := Some 0%nat |};
     promises := [st] |}.

End Database.

(** * Properties *)

(** ** Characters and strings *)

Lemma below_spec (n : nat) (p : Z -> bool) :
  below n p = true -> forall z : Z, (0 <= z < Z.of_nat n)%Z -> p z = true.
Proof.
  unfold below. rewrite forallb_forall. intros H z Hz.
  rewrite <- (Z2Nat.id z) by lia. apply H, in_seq. lia.
Qed.

Ltac each_char c :=
  destruct c as [[] [] [] [] [] [] [] []]; vm_compute; try reflexivity;
  try discriminate; auto.

Lemma isHyphen_eq (c : ascii) : isHyphen c = true -> c = "-"%char.
Proof. each_char c. Qed.

Lemma slugKeep_not_space (c : ascii) :
  slugKeep c = true -> isWhiteSpace c = false -> slugChar c = true.
Proof. each_char c. Qed.

Lemma slugChar_keep (c : ascii) : slugChar c = true -> slugKeep c = true.
Proof. each_char c. Qed.

Lemma slugChar_not_space (c : ascii) : slugChar c = true -> isWhiteSpace c = false.
Proof. each_char c. Qed.

Lemma slugChar_lower (c : ascii) : slugChar c = true -> toLowerChar c = c.
Proof. each_char c. Qed.

Lemma toLowerChar_space (c : ascii) : isWhiteSpace (toLowerChar c) = isWhiteSpace c.
Proof. each_char c. Qed.

Lemma all_impl (p q : ascii -> bool) (s : string) :
  (forall c, p c = true -> q c = true) -> all p s = true -> all q s = true.
Proof.
  intros Hpq. induction s as [|c s IH]; simpl; [reflexivity|].
  rewrite !andb_true_iff. intros [Hc Hs]. split; [apply Hpq, Hc | apply IH, Hs].
Qed.

Lemma all_app (p : ascii -> bool) (s t : string) :
  all p (s ++ t) = all p s && all p t.
Proof.
  induction s as [|c s IH]; simpl; [reflexivity|].
  now rewrite IH, andb_assoc.
Qed.

(** *** What each replacement leaves *)

Lemma replaceEach_remove_all (p : ascii -> bool) (s : string) :
  all p (replaceEach (fun c => negb (p c)) "" s) = true.
Proof.
  induction s as [|c s IH]; simpl; [reflexivity|].
  destruct (p c) eqn:Hc; simpl; [now rewrite Hc | exact IH].
Qed.

Lemma replaceRunsFrom_space_all (b : bool) (s : string) :
  all slugKeep s = true ->
  all slugChar (replaceRunsFrom isWhiteSpace "-" b s) = true.
Proof.
  revert b. induction s as [|c s IH]; intros b; simpl; [reflexivity|].
  rewrite andb_true_iff. intros [Hc Hs].
  destruct (isWhiteSpace c) eqn:Hw.
  - destruct b; simpl; now apply IH.
  - simpl. rewrite (slugKeep_not_space c Hc Hw). now apply IH.
Qed.

Lemma replaceRunsFrom_hyphen_all (b : bool) (s : string) :
  all slugChar s = true ->
  all slugChar (replaceRunsFrom isHyphen "-" b s) = true.
Proof.
  revert b. induction s as [|c s IH]; intros b; simpl; [reflexivity|].
  rewrite andb_true_iff. intros [Hc Hs].
  destruct (isHyphen c) eqn:Hh.
  - destruct b; simpl; now apply IH.
  - simpl. rewrite Hc. now apply IH.
Qed.

Lemma noHyphenRun_cons (c : ascii) (s : string) :
  noHyphenRun (String c s) = negb (isHyphen c && startsWith isHyphen s) && noHyphenRun s.
Proof.
  destruct s as [|d s]; simpl; [|reflexivity].
  now rewrite andb_false_r.
Qed.

(** Inside a match the output resumes with a code unit outside the class. *)
Lemma replaceRunsFrom_resume (p : ascii -> bool) (rep : string) (s : string) :
  startsWith p (replaceRunsFrom p rep true s) = false.
Proof.
  induction s as [|c s IH]; simpl; [reflexivity|].
  destruct (p c) eqn:Hc; simpl; [exact IH | exact Hc].
Qed.

Lemma replaceRunsFrom_hyphen_norun (b : bool) (s : string) :
  noHyphenRun (replaceRunsFrom isHyphen "-" b s) = true.
Proof.
  revert b. induction s as [|c s IH]; intros b; [reflexivity|].
  cbn [replaceRunsFrom]. destruct (isHyphen c) eqn:Hc.
  - destruct b; [apply IH|].
    change ("-" ++ ?x) with (String "-"%char x).
    rewrite noHyphenRun_cons, replaceRunsFrom_resume, IH. reflexivity.
  - rewrite noHyphenRun_cons, Hc, IH. reflexivity.
Qed.

(** *** Strings a replacement leaves alone *)

Lemma map_id_on (f : ascii -> ascii) (p : ascii -> bool) (s : string) :
  (forall c, p c = true -> f c = c) -> all p s = true -> JSString.map f s = s.
Proof.
  intros Hf. induction s as [|c s IH]; simpl; [reflexivity|].
  rewrite andb_true_iff. intros [Hc Hs]. now rewrite (Hf c Hc), IH.
Qed.

Lemma trimEnd_id (s : string) :
  all (fun c => negb (isWhiteSpace c)) s = true -> trimEnd s = s.
Proof.
  induction s as [|c s IH]; simpl; [reflexivity|].
  rewrite andb_true_iff, negb_true_iff. intros [Hc Hs].
  rewrite (IH Hs), Hc. now destruct s.
Qed.

Lemma trim_id (s : string) :
  all (fun c => negb (isWhiteSpace c)) s = true -> trim s = s.
Proof.
  intros H. unfold trim.
  assert (trimStart s = s) as ->.
  { destruct s as [|c s]; simpl in *; [reflexivity|].
    apply andb_true_iff in H as [Hc _]. apply negb_true_iff in Hc. now rewrite Hc. }
  now apply trimEnd_id.
Qed.

Lemma replaceEach_id (p : ascii -> bool) (rep : string) (s : string) :
  all (fun c => negb (p c)) s = true -> replaceEach p rep s = s.
Proof.
  induction s as [|c s IH]; simpl; [reflexivity|].
  rewrite andb_true_iff, negb_true_iff. intros [Hc Hs]. now rewrite Hc, IH.
Qed.

Lemma replaceRunsFrom_id (p : ascii -> bool) (rep : string) (b : bool) (s : string) :
  all (fun c => negb (p c)) s = true -> replaceRunsFrom p rep b s = s.
Proof.
  revert b. induction s as [|c s IH]; intros b; simpl; [reflexivity|].
  rewrite andb_true_iff, negb_true_iff. intros [Hc Hs]. now rewrite Hc, IH.
Qed.

Lemma replaceRunsFrom_hyphen_id (b : bool) (s : string) :
  noHyphenRun s = true ->
  (b = true -> startsWith isHyphen s = false) ->
  replaceRunsFrom isHyphen "-" b s = s.
Proof.
  revert b. induction s as [|c s IH]; intros b Hrun Hb; [reflexivity|].
  rewrite noHyphenRun_cons in Hrun. apply andb_true_iff in Hrun as [Hc Hs].
  cbn [replaceRunsFrom]. destruct (isHyphen c) eqn:Hh.
  - destruct b; [specialize (Hb eq_refl); simpl in Hb; congruence|].
    simpl in Hc. apply negb_true_iff in Hc.
    rewrite (IH true Hs (fun _ => Hc)), (isHyphen_eq c Hh). reflexivity.
  - rewrite (IH false Hs); [reflexivity | discriminate].
Qed.

(** ** [slugify] *)

Lemma slugify_alphabet (input : string) : all slugChar (slugify input) = true.
Proof.
  unfold slugify, replaceRuns.
  apply replaceRunsFrom_hyphen_all, replaceRunsFrom_space_all.
  apply (replaceEach_remove_all slugKeep).
Qed.

Lemma slugify_norun (input : string) : noHyphenRun (slugify input) = true.
Proof. apply replaceRunsFrom_hyphen_norun. Qed.

Lemma slugify_fixes_slugs (t : string) :
  all slugChar t = true -> noHyphenRun t = true -> slugify t = t.
Proof.
  intros Hall Hrun. unfold slugify, replaceRuns, toLowerCase.
  assert (all (fun c => negb (isWhiteSpace c)) t = true) as Hns.
  { apply (all_impl slugChar); [|exact Hall].
    intros c Hc. now rewrite (slugChar_not_space c Hc). }
  rewrite (map_id_on toLowerChar slugChar t slugChar_lower Hall).
  rewrite (trim_id t Hns).
  rewrite replaceEach_id.
  2:{ apply (all_impl slugChar); [|exact Hall].
      intros c Hc. now rewrite (slugChar_keep c Hc). }
  rewrite (replaceRunsFrom_id isWhiteSpace "-" false t Hns).
  apply replaceRunsFrom_hyphen_id; [exact Hrun | discriminate].
Qed.

(** *** White space around the input *)

Lemma map_app (f : ascii -> ascii) (s t : string) :
  JSString.map f (s ++ t) = JSString.map f s ++ JSString.map f t.
Proof. induction s as [|c s IH]; simpl; [reflexivity | now rewrite IH]. Qed.

Lemma all_map_space (f : ascii -> ascii) (s : string) :
  (forall c, isWhiteSpace (f c) = isWhiteSpace c) ->
  all isWhiteSpace (JSString.map f s) = all isWhiteSpace s.
Proof. intros Hf. induction s as [|c s IH]; simpl; [reflexivity | now rewrite Hf, IH]. Qed.

Lemma trimStart_blank (a s : string) :
  all isWhiteSpace a = true -> trimStart (a ++ s) = trimStart s.
Proof.
  induction a as [|c a IH]; simpl; [reflexivity|].
  rewrite andb_true_iff. intros [-> Ha]. now apply IH.
Qed.

Lemma trimEnd_blank (s b : string) :
  all isWhiteSpace b = true -> trimEnd (s ++ b) = trimEnd s.
Proof.
  intros Hb. induction s as [|c s IH].
  - change ("" ++ b) with b. induction b as [|c b IH]; [reflexivity|].
    simpl in Hb. apply andb_true_iff in Hb as [Hc Hb].
    cbn [trimEnd]. now rewrite (IH Hb), Hc.
  - change (String c s ++ b) with (String c (s ++ b)). cbn [trimEnd]. now rewrite IH.
Qed.

Lemma trim_blank (a s b : string) :
  all isWhiteSpace a = true -> all isWhiteSpace b = true ->
  trim (a ++ s ++ b) = trim s.
Proof.
  intros Ha Hb. unfold trim. rewrite (trimStart_blank a _ Ha).
  induction s as [|c s IH].
  - change ("" ++ b) with b. clear Ha. induction b as [|c b IH]; [reflexivity|].
    simpl in Hb. apply andb_true_iff in Hb as [Hc Hb].
    cbn [trimStart]. rewrite Hc. now apply IH.
  - change (String c s ++ b) with (String c (s ++ b)). cbn [trimStart].
    destruct (isWhiteSpace c); [exact IH|].
    change (String c (s ++ b)) with (String c s ++ b). now apply trimEnd_blank.
Qed.

Lemma slugify_blank (a input b : string) :
  all isWhiteSpace a = true -> all isWhiteSpace b = true ->
  slugify (a ++ input ++ b) = slugify input.
Proof.
  intros Ha Hb. unfold slugify, toLowerCase. rewrite !map_app.
  rewrite trim_blank; [reflexivity| |];
    now rewrite (all_map_space toLowerChar _ toLowerChar_space).
Qed.

(** C6. For every input, [slugify] returns a string over [[a-z0-9-]] in which
    no two hyphens are adjacent; it is the lower-casing, trimming, stripping
    and the two collapsing replacements applied in that order, it is total,
    and ["Hello   World!!"] becomes ["hello-world"]. Each step shows in the
    result: the white space around the input does not count, nor does the
    case of its letters; a code unit outside [[a-z0-9\s-]] is dropped where
    it stands, and white space inside the input becomes one hyphen, which
    merges with the hyphens next to it. *)
Theorem slugify_output (input : string) :
  slugify input =
    replaceRuns isHyphen "-"
      (replaceRuns isWhiteSpace "-"
         (replaceEach (fun c => negb (slugKeep c)) ""
            (trim (toLowerCase input))))
  /\ all slugChar (slugify input) = true
  /\ noHyphenRun (slugify input) = true
  /\ slugify "Hello   World!!" = "hello-world"
  /\ slugify "!!!" = ""
  /\ (forall a b : string,
        all isWhiteSpace a = true -> all isWhiteSpace b = true ->
        slugify (a ++ input ++ b) = slugify input)
  /\ slugify (toLowerCase input) = slugify input
  /\ slugify "  a b  " = "a-b"
  /\ slugify "a!b" = "ab"
  /\ slugify "a - b" = "a-b"
  /\ slugify " ! " = "".
Proof.
  split; [reflexivity|].
  split; [apply slugify_alphabet|].
  split; [apply slugify_norun|].
  split; [reflexivity|]. split; [reflexivity|].
  split; [intros a b; apply slugify_blank|].
  split; [|repeat split; reflexivity].
  unfold slugify, toLowerCase. f_equal. f_equal. f_equal. f_equal.
  induction input as [|c s IH]; simpl; [reflexivity|].
  rewrite IH. f_equal. each_char c.
Qed.

Lemma slugify_output_witness :
  slugify ("  " ++ "A  b" ++ " ") = slugify "A  b".
Proof.
  destruct (slugify_output "A  b") as (_ & _ & _ & _ & _ & H & _).
  apply (H "  " " "); reflexivity.
Defined.

(** C10. [slugify] is idempotent: applied to one of its own results it
    returns that result. *)
Theorem slugify_idempotent (s : string) : slugify (slugify s) = slugify s.
Proof. apply slugify_fixes_slugs; [apply slugify_alphabet | apply slugify_norun]. Qed.


(** ** Calendar arithmetic *)

Section Calendar.
Open Scope Z_scope.

Lemma InLeapYear_period (q r : Z) : InLeapYear (400 * q + r) = InLeapYear r.
Proof.
  unfold InLeapYear.
  assert ((400 * q + r) mod 4 = r mod 4) as -> by (Z.div_mod_to_equations; lia).
  assert ((400 * q + r) mod 100 = r mod 100) as -> by (Z.div_mod_to_equations; lia).
  assert ((400 * q + r) mod 400 = r mod 400) as -> by (Z.div_mod_to_equations; lia).
  reflexivity.
Qed.

Lemma DayFromYear_period (q r : Z) : DayFromYear (400 * q + r) = 146097 * q + DayFromYear r.
Proof. unfold DayFromYear. Z.div_mod_to_equations; lia. Qed.

(** A year has as many days as separate its first day from the next one. *)
Lemma DayFromYear_succ (y : Z) : DayFromYear (y + 1) = DayFromYear y + DaysInYear y.
Proof.
  rewrite (Z.div_mod y 400) by lia.
  generalize (Z.mod_pos_bound y 400 ltac:(lia)).
  generalize (y mod 400) (y / 400). clear y. intros r q Hr.
  unfold DaysInYear. rewrite <- Z.add_assoc, !DayFromYear_period, InLeapYear_period.
  enough ((DayFromYear (r + 1) =? DayFromYear r + (if InLeapYear r then 366 else 365)) = true)
    as H by (apply Z.eqb_eq in H; lia).
  revert r Hr. apply (below_spec 400). vm_compute. reflexivity.
Qed.

Lemma YearFromDay_spec (d : Z) :
  DayFromYear (YearFromDay d) <= d < DayFromYear (YearFromDay d + 1).
Proof.
  unfold YearFromDay.
  set (y := 1970 + 400 * d / 146097).
  assert (146097 * (y - 1970) <= 400 * d < 146097 * (y - 1970) + 146097) as Hy.
  { unfold y. Z.div_mod_to_equations; lia. }
  clearbody y.
  destruct (d <? DayFromYear y) eqn:H1; [|destruct (DayFromYear (y + 1) <=? d) eqn:H2];
    rewrite ?Z.ltb_lt, ?Z.ltb_ge, ?Z.leb_le, ?Z.leb_gt in *.
  - replace (y - 1 + 1) with y by lia. split; [|lia].
    unfold DayFromYear in *. Z.div_mod_to_equations; lia.
  - split; [lia|]. unfold DayFromYear in *. Z.div_mod_to_equations; lia.
  - lia.
Qed.

Lemma DayWithinYear_range (t : Z) :
  0 <= DayWithinYear t < DaysInYear (YearFromTime t).
Proof.
  unfold DayWithinYear, YearFromTime.
  pose proof (YearFromDay_spec (Day t)) as H.
  rewrite DayFromYear_succ in H.
  set (a := DayFromYear _) in *. set (b := DaysInYear _) in *. set (c := Day t) in *.
  clearbody a b c. lia.
Qed.

Lemma MonthFromTime_range (t : Z) : 0 <= MonthFromTime t <= 11.
Proof.
  unfold MonthFromTime. cbv zeta.
  repeat match goal with
         | |- context [if ?a <? ?b then _ else _] => destruct (a <? b)
         end; lia.
Qed.

Lemma DateFromTime_range (t : Z) :
  1 <= DateFromTime t <= DaysInMonth (YearFromTime t) (MonthFromTime t + 1).
Proof.
  pose proof (DayWithinYear_range t) as Hd.
  unfold DateFromTime, DaysInMonth, MonthFromTime, DaysInYear in *.
  set (d := DayWithinYear t) in *. clearbody d.
  destruct (InLeapYear (YearFromTime t)); cbn [monthStart Z.add Pos.add Pos.succ] in *;
  repeat match goal with
         | |- context [if ?a <? ?b then _ else _] =>
             destruct (Z.ltb_spec a b)
         end;
  repeat match goal with
         | |- context [monthStart ?l ?m] =>
             let v := eval vm_compute in (monthStart l m) in
             change (monthStart l m) with v
         end; lia.
Qed.

Lemma DaysInMonth_max (y m : Z) : 1 <= m <= 12 -> DaysInMonth y m <= 31.
Proof.
  intros Hm. unfold DaysInMonth.
  assert (m = 1 \/ m = 2 \/ m = 3 \/ m = 4 \/ m = 5 \/ m = 6 \/ m = 7
          \/ m = 8 \/ m = 9 \/ m = 10 \/ m = 11 \/ m = 12) as Hc by lia.
  destruct (InLeapYear y);
    repeat (destruct Hc as [-> | Hc]; [vm_compute; discriminate|]);
    subst m; vm_compute; discriminate.
Qed.

Lemma MakeDay_fields (t : Z) :
  MakeDay (YearFromTime t) (MonthFromTime t) (DateFromTime t) = Day t.
Proof.
  pose proof (MonthFromTime_range t) as Hm.
  unfold MakeDay.
  rewrite (Z.div_small (MonthFromTime t) 12), (Z.mod_small (MonthFromTime t) 12) by lia.
  rewrite Z.add_0_r. unfold DateFromTime, DayWithinYear. lia.
Qed.

Lemma time_fields_range (t : Z) :
  0 <= HourFromTime t < 24 /\ 0 <= MinFromTime t < 60
  /\ 0 <= SecFromTime t < 60 /\ 0 <= msFromTime t < 1000.
Proof.
  unfold HourFromTime, MinFromTime, SecFromTime, msFromTime, msPerSecond.
  repeat split; apply Z.mod_pos_bound; lia.
Qed.

Lemma MakeTime_fields (t : Z) :
  MakeTime (HourFromTime t) (MinFromTime t) (SecFromTime t) (msFromTime t) = TimeWithinDay t.
Proof.
  unfold MakeTime, HourFromTime, MinFromTime, SecFromTime, msFromTime, TimeWithinDay,
    msPerDay, msPerHour, msPerMinute, msPerSecond.
  Z.div_mod_to_equations; lia.
Qed.

Lemma MakeDate_fields (t : Z) : MakeDate (Day t) (TimeWithinDay t) = t.
Proof.
  unfold MakeDate, Day, TimeWithinDay, msPerDay. Z.div_mod_to_equations; lia.
Qed.

(** The years of the time values a date can hold. *)
Lemma YearFromTime_range (t : Z) :
  Z.abs t <= 8640000000000000 -> -271821 <= YearFromTime t <= 275760.
Proof.
  intros Ht. unfold YearFromTime.
  pose proof (YearFromDay_spec (Day t)) as H.
  assert (-100000000 <= Day t <= 100000000) as Hd.
  { unfold Day, msPerDay. Z.div_mod_to_equations; lia. }
  set (y := YearFromDay (Day t)) in *. clearbody y.
  unfold DayFromYear in H. Z.div_mod_to_equations; lia.
Qed.

End Calendar.

(** ** Decimal digits *)

Section Digits.
Open Scope Z_scope.

Lemma digitChar_spec (d : Z) :
  0 <= d < 10 -> isDigit (digitChar d) = true /\ digitVal (digitChar d) = d.
Proof.
  intros Hd.
  enough ((isDigit (digitChar d) && (digitVal (digitChar d) =? d)) = true) as H.
  { apply andb_true_iff in H as [H1 H2]. apply Z.eqb_eq in H2. now split. }
  revert d Hd. apply (below_spec 10). vm_compute. reflexivity.
Qed.

Lemma parseDigitsFrom_digitsOf (fuel : nat) (n : Z) (acc : string) :
  0 <= n < 10 ^ Z.of_nat fuel ->
  parseDigitsFrom 0 (digitsOf fuel n acc) = parseDigitsFrom n acc.
Proof.
  revert n acc. induction fuel as [|fuel IH]; intros n acc Hn.
  - simpl in *. now replace n with 0 by lia.
  - rewrite Nat2Z.inj_succ, Z.pow_succ_r in Hn by lia.
    cbn [digitsOf].
    destruct (Z.eqb_spec (n / 10) 0) as [H0|H0].
    + cbn [parseDigitsFrom].
      rewrite (proj2 (digitChar_spec (n mod 10) ltac:(apply Z.mod_pos_bound; lia))).
      f_equal. Z.div_mod_to_equations; lia.
    + rewrite IH by (Z.div_mod_to_equations; lia).
      cbn [parseDigitsFrom].
      rewrite (proj2 (digitChar_spec (n mod 10) ltac:(apply Z.mod_pos_bound; lia))).
      f_equal. Z.div_mod_to_equations; lia.
Qed.

Lemma all_digitsOf (fuel : nat) (n : Z) (acc : string) :
  0 <= n -> all isDigit acc = true -> all isDigit (digitsOf fuel n acc) = true.
Proof.
  revert n acc. induction fuel as [|fuel IH]; intros n acc Hn Hacc; [exact Hacc|].
  cbn [digitsOf].
  assert (all isDigit (String (digitChar (n mod 10)) acc) = true) as H.
  { cbn [all]. rewrite Hacc.
    now rewrite (proj1 (digitChar_spec (n mod 10) ltac:(apply Z.mod_pos_bound; lia))). }
  destruct (n / 10 =? 0); [exact H|].
  apply IH; [Z.div_mod_to_equations; lia | exact H].
Qed.

Lemma length_digitsOf (fuel k : nat) (n : Z) (acc : string) :
  (1 <= k <= fuel)%nat -> 0 <= n < 10 ^ Z.of_nat k ->
  (String.length acc < String.length (digitsOf fuel n acc) <= k + String.length acc)%nat.
Proof.
  revert k n acc. induction fuel as [|fuel IH]; intros k n acc Hk Hn; [lia|].
  cbn [digitsOf].
  destruct (Z.eqb_spec (n / 10) 0) as [H0|H0]; [simpl; lia|].
  destruct k as [|[|k]]; [lia| |].
  - change (10 ^ Z.of_nat 1) with 10 in Hn. exfalso. apply H0.
    Z.div_mod_to_equations; lia.
  - specialize (IH (S k) (n / 10) (String (digitChar (n mod 10)) acc)).
    rewrite Nat2Z.inj_succ, Z.pow_succ_r in Hn by lia.
    cbn [String.length] in IH.
    assert (0 <= n / 10 < 10 ^ Z.of_nat (S k)) as Hq by (Z.div_mod_to_equations; lia).
    specialize (IH ltac:(lia) Hq). lia.
Qed.

Lemma length_repeat (c : ascii) (n : nat) : String.length (JSString.repeat c n) = n.
Proof.
  induction n as [|n IH]; [reflexivity|].
  cbn [JSString.repeat String.length]. now rewrite IH.
Qed.

Lemma length_append (s t : string) :
  String.length (s ++ t) = (String.length s + String.length t)%nat.
Proof.
  induction s as [|c s IH]; [reflexivity|].
  simpl. now rewrite IH.
Qed.

Lemma parseDigitsFrom_zeros (n : nat) (s : string) :
  parseDigitsFrom 0 (JSString.repeat "0" n ++ s) = parseDigitsFrom 0 s.
Proof. induction n; simpl; [reflexivity | exact IHn]. Qed.

Lemma all_repeat (p : ascii -> bool) (c : ascii) (n : nat) :
  p c = true -> all p (JSString.repeat c n) = true.
Proof. intros Hc. induction n; simpl; [reflexivity | now rewrite Hc]. Qed.

(** A number below [10 ^ k] padded to [k] digits: [k] digits that read as
    the number. *)
Lemma pad_spec (k : nat) (n : Z) :
  (1 <= k <= 20)%nat -> 0 <= n < 10 ^ Z.of_nat k ->
  String.length (pad k n) = k
  /\ all isDigit (pad k n) = true
  /\ parseDigits (pad k n) = n.
Proof.
  intros Hk Hn. unfold pad, padStart, ofNat, parseDigits.
  pose proof (length_digitsOf 20 k n "" ltac:(lia) Hn) as Hlen.
  cbn [String.length] in Hlen.
  split; [|split].
  - rewrite length_append, length_repeat. lia.
  - rewrite all_app, all_repeat by reflexivity.
    apply all_digitsOf; [lia | reflexivity].
  - rewrite parseDigitsFrom_zeros, parseDigitsFrom_digitsOf; [reflexivity|].
    split; [lia|]. apply Z.lt_le_trans with (10 ^ Z.of_nat k); [lia|].
    apply Z.pow_le_mono_r; lia.
Qed.

End Digits.

(** ** A timestamp reads back as its time value *)

Lemma digit_not_sign (c : ascii) : isDigit c = true -> sign c = false.
Proof. each_char c. Qed.

Ltac digits :=
  repeat match goal with
         | H : all isDigit _ = true |- _ =>
             cbn [all] in H; rewrite ?andb_true_iff in H;
             decompose [and] H; clear H
         end.

Lemma exec_timestamp4 (Y Mo D H Mi S Ms : string) :
  String.length Y = 4%nat -> all isDigit Y = true ->
  String.length Mo = 2%nat -> all isDigit Mo = true ->
  String.length D = 2%nat -> all isDigit D = true ->
  String.length H = 2%nat -> all isDigit H = true ->
  String.length Mi = 2%nat -> all isDigit Mi = true ->
  String.length S = 2%nat -> all isDigit S = true ->
  String.length Ms = 3%nat -> all isDigit Ms = true ->
  exec 11 DATE_TIME_FORMAT
    (Y ++ "-" ++ Mo ++ "-" ++ D ++ "T" ++ H ++ ":" ++ Mi ++ ":" ++ S ++ "." ++ Ms ++ "Z")
  = Some [None; Some Y; Some Mo; Some D; Some H; Some Mi; Some S; Some Ms;
          Some "Z"; None; None; None].
Proof.
  intros LY DY LMo DMo LD DD LH DH LMi DMi LS DS LMs DMs.
  destruct Y as [|y1 [|y2 [|y3 [|y4 [|]]]]]; try discriminate LY.
  destruct Mo as [|m1 [|m2 [|]]]; try discriminate LMo.
  destruct D as [|e1 [|e2 [|]]]; try discriminate LD.
  destruct H as [|h1 [|h2 [|]]]; try discriminate LH.
  destruct Mi as [|i1 [|i2 [|]]]; try discriminate LMi.
  destruct S as [|s1 [|s2 [|]]]; try discriminate LS.
  destruct Ms as [|f1 [|f2 [|f3 [|]]]]; try discriminate LMs.
  digits.
  cbv [append].
  unfold exec, DATE_TIME_FORMAT, Cat, d2, d1, lit.
  cbn [foldr run].
  rewrite (digit_not_sign y1) by assumption.
  repeat match goal with H : isDigit ?c = true |- _ => rewrite H; clear H end.
  simpl. reflexivity.
Qed.

Lemma exec_timestamp6 (sg : ascii) (Y Mo D H Mi S Ms : string) :
  sg = "+"%char \/ sg = "-"%char ->
  String.length Y = 6%nat -> all isDigit Y = true ->
  String.length Mo = 2%nat -> all isDigit Mo = true ->
  String.length D = 2%nat -> all isDigit D = true ->
  String.length H = 2%nat -> all isDigit H = true ->
  String.length Mi = 2%nat -> all isDigit Mi = true ->
  String.length S = 2%nat -> all isDigit S = true ->
  String.length Ms = 3%nat -> all isDigit Ms = true ->
  exec 11 DATE_TIME_FORMAT
    (String sg Y ++ "-" ++ Mo ++ "-" ++ D ++ "T" ++ H ++ ":" ++ Mi ++ ":" ++ S ++ "." ++ Ms ++ "Z")
  = Some [None; Some (String sg Y); Some Mo; Some D; Some H; Some Mi; Some S; Some Ms;
          Some "Z"; None; None; None].
Proof.
  intros Hsg LY DY LMo DMo LD DD LH DH LMi DMi LS DS LMs DMs.
  destruct Y as [|y1 [|y2 [|y3 [|y4 [|y5 [|y6 [|]]]]]]]; try discriminate LY.
  destruct Mo as [|m1 [|m2 [|]]]; try discriminate LMo.
  destruct D as [|e1 [|e2 [|]]]; try discriminate LD.
  destruct H as [|h1 [|h2 [|]]]; try discriminate LH.
  destruct Mi as [|i1 [|i2 [|]]]; try discriminate LMi.
  destruct S as [|s1 [|s2 [|]]]; try discriminate LS.
  destruct Ms as [|f1 [|f2 [|f3 [|]]]]; try discriminate LMs.
  digits.
  cbv [append].
  unfold exec, DATE_TIME_FORMAT, Cat, d2, d1, lit.
  destruct Hsg as [-> | ->];
    cbn [foldr run];
    repeat match goal with H : isDigit ?c = true |- _ => rewrite H; clear H end;
    simpl; reflexivity.
Qed.

Lemma signed_digits (s : string) :
  (0 < String.length s)%nat -> all isDigit s = true -> signed s = parseDigits s.
Proof.
  destruct s as [|c s]; [simpl; lia|]. intros _ H.
  cbn [all] in H. apply andb_true_iff in H as [Hc _].
  pose proof (digit_not_sign c Hc) as Hs. unfold sign, either in Hs.
  apply orb_false_iff in Hs as [Hp Hm]. unfold signed. now rewrite Hm, Hp.
Qed.

(** The fields of a timestamp, as the format reads them. *)
Lemma toISOString_exec (t : Z) :
  (Z.abs t <= 8640000000000000)%Z ->
  exec 11 DATE_TIME_FORMAT (toISOString t)
  = Some [None; Some (yearString (YearFromTime t)); Some (pad 2 (MonthFromTime t + 1));
          Some (pad 2 (DateFromTime t)); Some (pad 2 (HourFromTime t));
          Some (pad 2 (MinFromTime t)); Some (pad 2 (SecFromTime t));
          Some (pad 3 (msFromTime t)); Some "Z"; None; None; None].
Proof.
  intros Ht.
  pose proof (YearFromTime_range t Ht) as Hy.
  pose proof (MonthFromTime_range t) as Hmo.
  pose proof (DateFromTime_range t) as Hd.
  pose proof (DaysInMonth_max (YearFromTime t) (MonthFromTime t + 1)) as Hdim.
  pose proof (time_fields_range t) as (Hh & Hmi & Hs & Hms).
  unfold toISOString.
  set (y := YearFromTime t) in *. set (mo := MonthFromTime t) in *.
  set (d := DateFromTime t) in *. set (h := HourFromTime t) in *.
  set (mi := MinFromTime t) in *. set (s := SecFromTime t) in *.
  set (ms := msFromTime t) in *.
  clearbody y mo d h mi s ms.
  destruct (pad_spec 2 (mo + 1) ltac:(lia) ltac:(change (10 ^ Z.of_nat 2)%Z with 100%Z; lia))
    as (LMo & DMo & _).
  destruct (pad_spec 2 d ltac:(lia) ltac:(change (10 ^ Z.of_nat 2)%Z with 100%Z; lia))
    as (LD & DD & _).
  destruct (pad_spec 2 h ltac:(lia) ltac:(change (10 ^ Z.of_nat 2)%Z with 100%Z; lia))
    as (LH & DH & _).
  destruct (pad_spec 2 mi ltac:(lia) ltac:(change (10 ^ Z.of_nat 2)%Z with 100%Z; lia))
    as (LMi & DMi & _).
  destruct (pad_spec 2 s ltac:(lia) ltac:(change (10 ^ Z.of_nat 2)%Z with 100%Z; lia))
    as (LS & DS & _).
  destruct (pad_spec 3 ms ltac:(lia) ltac:(change (10 ^ Z.of_nat 3)%Z with 1000%Z; lia))
    as (LMs & DMs & _).
  unfold yearString.
  destruct ((0 <=? y)%Z && (y <=? 9999)%Z) eqn:Hrange.
  - apply andb_true_iff in Hrange as [H0 H1]. apply Z.leb_le in H0, H1.
    destruct (pad_spec 4 y ltac:(lia) ltac:(change (10 ^ Z.of_nat 4)%Z with 10000%Z; lia))
      as (LY & DY & _).
    now apply exec_timestamp4.
  - destruct (pad_spec 6 (Z.abs y) ltac:(lia)
                ltac:(change (10 ^ Z.of_nat 6)%Z with 1000000%Z; lia))
      as (LY & DY & _).
    apply exec_timestamp6; auto.
    destruct (y <? 0)%Z; auto.
Qed.

Lemma yearString_signed (y : Z) :
  (-999999 <= y <= 999999)%Z ->
  signed (yearString y) = y /\ String.eqb (yearString y) "-000000" = false.
Proof.
  intros Hy. unfold yearString.
  destruct ((0 <=? y)%Z && (y <=? 9999)%Z) eqn:Hrange.
  - apply andb_true_iff in Hrange as [H0 H1]. apply Z.leb_le in H0, H1.
    destruct (pad_spec 4 y ltac:(lia) ltac:(change (10 ^ Z.of_nat 4)%Z with 10000%Z; lia))
      as (LY & DY & PY).
    split.
    + rewrite signed_digits by (rewrite ?LY; auto; lia). exact PY.
    + apply String.eqb_neq. intros E. rewrite E in LY. discriminate LY.
  - assert (y < 0 \/ 9999 < y)%Z as Hcase.
    { apply andb_false_iff in Hrange as [H|H]; apply Z.leb_gt in H; lia. }
    destruct (pad_spec 6 (Z.abs y) ltac:(lia)
                ltac:(change (10 ^ Z.of_nat 6)%Z with 1000000%Z; lia))
      as (LY & DY & PY).
    split.
    + destruct (Z.ltb_spec y 0); cbn [signed chr Ascii.eqb Bool.eqb];
        fold (parseDigits (pad 6 (Z.abs y))); rewrite PY; lia.
    + apply String.eqb_neq. intros E.
      destruct (Z.ltb_spec y 0); [|discriminate E].
      injection E as E. rewrite E in PY.
      change (parseDigits "000000") with 0%Z in PY. lia.
Qed.

(** A timestamp is a string of the standard format, and reads back as the
    time value it was made from, in every runtime. *)
Lemma parse_toISOString (rt : Runtime) (t : Z) :
  (Z.abs t <= 8640000000000000)%Z -> parse rt (toISOString t) = Some t.
Proof.
  intros Ht.
  pose proof (YearFromTime_range t Ht) as Hy.
  pose proof (MonthFromTime_range t) as Hmo.
  pose proof (DateFromTime_range t) as Hd.
  pose proof (DaysInMonth_max (YearFromTime t) (MonthFromTime t + 1)) as Hdim.
  pose proof (time_fields_range t) as (Hh & Hmi & Hs & Hms).
  pose proof (MakeDay_fields t) as Eday.
  pose proof (MakeTime_fields t) as Etime.
  pose proof (MakeDate_fields t) as Edate.
  destruct (yearString_signed (YearFromTime t) ltac:(lia)) as [SY NY].
  unfold parse, parseDateTimeFormat. rewrite (toISOString_exec t Ht).
  set (y := YearFromTime t) in *. set (mo := MonthFromTime t) in *.
  set (d := DateFromTime t) in *. set (h := HourFromTime t) in *.
  set (mi := MinFromTime t) in *. set (s := SecFromTime t) in *.
  set (ms := msFromTime t) in *.
  clearbody y mo d h mi s ms.
  destruct (pad_spec 2 (mo + 1) ltac:(lia) ltac:(change (10 ^ Z.of_nat 2)%Z with 100%Z; lia))
    as (_ & _ & PMo).
  destruct (pad_spec 2 d ltac:(lia) ltac:(change (10 ^ Z.of_nat 2)%Z with 100%Z; lia))
    as (_ & _ & PD).
  destruct (pad_spec 2 h ltac:(lia) ltac:(change (10 ^ Z.of_nat 2)%Z with 100%Z; lia))
    as (_ & _ & PH).
  destruct (pad_spec 2 mi ltac:(lia) ltac:(change (10 ^ Z.of_nat 2)%Z with 100%Z; lia))
    as (_ & _ & PMi).
  destruct (pad_spec 2 s ltac:(lia) ltac:(change (10 ^ Z.of_nat 2)%Z with 100%Z; lia))
    as (_ & _ & PS).
  destruct (pad_spec 3 ms ltac:(lia) ltac:(change (10 ^ Z.of_nat 3)%Z with 1000%Z; lia))
    as (_ & _ & PMs).
  cbn [group' group field lookup list_lookup].
  rewrite SY, NY, PMo, PD, PH, PMi, PS, PMs.
  match goal with
  | |- context [if ?b then _ else _] => assert (b = true) as ->
  end.
  { rewrite !andb_true_iff, orb_true_iff, !Z.leb_le, Z.ltb_lt.
    repeat split; try reflexivity; lia. }
  replace (mo + 1 - 1)%Z with mo by lia.
  rewrite Eday, Etime, Edate. reflexivity.
Qed.

Lemma toISOString_full (t : Z) :
  (Z.abs t <= 8640000000000000)%Z -> isFullTimestamp (toISOString t) = true.
Proof.
  intros Ht. unfold isFullTimestamp. rewrite (toISOString_exec t Ht). reflexivity.
Qed.

Lemma TimeClip_range (t t' : Z) :
  TimeClip t = Some t' -> t' = t /\ (Z.abs t <= 8640000000000000)%Z.
Proof.
  unfold TimeClip. destruct (Z.leb_spec (Z.abs t) 8640000000000000); [|discriminate].
  intros [= <-]. now split.
Qed.

Lemma newDate_range (rt : Runtime) (s : string) (t : Z) :
  newDate rt s = Some t -> (Z.abs t <= 8640000000000000)%Z.
Proof.
  unfold newDate. destruct (parse rt s) as [t0|]; [|discriminate].
  intros H. apply TimeClip_range in H as [-> H]. exact H.
Qed.

(** ** [normalizeTime] *)

(** The three shapes, in the order of the source. *)
Lemma normalizeTime_24h (rt : Runtime) (input : string) (m : captures) :
  exec 2 HHMM24 (trim input) = Some m ->
  normalizeTime rt input = Ok (padStart 2 "0" (group' 1 m) ++ ":" ++ group' 2 m).
Proof. intros H. unfold normalizeTime. now rewrite H. Qed.

Lemma normalizeTime_ampm (rt : Runtime) (input : string) (m : captures) :
  exec 2 HHMM24 (trim input) = None ->
  exec 3 AMPM (trim input) = Some m ->
  exists hh : Z,
    normalizeTime rt input = Ok (padStart 2 "0" (ofNat hh) ++ ":" ++ group' 2 m)
    /\ hh = (let h := parseDigits (group' 1 m) in
             let pm := String.eqb (toLowerCase (group' 3 m)) "pm" in
             let am := String.eqb (toLowerCase (group' 3 m)) "am" in
             let h := if pm && negb (h =? 12) then h + 12 else h in
             if am && (h =? 12) then 0 else h)%Z.
Proof.
  intros Ha Hb. unfold normalizeTime. rewrite Ha, Hb.
  eexists. split; reflexivity.
Qed.

Lemma normalizeTime_fallback (rt : Runtime) (input : string) :
  exec 2 HHMM24 (trim input) = None ->
  exec 3 AMPM (trim input) = None ->
  normalizeTime rt input =
    match newDate rt ("1970-01-01T" ++ trim input) with
    | Some parsed => Ok (pad 2 (getHours rt parsed) ++ ":" ++ pad 2 (getMinutes rt parsed))
    | None => Err (Error "Invalid time format")
    end.
Proof. intros Ha Hb. unfold normalizeTime. now rewrite Ha, Hb. Qed.

(** An input of one of the first two shapes never reaches the runtime. *)
Lemma normalizeTime_static (rt rt' : Runtime) (input : string) :
  is_Some (exec 2 HHMM24 (trim input)) \/ is_Some (exec 3 AMPM (trim input)) ->
  normalizeTime rt input = normalizeTime rt' input.
Proof.
  unfold normalizeTime.
  destruct (exec 2 HHMM24 (trim input)); [reflexivity|].
  destruct (exec 3 AMPM (trim input)); [reflexivity|].
  intros [[? H]|[? H]]; discriminate.
Qed.

Lemma staticTime_spec (rt : Runtime) (input expected : string) :
  staticTime input expected = true -> normalizeTime rt input = Ok expected.
Proof.
  unfold staticTime. rewrite andb_true_iff, !bool_decide_eq_true.
  intros [Hs Hn]. now rewrite (normalizeTime_static rt utcRuntime input Hs).
Qed.

Lemma shape_24h_all :
  below 24 (fun h => below 60 (fun m =>
    forallb (fun hs => staticTime (hs ++ ":" ++ pad 2 m) (hhmm h m)) (hourSpellings h))) = true.
Proof. vm_compute. reflexivity. Qed.

Lemma shape_ampm_all :
  below 13 (fun h => (h <? 1)%Z || below 60 (fun m =>
    forallb (fun hs => forallb (fun sep =>
      forallb (fun p => staticTime (hs ++ ":" ++ pad 2 m ++ sep ++ p) (hhmm (h mod 12) m)) amSpellings
      && forallb (fun p => staticTime (hs ++ ":" ++ pad 2 m ++ sep ++ p) (hhmm (h mod 12 + 12) m)) pmSpellings)
      separators) (hourSpellings h))) = true.
Proof. vm_compute. reflexivity. Qed.

(** A string outside the standard format is left to the parser of the
    engine. *)
Lemma newDate_outside_format (rt : Runtime) (s : string) :
  exec 11 DATE_TIME_FORMAT s = None ->
  newDate rt s = match fallbackParse rt s with
                 | Some t => TimeClip t
                 | None => None
                 end.
Proof.
  intros H. unfold newDate, parse, parseDateTimeFormat. now rewrite H.
Qed.

(** A local date-time of the standard format, read back in local time: the
    offset of the zone cancels. *)
Lemma newDate_local_time (rt : Runtime) (s : string) (t : Z) :
  (Z.abs (LocalTZA rt) <= msPerDay)%Z ->
  (Z.abs t <= 8640000000000000 - msPerDay)%Z ->
  parseDateTimeFormat rt s = Some (UTC rt t) ->
  newDate rt s = Some (UTC rt t)
  /\ getHours rt (UTC rt t) = HourFromTime t
  /\ getMinutes rt (UTC rt t) = MinFromTime t.
Proof.
  intros Htz Ht Hp. unfold newDate, parse. rewrite Hp.
  unfold TimeClip, getHours, getMinutes, LocalTime, UTC, msPerDay in *.
  destruct (Z.leb_spec (Z.abs (t - LocalTZA rt)) 8640000000000000); [|lia].
  now rewrite Z.sub_add.
Qed.

Lemma normalizeTime_third_shape (rt : Runtime) :
  (Z.abs (LocalTZA rt) <= msPerDay)%Z ->
  normalizeTime rt "09:30:15" = Ok "09:30" /\ normalizeTime rt "24:00" = Ok "00:00".
Proof.
  intros Htz. split.
  - rewrite normalizeTime_fallback by (vm_compute; reflexivity).
    change ("1970-01-01T" ++ trim "09:30:15") with "1970-01-01T09:30:15".
    destruct (newDate_local_time rt "1970-01-01T09:30:15" 34215000 Htz)
      as (-> & -> & ->);
      [vm_compute; discriminate
      |unfold parseDateTimeFormat; generalize (UTC rt); intros f; vm_compute; reflexivity|].
    reflexivity.
  - rewrite normalizeTime_fallback by (vm_compute; reflexivity).
    change ("1970-01-01T" ++ trim "24:00") with "1970-01-01T24:00".
    destruct (newDate_local_time rt "1970-01-01T24:00" 86400000 Htz)
      as (-> & -> & ->);
      [vm_compute; discriminate
      |unfold parseDateTimeFormat; generalize (UTC rt); intros f; vm_compute; reflexivity|].
    reflexivity.
Qed.

(** C2. [normalizeTime] tries its three shapes in order on the trimmed input:
    the 24-hour shape, whose hour it pads with a zero; the 12-hour shape with
    a period in either case, converted to 24 hours, 12 AM being 00 and 12 PM
    being 12; then the date parser of the runtime on the input after a fixed
    date, of which it keeps the local hour and minute. When none applies it
    fails with the error "Invalid time format". The four examples of the
    specification hold, the last one in every runtime whose parser has no
    reading of its own for the string; a time with seconds, and the end of
    the day written 24:00, are read by the third shape in every time zone. *)
Theorem normalizeTime_shapes (rt : Runtime) :
  (forall input : string,
      match exec 2 HHMM24 (trim input), exec 3 AMPM (trim input) with
      | Some m, _ =>
          normalizeTime rt input = Ok (padStart 2 "0" (group' 1 m) ++ ":" ++ group' 2 m)
      | None, Some m =>
          exists hh : Z,
            normalizeTime rt input = Ok (padStart 2 "0" (ofNat hh) ++ ":" ++ group' 2 m)
            /\ hh = (let h := parseDigits (group' 1 m) in
                     let pm := String.eqb (toLowerCase (group' 3 m)) "pm" in
                     let am := String.eqb (toLowerCase (group' 3 m)) "am" in
                     let h := if pm && negb (h =? 12) then h + 12 else h in
                     if am && (h =? 12) then 0 else h)%Z
      | None, None =>
          normalizeTime rt input =
            match newDate rt ("1970-01-01T" ++ trim input) with
            | Some parsed => Ok (pad 2 (getHours rt parsed) ++ ":" ++ pad 2 (getMinutes rt parsed))
            | None => Err (Error "Invalid time format")
            end
      end)
  /\ (forall (h m : Z) (hs : string),
        (0 <= h < 24)%Z -> (0 <= m < 60)%Z -> In hs (hourSpellings h) ->
        normalizeTime rt (hs ++ ":" ++ pad 2 m) = Ok (hhmm h m))
  /\ (forall (h m : Z) (hs sep p : string),
        (1 <= h <= 12)%Z -> (0 <= m < 60)%Z ->
        In hs (hourSpellings h) -> In sep separators ->
        (In p amSpellings ->
         normalizeTime rt (hs ++ ":" ++ pad 2 m ++ sep ++ p) = Ok (hhmm (h mod 12) m))
        /\ (In p pmSpellings ->
            normalizeTime rt (hs ++ ":" ++ pad 2 m ++ sep ++ p) = Ok (hhmm (h mod 12 + 12) m)))
  /\ normalizeTime rt "9:00 AM" = Ok "09:00"
  /\ normalizeTime rt "21:30" = Ok "21:30"
  /\ normalizeTime rt "12:00 AM" = Ok "00:00"
  /\ normalizeTime rt "12:00 PM" = Ok "12:00"
  /\ (fallbackParse rt "1970-01-01T13:00 AM" = None ->
      normalizeTime rt "13:00 AM" = Err (Error "Invalid time format"))
  /\ ((Z.abs (LocalTZA rt) <= msPerDay)%Z ->
      normalizeTime rt "09:30:15" = Ok "09:30" /\ normalizeTime rt "24:00" = Ok "00:00").
Proof.
  split.
  { intros input.
    destruct (exec 2 HHMM24 (trim input)) as [m|] eqn:Ha.
    - now apply normalizeTime_24h.
    - destruct (exec 3 AMPM (trim input)) as [m|] eqn:Hb.
      + now apply normalizeTime_ampm.
      + now apply normalizeTime_fallback. }
  split.
  { intros h m hs Hh Hm Hhs. apply staticTime_spec.
    pose proof (below_spec 24 _ shape_24h_all h Hh) as H. cbv beta in H.
    pose proof (below_spec 60 _ H m Hm) as H'. cbv beta in H'.
    rewrite forallb_forall in H'. now apply H'. }
  split.
  { intros h m hs sep p Hh Hm Hhs Hsep.
    pose proof (below_spec 13 _ shape_ampm_all h ltac:(lia)) as H. cbv beta in H.
    apply orb_true_iff in H as [H|H]; [apply Z.ltb_lt in H; lia|].
    pose proof (below_spec 60 _ H m Hm) as H'. cbv beta in H'.
    rewrite forallb_forall in H'. specialize (H' hs Hhs).
    rewrite forallb_forall in H'. specialize (H' sep Hsep).
    apply andb_true_iff in H' as [Ham Hpm].
    rewrite forallb_forall in Ham, Hpm.
    split; intros Hp; apply staticTime_spec; auto. }
  do 4 (split; [apply staticTime_spec; vm_compute; reflexivity|]).
  split; [|apply normalizeTime_third_shape].
  intros Hf. rewrite normalizeTime_fallback by (vm_compute; reflexivity).
  rewrite newDate_outside_format by (vm_compute; reflexivity).
  change (trim "13:00 AM") with "13:00 AM".
  change ("1970-01-01T" ++ "13:00 AM") with "1970-01-01T13:00 AM".
  now rewrite Hf.
Qed.

Lemma normalizeTime_shapes_witness :
  normalizeTime utcRuntime "7:05" = Ok "07:05"
  /\ normalizeTime utcRuntime "07:05 pm" = Ok "19:05"
  /\ normalizeTime utcRuntime "13:00 AM" = Err (Error "Invalid time format")
  /\ normalizeTime eastRuntime "09:30:15" = Ok "09:30".
Proof.
  destruct (normalizeTime_shapes utcRuntime) as (_ & H24 & Hap & _ & _ & _ & _ & H13 & _).
  destruct (normalizeTime_shapes eastRuntime) as (_ & _ & _ & _ & _ & _ & _ & _ & H3).
  split; [|split; [|split]].
  - apply (H24 7 5 "7")%Z; [lia | lia | left; reflexivity].
  - apply (Hap 7 5 "07" " " "pm")%Z;
      [lia | lia | right; left; reflexivity | right; left; reflexivity
      | left; reflexivity].
  - apply H13. reflexivity.
  - apply H3. vm_compute. discriminate.
Defined.

(** ** [normalizeDate] *)

(** C3. [normalizeDate] returns the timestamp of the date the runtime makes
    of the input: a full timestamp of the standard format, which reads back
    as that same instant. It fails with the error "Invalid date format"
    exactly when the runtime makes no valid date of the input. The date
    ["2026-06-10"] gives the timestamp of that day at midnight UTC, and
    ["not-a-date"] fails in every runtime whose parser has no reading of its
    own for it. *)
Theorem normalizeDate_spec (rt : Runtime) (input : string) :
  match newDate rt input with
  | Some t =>
      normalizeDate rt input = Ok (toISOString t)
      /\ isFullTimestamp (toISOString t) = true
      /\ newDate rt (toISOString t) = Some t
  | None => normalizeDate rt input = Err (Error "Invalid date format")
  end
  /\ normalizeDate rt "2026-06-10" = Ok "2026-06-10T00:00:00.000Z"
  /\ substring 0 10 "2026-06-10T00:00:00.000Z" = "2026-06-10"
  /\ (fallbackParse rt "not-a-date" = None ->
      normalizeDate rt "not-a-date" = Err (Error "Invalid date format")).
Proof.
  split; [|split; [|split]].
  - unfold normalizeDate.
    destruct (newDate rt input) as [t|] eqn:Hnew; [|reflexivity].
    pose proof (newDate_range rt input t Hnew) as Ht.
    split; [reflexivity|]. split; [now apply toISOString_full|].
    unfold newDate. rewrite (parse_toISOString rt t Ht).
    unfold TimeClip. now destruct (Z.leb_spec (Z.abs t) 8640000000000000); [|lia].
  - reflexivity.
  - reflexivity.
  - intros Hf. unfold normalizeDate.
    rewrite newDate_outside_format by (vm_compute; reflexivity).
    now rewrite Hf.
Qed.

Lemma normalizeDate_spec_witness :
  normalizeDate utcRuntime "not-a-date" = Err (Error "Invalid date format").
Proof.
  apply (normalizeDate_spec utcRuntime "not-a-date"). reflexivity.
Defined.

(** ** Dependence on the runtime *)

Lemma parse_ext (rt rt' : Runtime) (s : string) :
  LocalTZA rt = LocalTZA rt' ->
  (forall x, fallbackParse rt x = fallbackParse rt' x) ->
  parse rt s = parse rt' s.
Proof.
  intros Htz Hfb. unfold parse, parseDateTimeFormat, UTC.
  rewrite Htz, Hfb. reflexivity.
Qed.

Lemma normalizeTime_ok_shape (rt : Runtime) (input r : string) :
  normalizeTime rt input = Ok r ->
  is_Some (exec 2 HHMM24 (trim input))
  \/ is_Some (exec 3 AMPM (trim input))
  \/ is_Some (newDate rt ("1970-01-01T" ++ trim input)).
Proof.
  unfold normalizeTime.
  destruct (exec 2 HHMM24 (trim input)); [intros _; left; eauto|].
  destruct (exec 3 AMPM (trim input)); [intros _; right; left; eauto|].
  destruct (newDate rt _); [intros _; right; right; eauto | discriminate].
Qed.

(** C8, as the code has it. Each normaliser is a function of its input and
    of two things of the runtime, the offset of local time and the date
    parser: runtimes that agree on both give the same result. On an input of
    its first two shapes [normalizeTime] does not consult the runtime at all,
    and [normalizeDate] depends on it only through the date it makes of the
    input. An input that none of the shapes reads gives an error: a result
    is returned only when a shape was read. *)
Theorem normalizers_deterministic (rt rt' : Runtime) (input : string) :
  (LocalTZA rt = LocalTZA rt' ->
   (forall s, fallbackParse rt s = fallbackParse rt' s) ->
   normalizeTime rt input = normalizeTime rt' input
   /\ normalizeDate rt input = normalizeDate rt' input)
  /\ (is_Some (exec 2 HHMM24 (trim input)) \/ is_Some (exec 3 AMPM (trim input)) ->
      normalizeTime rt input = normalizeTime rt' input)
  /\ (newDate rt input = newDate rt' input ->
      normalizeDate rt input = normalizeDate rt' input)
  /\ (forall r, normalizeTime rt input = Ok r ->
        is_Some (exec 2 HHMM24 (trim input))
        \/ is_Some (exec 3 AMPM (trim input))
        \/ is_Some (newDate rt ("1970-01-01T" ++ trim input)))
  /\ (forall r, normalizeDate rt input = Ok r -> is_Some (newDate rt input))
  /\ (exec 2 HHMM24 (trim input) = None -> exec 3 AMPM (trim input) = None ->
      newDate rt ("1970-01-01T" ++ trim input) = None ->
      normalizeTime rt input = Err (Error "Invalid time format"))
  /\ (newDate rt input = None ->
      normalizeDate rt input = Err (Error "Invalid date format")).
Proof.
  split; [|split; [|split; [|split; [|split; [|split]]]]].
  - intros Htz Hfb.
    unfold normalizeTime, normalizeDate, newDate, getHours, getMinutes, LocalTime.
    rewrite !(parse_ext rt rt' _ Htz Hfb), Htz. split; reflexivity.
  - apply normalizeTime_static.
  - intros H. unfold normalizeDate. now rewrite H.
  - intros r. apply normalizeTime_ok_shape.
  - intros r. unfold normalizeDate. destruct (newDate rt input); [eauto | discriminate].
  - intros Ha Hb Hc. rewrite normalizeTime_fallback by assumption. now rewrite Hc.
  - intros H. unfold normalizeDate. now rewrite H.
Qed.

Lemma normalizers_deterministic_witness :
  normalizeTime utcRuntime "09:30Z"
  = normalizeTime (node 0 0) "09:30Z"
  /\ normalizeTime utcRuntime "9:00 AM" = normalizeTime eastRuntime "9:00 AM"
  /\ normalizeDate utcRuntime "2026-06-10" = normalizeDate eastRuntime "2026-06-10"
  /\ normalizeTime eastRuntime "noon" = Err (Error "Invalid time format")
  /\ normalizeDate eastRuntime "not-a-date" = Err (Error "Invalid date format").
Proof.
  split; [|split; [|split; [|split]]].
  - destruct (normalizers_deterministic utcRuntime (node 0 0) "09:30Z")
      as (H & _).
    apply H; reflexivity.
  - destruct (normalizers_deterministic utcRuntime eastRuntime "9:00 AM")
      as (_ & H & _).
    apply H. right. vm_compute. eauto.
  - destruct (normalizers_deterministic utcRuntime eastRuntime "2026-06-10")
      as (_ & _ & H & _).
    apply H. reflexivity.
  - destruct (normalizers_deterministic eastRuntime eastRuntime "noon")
      as (_ & _ & _ & _ & _ & H & _).
    apply H; reflexivity.
  - destruct (normalizers_deterministic eastRuntime eastRuntime "not-a-date")
      as (_ & _ & _ & _ & _ & _ & H).
    apply H. reflexivity.
Defined.

(** C8, as stated, fails: the result depends on the time zone of the runtime.
    A time with an offset is reported in local time, and a local date-time is
    stamped in UTC. *)
Lemma normalizers_depend_on_time_zone :
  ~ (forall (rt rt' : Runtime) (input : string),
        normalizeTime rt input = normalizeTime rt' input)
  /\ ~ (forall (rt rt' : Runtime) (input : string),
          normalizeDate rt input = normalizeDate rt' input).
Proof.
  split; intros H.
  - specialize (H utcRuntime eastRuntime "09:30Z").
    assert (normalizeTime utcRuntime "09:30Z" = Ok "09:30") as Hu by reflexivity.
    assert (normalizeTime eastRuntime "09:30Z" = Ok "11:30") as He by reflexivity.
    rewrite Hu, He in H. discriminate H.
  - specialize (H utcRuntime eastRuntime "2026-06-10T00:00").
    assert (normalizeDate utcRuntime "2026-06-10T00:00" = Ok "2026-06-10T00:00:00.000Z")
      as Hu by reflexivity.
    assert (normalizeDate eastRuntime "2026-06-10T00:00" = Ok "2026-06-09T22:00:00.000Z")
      as He by reflexivity.
    rewrite Hu, He in H. discriminate H.
Qed.

(** ** Setters *)

Lemma trimEnd_cons (c : ascii) (s : string) :
  trimEnd (String c s) =
    match trimEnd s with
    | EmptyString => if isWhiteSpace c then EmptyString else String c EmptyString
    | t => String c t
    end.
Proof. reflexivity. Qed.

Lemma trimEnd_idem (s : string) : trimEnd (trimEnd s) = trimEnd s.
Proof.
  induction s as [|c s IH]; [reflexivity|].
  rewrite trimEnd_cons. destruct (trimEnd s) as [|d t] eqn:E.
  - destruct (isWhiteSpace c) eqn:Hc; [reflexivity|].
    rewrite trimEnd_cons. cbn [trimEnd]. now rewrite Hc.
  - rewrite trimEnd_cons, IH. reflexivity.
Qed.

Lemma trimEnd_head (c : ascii) (s : string) :
  isWhiteSpace c = false -> exists t, trimEnd (String c s) = String c t.
Proof.
  intros Hc. rewrite trimEnd_cons. destruct (trimEnd s); rewrite ?Hc; eauto.
Qed.

Lemma trimStart_head (s : string) :
  trimStart s = EmptyString
  \/ exists c t, trimStart s = String c t /\ isWhiteSpace c = false.
Proof.
  induction s as [|c s IH]; [now left|].
  cbn [trimStart]. destruct (isWhiteSpace c) eqn:Hc; [exact IH|].
  right. eauto.
Qed.

Lemma trim_idem (s : string) : trim (trim s) = trim s.
Proof.
  unfold trim. destruct (trimStart_head s) as [E | (c & t & E & Hc)]; rewrite E.
  - reflexivity.
  - destruct (trimEnd_head c t Hc) as [u Eu]. rewrite Eu.
    cbn [trimStart]. rewrite Hc, <- Eu. apply trimEnd_idem.
Qed.

Lemma map_trimStart (f : ascii -> ascii) (s : string) :
  (forall c, isWhiteSpace (f c) = isWhiteSpace c) ->
  JSString.map f (trimStart s) = trimStart (JSString.map f s).
Proof.
  intros Hf. induction s as [|c s IH]; [reflexivity|].
  cbn [trimStart JSString.map]. rewrite Hf.
  destruct (isWhiteSpace c); [exact IH | reflexivity].
Qed.

Lemma map_trimEnd (f : ascii -> ascii) (s : string) :
  (forall c, isWhiteSpace (f c) = isWhiteSpace c) ->
  JSString.map f (trimEnd s) = trimEnd (JSString.map f s).
Proof.
  intros Hf. induction s as [|c s IH]; [reflexivity|].
  cbn [JSString.map]. rewrite !trimEnd_cons, <- IH, Hf.
  destruct (trimEnd s); [destruct (isWhiteSpace c)|]; reflexivity.
Qed.

(** Lower-casing and trimming commute, so the order of the two setters is
    immaterial. *)
Lemma toLowerCase_trim (s : string) : toLowerCase (trim s) = trim (toLowerCase s).
Proof.
  unfold toLowerCase, trim.
  now rewrite map_trimEnd, map_trimStart by apply toLowerChar_space.
Qed.

Lemma toLowerChar_idem (c : ascii) : toLowerChar (toLowerChar c) = toLowerChar c.
Proof. each_char c. Qed.

Lemma toLowerCase_idem (s : string) : toLowerCase (toLowerCase s) = toLowerCase s.
Proof.
  unfold toLowerCase. induction s as [|c s IH]; [reflexivity|].
  cbn [JSString.map]. now rewrite toLowerChar_idem, IH.
Qed.

Lemma applySetters_idem (st : SchemaType) (v : value) :
  applySetters st (applySetters st v) = applySetters st v.
Proof.
  destruct v as [s| |]; [|reflexivity|reflexivity].
  cbn [applySetters].
  destruct (Opt.lowercase st), (Opt.trim st); f_equal;
    rewrite ?toLowerCase_trim, ?toLowerCase_idem, ?trim_idem; reflexivity.
Qed.

Lemma applySetters_kind (st : SchemaType) (v : value) :
  kindOf (applySetters st v) = kindOf v.
Proof. now destruct v. Qed.

(** ** Documents *)

Lemma cast_kind (k : kind) (v v0 : value) : cast k v = Some v0 -> kindOf v0 = k.
Proof.
  destruct k, v; cbn [cast]; try discriminate; try (intros [= <-]; reflexivity).
  all: destruct (ObjectId _); cbn; [intros [= <-]; reflexivity | discriminate].
Qed.

Lemma cast_same (v : value) : cast (kindOf v) v = Some v.
Proof. now destruct v. Qed.

Lemma assign_other (sch : Schema) (path path' : string) (v : value) (doc : Document) :
  path' <> path -> fields (assign sch path v doc) !! path' = fields doc !! path'.
Proof.
  intros Hne. unfold assign.
  destruct (pathType sch path); [|reflexivity].
  destruct (cast _ v); [|reflexivity].
  cbn [fields]. now rewrite lookup_insert_ne.
Qed.

Lemma assign_same (sch : Schema) (path : string) (st : SchemaType) (v : value) (doc : Document) :
  pathType sch path = Some st -> kindOf v = Opt.type st ->
  fields (assign sch path v doc) !! path = Some (applySetters st v).
Proof.
  intros Hst Hk. unfold assign. rewrite Hst, <- Hk, cast_same.
  cbn [fields]. apply lookup_insert_eq.
Qed.

Lemma assign_id (sch : Schema) (path : string) (v : value) (doc : Document) :
  _id (assign sch path v doc) = _id doc /\ isNew (assign sch path v doc) = isNew doc.
Proof.
  unfold assign. destruct (pathType sch path); [|now split].
  destruct (cast _ v); now split.
Qed.

(** What an assignment leaves of the cast errors: those of the other paths,
    and none at its own path when the value has the type of the path. *)
Lemma assign_castErrors_other (sch : Schema) (path path' : string) (v : value)
      (doc : Document) :
  path' <> path -> castErrors (assign sch path v doc) !! path' = castErrors doc !! path'.
Proof.
  intros Hne. unfold assign.
  destruct (pathType sch path); [|reflexivity].
  destruct (cast _ v); cbn [castErrors].
  - now rewrite lookup_delete_ne.
  - now rewrite lookup_insert_ne.
Qed.

Lemma assign_castErrors_same (sch : Schema) (path : string) (st : SchemaType) (v : value)
      (doc : Document) :
  pathType sch path = Some st -> kindOf v = Opt.type st ->
  castErrors (assign sch path v doc) !! path = None.
Proof.
  intros Hst Hk. unfold assign. rewrite Hst, <- Hk, cast_same.
  cbn [castErrors]. apply lookup_delete_eq.
Qed.

(** The modified paths of a document grow with an assignment, by the path
    assigned at most. *)
Lemma assign_modified_other (sch : Schema) (path path' : string) (v : value)
      (doc : Document) :
  path' <> path -> isModified path' (assign sch path v doc) = isModified path' doc.
Proof.
  intros Hne. unfold assign, isModified.
  destruct (pathType sch path); [|reflexivity].
  destruct (cast _ v); [|reflexivity]. cbn [modifiedPaths].
  destruct (isNew doc || _); [|reflexivity].
  apply bool_decide_ext. rewrite elem_of_union, elem_of_singleton. intuition congruence.
Qed.

Lemma assign_modified_keeps (sch : Schema) (path path' : string) (v : value)
      (doc : Document) :
  isModified path' doc = true -> isModified path' (assign sch path v doc) = true.
Proof.
  unfold assign, isModified. intros H%bool_decide_eq_true.
  destruct (pathType sch path); [|now apply bool_decide_eq_true].
  destruct (cast _ v); [|now apply bool_decide_eq_true]. cbn [modifiedPaths].
  destruct (isNew doc || _); apply bool_decide_eq_true; [|exact H].
  rewrite elem_of_union. now right.
Qed.

Lemma pathType_In (sch : Schema) (path : string) (st : SchemaType) :
  NoDup (List.map fst sch) -> In (path, st) sch -> pathType sch path = Some st.
Proof.
  unfold pathType. induction sch as [|[p t] sch IH]; intros Hnd Hin; [destruct Hin|].
  cbn [List.map fst] in Hnd. apply NoDup_cons in Hnd as [Hp Hnd].
  cbn [List.find fst]. destruct (String.eqb_spec p path) as [->|Hne].
  - destruct Hin as [[= <-]|Hin]; [reflexivity|].
    exfalso. apply Hp. apply list_elem_of_In, in_map_iff. now exists (path, st).
  - destruct Hin as [[= -> _]|Hin]; [contradiction|]. now apply IH.
Qed.

Lemma wellFormed_assign (sch : Schema) (path : string) (v : value) (doc : Document) :
  wellFormed sch doc -> wellFormed sch (assign sch path v doc).
Proof.
  intros Hwf p st x Hst Hx.
  destruct (String.eqb_spec p path) as [->|Hne].
  - unfold assign in Hx. rewrite Hst in Hx.
    destruct (cast (Opt.type st) v) as [v0|] eqn:Hk; [|now apply (Hwf path)].
    apply cast_kind in Hk.
    cbn [fields] in Hx. rewrite lookup_insert_eq in Hx. injection Hx as <-.
    split; [now rewrite applySetters_kind | apply applySetters_idem].
  - rewrite assign_other in Hx by exact Hne. now apply (Hwf p).
Qed.

Lemma wellFormed_applyDefaults (sch : Schema) (doc : Document) :
  NoDup (List.map fst sch) -> wellFormed sch doc -> wellFormed sch (applyDefaults sch doc).
Proof.
  intros Hnd Hwf. unfold applyDefaults, wellFormed. cbn [fields].
  assert (forall l, (forall p, In p l -> In p sch) ->
            forall path st v, pathType sch path = Some st ->
              foldr (fun p f =>
                       match Opt.type (snd p), f !! fst p with
                       | KArray, None => <[fst p := Arr []]> f
                       | _, _ => f
                       end) (fields doc) l !! path = Some v ->
              kindOf v = Opt.type st /\ applySetters st v = v) as H.
  { induction l as [|[p t] l IH]; intros Hl path st v Hst Hv.
    - now apply (Hwf path).
    - cbn [foldr fst snd] in Hv.
      assert (forall q, In q l -> In q sch) as Hl' by (intros q Hq; apply Hl; now right).
      destruct (Opt.type t) eqn:Ht; try now apply (IH Hl' path).
      destruct (foldr _ _ l !! p) eqn:Hp; [now apply (IH Hl' path)|].
      destruct (String.eqb_spec path p) as [->|Hne].
      + rewrite lookup_insert_eq in Hv. injection Hv as <-.
        rewrite (pathType_In sch p t Hnd (Hl _ (or_introl eq_refl))) in Hst.
        injection Hst as <-. now rewrite Ht.
      + rewrite lookup_insert_ne in Hv by congruence. now apply (IH Hl' path). }
  apply (H sch). auto.
Qed.

Lemma wellFormed_construct (sch : Schema) (id : N) (attrs : list (string * value)) :
  NoDup (List.map fst sch) -> wellFormed sch (construct sch id attrs).
Proof.
  intros Hnd. unfold construct. apply wellFormed_applyDefaults; [exact Hnd|].
  assert (forall doc, wellFormed sch doc ->
            wellFormed sch (foldl (fun doc p => assign sch (fst p) (snd p) doc) doc attrs)) as H.
  { induction attrs as [|a attrs IH]; intros doc Hd; [exact Hd|].
    cbn [foldl]. apply IH. now apply wellFormed_assign. }
  apply H. intros p st v _ Hv. cbn [fields] in Hv. now rewrite lookup_empty in Hv.
Qed.


(** ** [save] *)

Lemma save_invalid (M : Model) (rt : Runtime) (db : Store) (doc : Document)
      (e : string * string) :
  In e (validateDoc (schema M) doc) ->
  save M rt db doc = (Err (ValidationError (validateDoc (schema M) doc)), db).
Proof.
  unfold save. destruct (validateDoc (schema M) doc); [intros []|reflexivity].
Qed.

Lemma save_valid (M : Model) (rt : Runtime) (db : Store) (doc : Document) :
  validateDoc (schema M) doc = [] ->
  save M rt db doc =
    match preSave M rt db (if timestamps M then setTimestamps rt doc else doc) with
    | (Err e, db') => (Err e, db')
    | (Ok doc', db') => write M db' doc'
    end.
Proof. unfold save. now intros ->. Qed.

(** The hook of the timestamps touches the two timestamps only. *)
Lemma setTimestamps_fields (rt : Runtime) (doc : Document) :
  fields (setTimestamps rt doc) = fields doc
  /\ _id (setTimestamps rt doc) = _id doc
  /\ isNew (setTimestamps rt doc) = isNew doc
  /\ castErrors (setTimestamps rt doc) = castErrors doc
  /\ __v (setTimestamps rt doc) = __v doc.
Proof.
  unfold setTimestamps. destruct (isNew doc) eqn:Hnew; [now cbn|].
  destruct (bool_decide (modifiedPaths doc = ∅)); now cbn.
Qed.

Lemma setTimestamps_modified (rt : Runtime) (doc : Document) (path : string) :
  path <> "createdAt" -> path <> "updatedAt" ->
  isModified path (setTimestamps rt doc) = isModified path doc.
Proof.
  intros Hc Hu. unfold setTimestamps, isModified.
  destruct (isNew doc).
  { cbn [modifiedPaths]. apply bool_decide_ext.
    destruct (createdAt doc); rewrite ?elem_of_union, ?elem_of_singleton; intuition congruence. }
  destruct (bool_decide (modifiedPaths doc = ∅)); [reflexivity|].
  cbn [modifiedPaths]. destruct (bool_decide (updatedAt doc = _)); [reflexivity|].
  apply bool_decide_ext. rewrite elem_of_union, elem_of_singleton. intuition congruence.
Qed.

Lemma setTimestamps_unmodified (rt : Runtime) (doc : Document) :
  isNew doc = false -> modifiedPaths doc = ∅ -> setTimestamps rt doc = doc.
Proof.
  intros Hnew Hmod. unfold setTimestamps. rewrite Hnew.
  now rewrite (bool_decide_eq_true_2 _ Hmod).
Qed.

Lemma validateDoc_In (sch : Schema) (doc : Document) (p : string * SchemaType)
      (e : string * string) :
  In p sch -> validatePath doc p = Some e -> In e (validateDoc sch doc).
Proof.
  intros Hp He. unfold validateDoc.
  apply list_elem_of_In, list_elem_of_omap. exists p.
  split; [now apply list_elem_of_In | exact He].
Qed.

(** A path of the record after an update: the value of the document where
    the path is modified, the value of the record where it is not. *)
Lemma update_lookup (doc : Document) (increment : bool) (r : StoredRecord) (path : string) :
  update doc increment r !! path
  = if isModified path doc then fields doc !! path else r !! path.
Proof.
  change (r !! path) with (Stored.data r !! path).
  unfold lookup at 1. unfold stored_lookup, update, isModified. cbn [Stored.data].
  rewrite lookup_union, !map_lookup_filter. cbn [fst].
  destruct (decide (path ∈ modifiedPaths doc)) as [Hin|Hout].
  - rewrite (bool_decide_eq_true_2 _ Hin).
    destruct (fields doc !! path) as [v|]; destruct (Stored.data r !! path) as [w|]; cbn;
      repeat first [rewrite option_guard_True by auto | rewrite option_guard_False by auto];
      reflexivity.
  - rewrite (bool_decide_eq_false_2 _ Hout).
    destruct (fields doc !! path) as [v|]; destruct (Stored.data r !! path) as [w|]; cbn;
      repeat first [rewrite option_guard_True by auto | rewrite option_guard_False by auto];
      reflexivity.
Qed.

(** A failed write leaves the store as it was, and no write touches the log
    of the queries. *)
Lemma write_err (M : Model) (db db' : Store) (doc : Document) (e : error) :
  write M db doc = (Err e, db') -> db' = db.
Proof.
  unfold write.
  destruct (isNew doc).
  - destruct (bool_decide _); [now intros [= _ <-]|].
    destruct (List.find _ _); [now intros [= _ <-] | discriminate].
  - destruct (collection (modelName M) db !! _id doc); [|now intros [= _ <-]].
    destruct (bool_decide _); [discriminate|].
    destruct (versioned _ _ && _); [now intros [= _ <-]|].
    destruct (List.find _ _); [now intros [= _ <-] | discriminate].
Qed.

Lemma write_log (M : Model) (db : Store) (doc : Document) :
  existsLog (snd (write M db doc)) = existsLog db.
Proof.
  unfold write.
  destruct (isNew doc).
  - destruct (bool_decide _); [reflexivity|].
    destruct (List.find _ _); reflexivity.
  - destruct (collection (modelName M) db !! _id doc); [|reflexivity].
    destruct (bool_decide _); [reflexivity|].
    destruct (versioned _ _ && _); [reflexivity|].
    destruct (List.find _ _); reflexivity.
Qed.

Lemma stored_put (M : Model) (db : Store) (id : N) (r : StoredRecord) (log : list (string * option N)) :
  stored M {| collections := <[modelName M := <[id := r]> (collection (modelName M) db)]>
                               (collections db);
              existsLog := log |} id = Some r.
Proof.
  unfold stored, collection. cbn [collections].
  rewrite lookup_insert_eq. cbn [default]. apply lookup_insert_eq.
Qed.

Lemma stored_put_ne (M : Model) (db : Store) (id id' : N) (r : StoredRecord)
      (log : list (string * option N)) :
  id' <> id ->
  stored M {| collections := <[modelName M := <[id := r]> (collection (modelName M) db)]>
                               (collections db);
              existsLog := log |} id' = stored M db id'.
Proof.
  intros Hne. unfold stored. unfold collection at 1. cbn [collections].
  rewrite lookup_insert_eq.
  change (<[id := r]> (collection (modelName M) db) !! id' = collection (modelName M) db !! id').
  apply lookup_insert_ne. congruence.
Qed.

Lemma collection_put_ne (name name' : string) (db : Store) (c : gmap N StoredRecord)
      (log : list (string * option N)) :
  name' <> name ->
  collection name' {| collections := <[name := c]> (collections db); existsLog := log |}
  = collection name' db.
Proof.
  intros Hne. unfold collection. cbn [collections]. now rewrite lookup_insert_ne.
Qed.

(** What a successful write leaves. The document is the one written, no
    longer new and with no modified path. The record of a new document is the
    document, whole; the record of a persisted one has the values of the
    document at its modified paths and is as it was at the others. No other
    record and no other collection is touched. *)
Lemma write_ok (M : Model) (db db' : Store) (doc doc' : Document) :
  write M db doc = (Ok doc', db') ->
  fields doc' = fields doc /\ _id doc' = _id doc /\ isNew doc' = false
  /\ modifiedPaths doc' = ∅
  /\ createdAt doc' = createdAt doc /\ updatedAt doc' = updatedAt doc
  /\ existsLog db' = existsLog db
  /\ (forall id, id <> _id doc -> stored M db' id = stored M db id)
  /\ (forall name, name <> modelName M -> collection name db' = collection name db)
  /\ exists r',
      stored M db' (_id doc) = Some r'
      /\ (isNew doc = true ->
          stored M db (_id doc) = None /\ r' = toRecord (saved (Some 0%N) doc))
      /\ (isNew doc = false ->
          exists r, stored M db (_id doc) = Some r
                    /\ (modifiedPaths doc = ∅ -> r' = r)
                    /\ forall path, r' !! path
                                    = if isModified path doc then fields doc !! path
                                      else r !! path).
Proof.
  unfold write.
  destruct (isNew doc) eqn:Hnew.
  - destruct (bool_decide _) eqn:Hid; [discriminate|].
    destruct (List.find _ _); [discriminate|].
    intros [= <- <-]. cbn [fields _id isNew modifiedPaths createdAt updatedAt saved existsLog].
    repeat split; try reflexivity.
    + intros id Hne. now apply stored_put_ne.
    + intros name Hne. now apply collection_put_ne.
    + eexists. split; [apply stored_put|]. split; [|discriminate].
      intros _. split; [|reflexivity].
      apply bool_decide_eq_false in Hid. unfold stored.
      destruct (collection (modelName M) db !! _id doc); [|reflexivity].
      exfalso. apply Hid. eauto.
  - destruct (collection (modelName M) db !! _id doc) as [r|] eqn:Hr; [|discriminate].
    destruct (bool_decide (modifiedPaths doc = ∅)) eqn:Hmod.
    + intros [= <- <-]. apply bool_decide_eq_true in Hmod.
      cbn [fields _id isNew modifiedPaths createdAt updatedAt saved existsLog].
      repeat split; try reflexivity.
      exists r. split; [exact Hr|]. split; [discriminate|].
      intros _. exists r. split; [exact Hr|]. split; [reflexivity|].
      intros path. unfold isModified. rewrite Hmod.
      rewrite bool_decide_eq_false_2; [reflexivity | apply not_elem_of_empty].
    + destruct (versioned _ _ && _); [discriminate|].
      destruct (List.find _ _); [discriminate|].
      intros [= <- <-]. apply bool_decide_eq_false in Hmod.
      cbn [fields _id isNew modifiedPaths createdAt updatedAt saved existsLog].
      repeat split; try reflexivity.
      * intros id Hne. now apply stored_put_ne.
      * intros name Hne. now apply collection_put_ne.
      * eexists. split; [apply stored_put|]. split; [discriminate|].
        intros _. exists r. split; [exact Hr|]. split; [intros H; contradiction|].
        intros path. apply update_lookup.
Qed.

Lemma write_saved (M : Model) (db db' : Store) (doc doc' : Document) :
  write M db doc = (Ok doc', db') ->
  exists version, doc' = saved version doc /\ (isNew doc = true -> version = Some 0%N).
Proof.
  unfold write.
  destruct (isNew doc).
  - destruct (bool_decide _); [discriminate|].
    destruct (List.find _ _); [discriminate|]. intros [= <- _]. eauto.
  - destruct (collection (modelName M) db !! _id doc); [|discriminate].
    destruct (bool_decide _); [intros [= <- _]; eexists; split; [reflexivity|discriminate]|].
    destruct (versioned _ _ && _); [discriminate|].
    destruct (List.find _ _); [discriminate|].
    intros [= <- _]. eexists; split; [reflexivity|discriminate].
Qed.

(** The store has checked the unique paths that a write sends. *)
Lemma write_unique (M : Model) (db db' : Store) (doc doc' : Document) (path : string) :
  write M db doc = (Ok doc', db') -> In path (uniquePaths M) ->
  isNew doc = true \/ isModified path doc = true ->
  conflicts (collection (modelName M) db) doc path = false.
Proof.
  unfold write. intros H Hin Hcase.
  destruct (isNew doc).
  - destruct (bool_decide _); [discriminate|].
    destruct (List.find _ _) eqn:Hf; [discriminate|].
    exact (find_none _ _ Hf path Hin).
  - destruct Hcase as [Hx | Hm]; [discriminate Hx|].
    destruct (collection (modelName M) db !! _id doc); [|discriminate].
    destruct (bool_decide (modifiedPaths doc = ∅)) eqn:He.
    { apply bool_decide_eq_true in He. unfold isModified in Hm. rewrite He in Hm.
      apply bool_decide_eq_true in Hm. now apply not_elem_of_empty in Hm. }
    destruct (versioned _ _ && _); [discriminate|].
    destruct (List.find _ _) eqn:Hf; [discriminate|].
    pose proof (find_none _ _ Hf path Hin) as Hc. cbv beta in Hc.
    rewrite Hm in Hc. exact Hc.
Qed.

(** The insert of a new document whose identifier is free, and whose unique
    paths no other record holds, succeeds. *)
Lemma write_new (M : Model) (db : Store) (doc : Document) :
  isNew doc = true -> collection (modelName M) db !! _id doc = None ->
  (forall path, In path (uniquePaths M) ->
     conflicts (collection (modelName M) db) doc path = false) ->
  exists db', write M db doc = (Ok (saved (Some 0%N) doc), db').
Proof.
  intros Hnew Hid Hc. unfold write. rewrite Hnew, Hid.
  rewrite bool_decide_eq_false_2 by (intros [x Hx]; discriminate Hx).
  destruct (List.find _ _) as [path|] eqn:Hf; [|eauto].
  apply find_some in Hf as [Hin Hp]. rewrite (Hc path Hin) in Hp. discriminate Hp.
Qed.

(** ** The Event model *)

Lemma eventSchema_NoDup : NoDup (List.map fst eventSchema).
Proof. apply (bool_decide_unpack _). vm_compute. exact I. Qed.

Lemma build_wellFormed (id : N) (attrs : list (string * value)) :
  wellFormed eventSchema (EventModel.build id attrs).
Proof. apply wellFormed_construct, eventSchema_NoDup. Qed.

Lemma validatePath_required (doc : Document) (path : string) (st : SchemaType)
      (msg : string) :
  Opt.required st = Some msg ->
  fields doc !! path = None \/ fields doc !! path = Some (Str "") ->
  exists msg', validatePath doc (path, st) = Some (path, msg')
               /\ (castErrors doc !! path = None -> msg' = msg).
Proof.
  intros Hreq Hv. unfold validatePath. cbn [fst snd]. rewrite Hreq.
  destruct (castErrors doc !! path) as [m|].
  - exists m. split; [reflexivity | discriminate].
  - exists msg. now destruct Hv as [-> | ->].
Qed.

Lemma validatePath_custom (doc : Document) (path : string) (st : SchemaType)
      (f : value -> bool) (msg : string) (v : value) :
  Opt.validate st = Some (f, msg) ->
  fields doc !! path = Some v -> f v = false ->
  exists msg', validatePath doc (path, st) = Some (path, msg').
Proof.
  intros Hval Hv Hf. unfold validatePath. cbn [fst snd]. rewrite Hval, Hv, Hf.
  destruct (castErrors doc !! path); [eauto|].
  destruct (Opt.required st); [destruct (checkRequired _)|]; eauto.
Qed.

(** The string paths of the schema are required, and either trimmed by a
    setter or checked by the validator of non-empty strings. *)
Lemma eventSchema_stringPaths (path : string) :
  In path stringPaths ->
  exists st msg,
    In (path, st) eventSchema /\ pathType eventSchema path = Some st
    /\ Opt.required st = Some msg
    /\ (Opt.trim st = true /\ Opt.lowercase st = false
        \/ exists msg', Opt.validate st = Some (nonEmptyString, msg')).
Proof.
  unfold stringPaths. cbn [In]. intros Hp.
  repeat (destruct Hp as [<- | Hp];
          [eexists _, _; split; [cbn; eauto 20|];
           split; [reflexivity|]; split; [reflexivity|]; cbn; eauto|]).
  destruct Hp.
Qed.

Lemma eventSchema_arrayPaths (path : string) :
  In path arrayPaths ->
  exists st msg msg',
    In (path, st) eventSchema /\ Opt.required st = Some msg
    /\ Opt.validate st = Some (nonEmptyArray, msg').
Proof.
  unfold arrayPaths. cbn [In]. intros Hp.
  repeat (destruct Hp as [<- | Hp];
          [eexists _, _, _; split; [cbn; eauto 20|]; split; reflexivity|]).
  destruct Hp.
Qed.

(** C4. A save of an Event whose title, description, overview, image, venue,
    location, mode, audience or organizer is missing or empty once trimmed,
    or whose agenda or tags has no element, fails with a validation error
    that names the path, and leaves the store as it was. Documents are those
    the model makes: their values went through the setters of their paths. *)
Theorem event_save_rejects_empty (rt : Runtime) (db : Store) (doc : Document)
        (path : string) :
  wellFormed eventSchema doc ->
  (In path stringPaths
   /\ (fields doc !! path = None
       \/ exists s, fields doc !! path = Some (Str s) /\ trim s = EmptyString))
  \/ (In path arrayPaths
      /\ (fields doc !! path = None \/ fields doc !! path = Some (Arr []))) ->
  exists errors message,
    save Event rt db doc = (Err (ValidationError errors), db)
    /\ In (path, message) errors.
Proof.
  intros Hwf Hcase.
  enough (exists st message,
             In (path, st) eventSchema /\ validatePath doc (path, st) = Some (path, message))
    as (st & message & Hin & Hv).
  { exists (validateDoc eventSchema doc), message.
    pose proof (validateDoc_In eventSchema doc _ _ Hin Hv) as He.
    split; [exact (save_invalid Event rt db doc _ He) | exact He]. }
  destruct Hcase as [[Hp Hfield] | [Hp Hfield]].
  - destruct (eventSchema_stringPaths path Hp) as (st & msg & Hin & Hst & Hreq & Hkind).
    exists st.
    destruct Hfield as [Hnone | (s & Hs & He)].
    { destruct (validatePath_required doc path st msg Hreq (or_introl Hnone)) as (m & Hm & _).
      exists m. now split. }
    destruct (String.eqb_spec s "") as [-> | Hne].
    { destruct (validatePath_required doc path st msg Hreq (or_intror Hs)) as (m & Hm & _).
      exists m. now split. }
    destruct Hkind as [[Ht Hl] | [msg' Hval]].
    + exfalso. apply Hne.
      destruct (Hwf path st (Str s) Hst Hs) as [_ Hset].
      cbn [applySetters] in Hset. rewrite Ht, Hl in Hset.
      injection Hset as Hset. now rewrite <- Hset.
    + destruct (validatePath_custom doc path st _ msg' (Str s) Hval Hs) as [m Hm].
      { cbn [nonEmptyString]. now rewrite He. }
      exists m. now split.
  - destruct (eventSchema_arrayPaths path Hp) as (st & msg & msg' & Hin & Hreq & Hval).
    exists st.
    destruct Hfield as [Hnone | Hs].
    + destruct (validatePath_required doc path st msg Hreq (or_introl Hnone)) as (m & Hm & _).
      exists m. now split.
    + destruct (validatePath_custom doc path st _ msg' (Arr []) Hval Hs eq_refl) as [m Hm].
      exists m. now split.
Qed.

Lemma event_save_rejects_empty_witness :
  exists errors message,
    save Event utcRuntime emptyStore
         (EventModel.build 1 [("title", Str "A talk"); ("tags", Arr [])])
    = (Err (ValidationError errors), emptyStore)
    /\ In ("tags", message) errors.
Proof.
  apply (event_save_rejects_empty utcRuntime emptyStore
           (EventModel.build 1 [("title", Str "A talk"); ("tags", Arr [])]) "tags").
  - apply build_wellFormed.
  - right. split; [right; left; reflexivity | right; reflexivity].
Defined.

Example event_empty_tags :
  fst (save Event utcRuntime emptyStore
         (EventModel.build 1 (("slug", Str "my-talk") :: sampleAttrs ++ [("tags", Arr [])])))
  = Err (ValidationError [("tags", "Tags must contain at least one item")]).
Proof. reflexivity. Qed.

(** *** The slug *)

Lemma assign_plain (path : string) (s : string) (doc : Document) :
  In path ["slug"; "date"; "time"] ->
  fields (assign eventSchema path (Str s) doc) !! path = Some (Str s).
Proof.
  cbn [In]. intros [<- | [<- | [<- | []]]].
  - now rewrite (assign_same eventSchema "slug" (snd (plainString "slug"))).
  - now rewrite (assign_same eventSchema "date" (snd (plainString "date"))).
  - now rewrite (assign_same eventSchema "time" (snd (plainString "time"))).
Qed.

(** The hook sets the slug from the title when the title is modified, and
    leaves it alone otherwise; the date and the time steps do not touch it. *)
Lemma eventPreSaveHook_slug (rt : Runtime) (this this' : Document) :
  eventPreSaveHook rt this = Ok this' ->
  (isModified "title" this = true ->
   exists title, fields this !! "title" = Some (Str title)
                 /\ fields this' !! "slug" = Some (Str (slugify title)))
  /\ (isModified "title" this = false ->
      fields this' !! "slug" = fields this !! "slug").
Proof.
  unfold eventPreSaveHook.
  set (step1 := if isModified "title" this then _ else _).
  intros H.
  assert (exists this1, step1 = Ok this1 /\ fields this' !! "slug" = fields this1 !! "slug")
    as (this1 & H1 & Hslug).
  { destruct step1 as [this1|e]; [|discriminate H]. exists this1. split; [reflexivity|].
    cbn [andThen] in H. unfold readString in H.
    repeat (match type of H with
            | context [if ?b then _ else _] => destruct b
            | context [match ?x with _ => _ end] => destruct x eqn:?
            | context [normalizeDate ?a ?b] => destruct (normalizeDate a b)
            | context [normalizeTime ?a ?b] => destruct (normalizeTime a b)
            end; cbn [andThen] in H; try discriminate H);
      injection H as <-;
      rewrite ?assign_other by discriminate; reflexivity. }
  subst step1. split; intros Hmod; rewrite Hmod in H1.
  - unfold readString in H1. destruct (fields this !! "title") as [[title| |]|];
      try discriminate H1.
    cbn [andThen] in H1. injection H1 as <-. exists title. split; [reflexivity|].
    rewrite Hslug. apply assign_plain. now left.
  - injection H1 as <-. exact Hslug.
Qed.

(** What a successful save of an Event went through: validation, the hook on
    the document with its timestamps set, and the write of what the hook
    returned. *)
Lemma event_save_ok (rt : Runtime) (db db' : Store) (doc doc' : Document) :
  save Event rt db doc = (Ok doc', db') ->
  validateDoc eventSchema doc = []
  /\ exists this',
      eventPreSaveHook rt (setTimestamps rt doc) = Ok this'
      /\ write Event db this' = (Ok doc', db').
Proof.
  unfold save. cbn [schema timestamps Event].
  destruct (validateDoc eventSchema doc); [|discriminate].
  cbn [preSave Event].
  destruct (eventPreSaveHook rt (setTimestamps rt doc)) as [this'|e] eqn:Hhook;
    [|discriminate].
  intros Hw. split; [reflexivity|]. now exists this'.
Qed.

Lemma event_save_slug (rt : Runtime) (db db' : Store) (doc doc' : Document) :
  save Event rt db doc = (Ok doc', db') ->
  (isModified "title" doc = true ->
   exists title, fields doc !! "title" = Some (Str title)
                 /\ fields doc' !! "slug" = Some (Str (slugify title)))
  /\ (isModified "title" doc = false ->
      fields doc' !! "slug" = fields doc !! "slug").
Proof.
  intros (_ & this' & Hhook & Hw)%event_save_ok.
  apply write_ok in Hw as (Hf & _).
  apply eventPreSaveHook_slug in Hhook.
  rewrite (setTimestamps_modified rt doc "title") in Hhook by discriminate.
  rewrite (proj1 (setTimestamps_fields rt doc)) in Hhook.
  now rewrite Hf.
Qed.

(** The hook and a successful save keep a document well formed. *)
Lemma eventPreSaveHook_wellFormed (rt : Runtime) (this this' : Document) :
  eventPreSaveHook rt this = Ok this' ->
  wellFormed eventSchema this -> wellFormed eventSchema this'.
Proof.
  unfold eventPreSaveHook, readString. intros H Hwf.
  repeat (match type of H with
          | context [if ?b then _ else _] => destruct b
          | context [match ?x with _ => _ end] => destruct x eqn:?
          | context [normalizeDate ?a ?b] => destruct (normalizeDate a b)
          | context [normalizeTime ?a ?b] => destruct (normalizeTime a b)
          end; cbn [andThen] in H; try discriminate H);
    injection H as <-; repeat apply wellFormed_assign; exact Hwf.
Qed.

Lemma event_save_wellFormed (rt : Runtime) (db db' : Store) (doc doc' : Document) :
  save Event rt db doc = (Ok doc', db') ->
  wellFormed eventSchema doc -> wellFormed eventSchema doc'.
Proof.
  intros (_ & this' & Hhook & Hw)%event_save_ok Hwf.
  apply write_ok in Hw as (Hf & _).
  assert (wellFormed eventSchema (setTimestamps rt doc)) as Hwf0.
  { intros path st v Hst Hv. rewrite (proj1 (setTimestamps_fields rt doc)) in Hv.
    now apply (Hwf path). }
  pose proof (eventPreSaveHook_wellFormed rt _ this' Hhook Hwf0) as Hwf'.
  intros path st v Hst Hv. rewrite Hf in Hv. now apply (Hwf' path).
Qed.

(** A path that the attributes do not give, and that has no default, has no
    value on the new document, and no cast error. *)
Lemma construct_absent (sch : Schema) (id : N) (attrs : list (string * value))
      (path : string) :
  NoDup (List.map fst sch) ->
  (forall v, ~ In (path, v) attrs) ->
  (forall st, In (path, st) sch -> Opt.type st <> KArray) ->
  fields (construct sch id attrs) !! path = None
  /\ castErrors (construct sch id attrs) !! path = None.
Proof.
  intros Hnd Hattrs Hkind. unfold construct, applyDefaults. cbn [fields castErrors].
  assert (forall doc, fields doc !! path = None /\ castErrors doc !! path = None ->
            let doc' := foldl (fun doc p => assign sch (fst p) (snd p) doc) doc attrs in
            fields doc' !! path = None /\ castErrors doc' !! path = None) as Hfold.
  { induction attrs as [|[p v] attrs IH]; intros doc Hd; [exact Hd|].
    cbn [foldl fst snd]. apply IH.
    - intros v' Hin. apply (Hattrs v'). now right.
    - assert (path <> p) as Hne by (intros ->; apply (Hattrs v); now left).
      now rewrite assign_other, assign_castErrors_other. }
  specialize (Hfold {| _id := id; fields := ∅; modifiedPaths := ∅; isNew := true;
                       castErrors := ∅; createdAt := None; updatedAt := None;
                       __v := None |}
                    (conj (lookup_empty _) (lookup_empty _))).
  cbv zeta in Hfold. destruct Hfold as [Hfold Hcast]. split; [|exact Hcast].
  set (f0 := fields _) in *. clearbody f0.
  assert (forall l, (forall p, In p l -> In p sch) ->
            foldr (fun p f =>
                     match Opt.type (snd p), f !! fst p with
                     | KArray, None => <[fst p := Arr []]> f
                     | _, _ => f
                     end) f0 l !! path = None) as H.
  { induction l as [|[p t] l IH]; intros Hl; [exact Hfold|].
    cbn [foldr fst snd].
    assert (forall q, In q l -> In q sch) as Hl' by (intros q Hq; apply Hl; now right).
    destruct (Opt.type t) eqn:Ht; try now apply IH.
    destruct (foldr _ _ l !! p) eqn:Hp; [now apply IH|].
    rewrite lookup_insert_ne; [now apply IH|].
    intros ->. apply (Hkind t); [apply Hl; now left | exact Ht]. }
  apply H. auto.
Qed.

(** C5, at creation. A document made by the builder from attributes without
    a slug is rejected by the validation that precedes the hook: the slug is
    required and the hook that would derive it has not run. Nothing is
    stored. *)
Theorem event_creation_needs_slug (rt : Runtime) (db : Store) (id : N)
        (attrs : list (string * value)) :
  (forall v, ~ In ("slug", v) attrs) ->
  exists errors,
    save Event rt db (EventModel.build id attrs) = (Err (ValidationError errors), db)
    /\ In ("slug", requiredMessage "slug") errors.
Proof.
  intros Hattrs.
  assert (fields (EventModel.build id attrs) !! "slug" = None
          /\ castErrors (EventModel.build id attrs) !! "slug" = None) as [Hslug Hcast].
  { apply construct_absent; [apply eventSchema_NoDup | exact Hattrs|].
    intros st Hin. cbn in Hin.
    repeat (destruct Hin as [Hin|Hin]; [try discriminate Hin|]); [|destruct Hin].
    injection Hin as <-. discriminate. }
  assert (In ("slug", requiredMessage "slug")
             (validateDoc eventSchema (EventModel.build id attrs))) as He.
  { apply (validateDoc_In eventSchema _ (plainString "slug")); [cbn; auto|].
    destruct (validatePath_required (EventModel.build id attrs) "slug"
                (snd (plainString "slug")) (requiredMessage "slug") eq_refl
                (or_introl Hslug)) as (m & Hm & Heq).
    now rewrite <- (Heq Hcast). }
  eexists. split; [exact (save_invalid Event rt db _ _ He) | exact He].
Qed.

Lemma sampleAttrs_no_slug (v : value) : ~ In ("slug", v) sampleAttrs.
Proof.
  intros H. cbn in H.
  repeat (destruct H as [H|H]; [discriminate H|]). exact H.
Qed.

Lemma event_creation_needs_slug_witness :
  exists errors,
    save Event utcRuntime emptyStore (EventModel.build 1 sampleAttrs)
    = (Err (ValidationError errors), emptyStore)
    /\ In ("slug", requiredMessage "slug") errors.
Proof.
  apply (event_creation_needs_slug utcRuntime emptyStore 1 sampleAttrs).
  exact sampleAttrs_no_slug.
Defined.

Example event_creation_sample :
  save Event utcRuntime emptyStore (EventModel.build 1 sampleAttrs)
  = (Err (ValidationError [("slug", "Path `slug` is required.")]), emptyStore).
Proof. reflexivity. Qed.

Example event_creation_with_slug :
  option_map (fun r => (r !! "slug", r !! "date", r !! "time"))
    (stored Event
       (snd (save Event utcRuntime emptyStore
               (EventModel.build 1 (("slug", Str "placeholder") :: sampleAttrs)))) 1)
  = Some (Some (Str "my-talk"), Some (Str "2026-06-10T00:00:00.000Z"), Some (Str "09:00")).
Proof. reflexivity. Qed.

(** ** Greedy repetition *)

Lemma star_sound {R : Type} (p : ascii -> bool) (k : string -> option R)
      (s : string) (x : R) :
  star p k s = Some x ->
  exists u v, s = u ++ v /\ all p u = true /\ k v = Some x.
Proof.
  induction s as [|c s IH]; cbn [star]; intros H.
  - exists EmptyString, EmptyString. auto.
  - destruct (p c) eqn:Hc; [|exists EmptyString, (String c s); auto].
    destruct (star p k s) as [y|] eqn:Hs.
    + injection H as ->. destruct (IH eq_refl) as (u & v & -> & Hu & Hv).
      exists (String c u), v. cbn [all]. now rewrite Hc, Hu.
    + exists EmptyString, (String c s). auto.
Qed.

Lemma star_complete {R : Type} (p : ascii -> bool) (k : string -> option R)
      (u v : string) :
  all p u = true -> is_Some (k v) -> is_Some (star p k (u ++ v)).
Proof.
  induction u as [|c u IH]; intros Hu Hv.
  - change (EmptyString ++ v) with v.
    destruct v as [|c v]; cbn [star]; [exact Hv|].
    destruct (p c); [|exact Hv]. destruct (star p k v); [eauto | exact Hv].
  - cbn [all] in Hu. apply andb_true_iff in Hu as [Hc Hu].
    change (String c u ++ v) with (String c (u ++ v)). cbn [star]. rewrite Hc.
    destruct (IH Hu Hv) as [x ->]. eauto.
Qed.

Lemma append_nil_r (s : string) : s ++ "" = s.
Proof.
  induction s as [|c s IH]; [reflexivity|].
  change (String c s ++ "") with (String c (s ++ "")). now rewrite IH.
Qed.

(** ** The pattern of an address *)

Lemma addressChar_at : addressChar "@" = false.
Proof. reflexivity. Qed.

Lemma test_EMAIL_REGEX_shape (s : string) :
  test EMAIL_REGEX s = true <-> emailShape s.
Proof.
  unfold test, EMAIL_REGEX, Cat, lit. cbn [foldr run].
  fold addressChar.
  split.
  - destruct s as [|c s]; [discriminate|].
    destruct (addressChar c) eqn:Hc; [|discriminate].
    destruct (star _ _ s) as [[]|] eqn:H1; [intros _|discriminate].
    apply star_sound in H1 as (u1 & v1 & -> & Hu1 & H1).
    destruct v1 as [|a v1]; [discriminate|].
    destruct (chr "@" a) eqn:Ha; [|discriminate].
    apply Ascii.eqb_eq in Ha as ->.
    destruct v1 as [|c2 v1]; [discriminate|].
    destruct (addressChar c2) eqn:Hc2; [|discriminate].
    apply star_sound in H1 as (u2 & v2 & -> & Hu2 & H2).
    destruct v2 as [|b v2]; [discriminate|].
    destruct (chr "." b) eqn:Hb; [|discriminate].
    apply Ascii.eqb_eq in Hb as ->.
    destruct v2 as [|c3 v2]; [discriminate|].
    destruct (addressChar c3) eqn:Hc3; [|discriminate].
    apply star_sound in H2 as (u3 & v3 & -> & Hu3 & H3).
    destruct v3; [|discriminate].
    exists (String c u1), (String c2 u2), (String c3 u3).
    cbn [all]. rewrite Hc, Hc2, Hc3, Hu1, Hu2, Hu3.
    repeat split; try discriminate.
    rewrite (append_nil_r u3). reflexivity.
  - intros (l & d & e & -> & Hl & Hd & He & Al & Ad & Ae).
    destruct l as [|c l]; [contradiction|].
    destruct d as [|c2 d]; [contradiction|].
    destruct e as [|c3 e]; [contradiction|].
    cbn [all] in Al, Ad, Ae.
    apply andb_true_iff in Al as [Hc Al], Ad as [Hc2 Ad], Ae as [Hc3 Ae].
    change (String c l ++ ?x) with (String c (l ++ x)). cbv beta iota. rewrite Hc.
    match goal with
    | |- match ?t with _ => _ end = true => enough (is_Some t) as [[] ->] by reflexivity
    end.
    apply star_complete; [exact Al|].
    change ("@" ++ ?x) with (String "@" x).
    change (String c2 d ++ ?x) with (String c2 (d ++ x)).
    cbv beta iota. cbn [chr Ascii.eqb Bool.eqb]. rewrite Hc2.
    apply star_complete; [exact Ad|].
    change ("." ++ ?x) with (String "." x).
    cbv beta iota. cbn [chr Ascii.eqb Bool.eqb]. rewrite Hc3.
    rewrite <- (append_nil_r e).
    apply star_complete; [exact Ae | eauto].
Qed.

(** ** The Booking model *)



(** A valid Booking goes to the hook: one existence query for its event,
    then the write of the document with its timestamps set, or the error of
    the hook. *)
Lemma booking_save_valid (rt : Runtime) (db : Store) (doc : Document) :
  validateDoc bookingSchema doc = [] ->
  save Booking rt db doc =
    let db' := {| collections := collections db;
                  existsLog := (existsLog db ++ [("Event", eventId doc)])%list |} in
    if match eventId doc with
       | Some i => bool_decide (is_Some (collection "Event" db !! i))
       | None => false
       end
    then write Booking db' (setTimestamps rt doc)
    else (Err (Error "Referenced event does not exist"), db').
Proof.
  intros Hv. rewrite (save_valid Booking rt db doc Hv).
  cbn [preSave timestamps Booking]. unfold bookingPreSaveHook, exists_, eventId.
  rewrite (proj1 (setTimestamps_fields rt doc)).
  destruct (match fields doc !! "eventId" with Some (Oid i) => Some i | _ => None end)
    as [i|]; [|reflexivity].
  destruct (bool_decide _); reflexivity.
Qed.






(** *** The existence check *)

Lemma noSuchEvent_query (db : Store) (doc : Document) :
  noSuchEvent db doc ->
  match eventId doc with
  | Some i => bool_decide (is_Some (collection "Event" db !! i))
  | None => false
  end = false.
Proof.
  intros H. destruct (eventId doc) as [i|] eqn:Hi; [|reflexivity].
  rewrite (H i Hi). apply bool_decide_eq_false_2. intros [x Hx]. discriminate Hx.
Qed.

(** C1, as the code has it. A save of a Booking whose event is not in the
    store fails and stores nothing. When the document passes validation, the
    failure is the error "Referenced event does not exist" of the pre-save
    hook, which [save] runs itself after one existence query; when it does
    not, the validation error comes first and the hook does not run. *)
Theorem booking_save_without_event (rt : Runtime) (db : Store) (doc : Document) :
  noSuchEvent db doc ->
  exists e db',
    save Booking rt db doc = (Err e, db')
    /\ collections db' = collections db
    /\ (validateDoc bookingSchema doc = [] ->
        e = Error "Referenced event does not exist"
        /\ existsLog db' = (existsLog db ++ [("Event", eventId doc)])%list)
    /\ (validateDoc bookingSchema doc <> [] ->
        e = ValidationError (validateDoc bookingSchema doc) /\ db' = db).
Proof.
  intros Hno.
  destruct (validateDoc bookingSchema doc) as [|err errors] eqn:Hv.
  - rewrite (booking_save_valid rt db doc Hv). cbv zeta.
    rewrite (noSuchEvent_query db doc Hno).
    eexists _, _. split; [reflexivity|]. split; [reflexivity|].
    split; [intros _; split; reflexivity | intros H; contradiction].
  - assert (In err (validateDoc (schema Booking) doc)) as Hin
        by (cbn [schema Booking]; rewrite Hv; now left).
    rewrite (save_invalid Booking rt db doc err Hin). cbn [schema Booking]. rewrite Hv.
    eexists _, _. split; [reflexivity|]. split; [reflexivity|].
    split; [discriminate | intros _; split; reflexivity].
Qed.

Lemma booking_save_without_event_witness :
  exists e db',
    save Booking utcRuntime emptyStore sampleBooking = (Err e, db')
    /\ collections db' = collections emptyStore
    /\ (validateDoc bookingSchema sampleBooking = [] ->
        e = Error "Referenced event does not exist"
        /\ existsLog db' = (existsLog emptyStore ++ [("Event", eventId sampleBooking)])%list)
    /\ (validateDoc bookingSchema sampleBooking <> [] ->
        e = ValidationError (validateDoc bookingSchema sampleBooking) /\ db' = emptyStore).
Proof.
  apply (booking_save_without_event utcRuntime emptyStore sampleBooking).
  intros eid _. reflexivity.
Defined.

(** C1, as stated, fails: a Booking without event whose email is not an
    address is rejected by validation, not by the existence check. *)
Lemma booking_validation_precedes_check :
  ~ (forall (rt : Runtime) (db : Store) (doc : Document),
        noSuchEvent db doc ->
        exists db', save Booking rt db doc
                    = (Err (Error "Referenced event does not exist"), db')).
Proof.
  intros H.
  destruct (H utcRuntime emptyStore
              (BookingModel.build 1 [("eventId", Oid 5); ("email", Str "nobody")]))
    as [db' Hsave].
  - intros eid _. reflexivity.
  - vm_compute in Hsave. discriminate Hsave.
Qed.

(** C9, as the code has it. The existence check is part of every save of a
    Booking that passes validation, of a new document and of a persisted one
    alike: the save makes one existence query for the event of the document,
    and fails with the error of the hook when the event is not in the
    store. *)
Theorem booking_check_on_every_save (rt : Runtime) (db : Store) (doc : Document) :
  validateDoc bookingSchema doc = [] ->
  existsLog (snd (save Booking rt db doc)) = (existsLog db ++ [("Event", eventId doc)])%list
  /\ (noSuchEvent db doc ->
      fst (save Booking rt db doc) = Err (Error "Referenced event does not exist")).
Proof.
  intros Hv. rewrite (booking_save_valid rt db doc Hv). cbv zeta.
  split.
  - destruct (match eventId doc with Some _ => _ | None => _ end); [|reflexivity].
    apply write_log.
  - intros Hno. now rewrite (noSuchEvent_query db doc Hno).
Qed.

Lemma booking_check_on_every_save_witness :
  isNew savedBooking = false
  /\ existsLog (snd (save Booking utcRuntime storeAfterSave savedBooking))
     = (existsLog storeAfterSave ++ [("Event", Some 5%N)])%list
  /\ fst (save Booking utcRuntime storeWithoutEvent savedBooking)
     = Err (Error "Referenced event does not exist").
Proof.
  split; [reflexivity|]. split.
  - apply (booking_check_on_every_save utcRuntime storeAfterSave savedBooking).
    reflexivity.
  - apply (booking_check_on_every_save utcRuntime storeWithoutEvent savedBooking).
    + reflexivity.
    + intros eid _. reflexivity.
Defined.

(** C9, as stated, fails: the save of a persisted Booking queries the store
    for its event again. *)
Lemma booking_update_runs_check :
  ~ (forall (rt : Runtime) (db : Store) (doc : Document),
        isNew doc = false ->
        existsLog (snd (save Booking rt db doc)) = existsLog db).
Proof.
  intros H.
  specialize (H utcRuntime storeAfterSave savedBooking eq_refl).
  vm_compute in H. discriminate H.
Qed.

(** ** More on [slugify] *)

Lemma slugify_toLowerCase (s : string) : slugify (toLowerCase s) = slugify s.
Proof. unfold slugify. now rewrite toLowerCase_idem. Qed.

Lemma slugify_trim (s : string) : slugify (trim s) = slugify s.
Proof. unfold slugify. now rewrite toLowerCase_trim, trim_idem. Qed.

(** X1. Titles that differ only in the case of their letters and in the white
    space around them have the same slug. *)
Theorem slugify_same_title (s t : string) :
  toLowerCase (trim s) = toLowerCase (trim t) -> slugify s = slugify t.
Proof.
  intros H. rewrite <- (slugify_trim s), <- (slugify_trim t).
  rewrite <- (slugify_toLowerCase (trim s)), <- (slugify_toLowerCase (trim t)).
  now rewrite H.
Qed.

Lemma slugify_same_title_witness : slugify "  React Summit " = slugify "react SUMMIT".
Proof. apply slugify_same_title. reflexivity. Defined.

Lemma length_trimStart (s : string) : (String.length (trimStart s) <= String.length s)%nat.
Proof.
  induction s as [|c s IH]; [reflexivity|].
  cbn [trimStart]. destruct (isWhiteSpace c); cbn [String.length]; lia.
Qed.

Lemma length_trimEnd (s : string) : (String.length (trimEnd s) <= String.length s)%nat.
Proof.
  induction s as [|c s IH]; [reflexivity|].
  rewrite trimEnd_cons. destruct (trimEnd s); [destruct (isWhiteSpace c)|];
    cbn [String.length] in *; lia.
Qed.

Lemma length_map (f : ascii -> ascii) (s : string) :
  String.length (JSString.map f s) = String.length s.
Proof. induction s as [|c s IH]; [reflexivity|]. cbn [JSString.map String.length]. now rewrite IH. Qed.

Lemma length_replaceEach_remove (p : ascii -> bool) (s : string) :
  (String.length (replaceEach p "" s) <= String.length s)%nat.
Proof.
  induction s as [|c s IH]; [reflexivity|].
  cbn [replaceEach]. destruct (p c).
  - change ("" ++ ?x) with x. cbn [String.length]. lia.
  - cbn [String.length]. lia.
Qed.

Lemma length_replaceRunsFrom (p : ascii -> bool) (a : ascii) (b : bool) (s : string) :
  (String.length (replaceRunsFrom p (String a "") b s) <= String.length s)%nat.
Proof.
  revert b. induction s as [|c s IH]; intros b; [reflexivity|].
  cbn [replaceRunsFrom]. destruct (p c); [destruct b|].
  - specialize (IH true). cbn [String.length]. lia.
  - change (String a "" ++ ?x) with (String a x). specialize (IH true).
    cbn [String.length]. lia.
  - specialize (IH false). cbn [String.length]. lia.
Qed.

(** X2. A slug is never longer than the title it comes from. *)
Theorem slugify_length (s : string) :
  (String.length (slugify s) <= String.length s)%nat.
Proof.
  unfold slugify, replaceRuns, trim, toLowerCase.
  eapply Nat.le_trans; [apply length_replaceRunsFrom|].
  eapply Nat.le_trans; [apply length_replaceRunsFrom|].
  eapply Nat.le_trans; [apply length_replaceEach_remove|].
  eapply Nat.le_trans; [apply length_trimEnd|].
  eapply Nat.le_trans; [apply length_trimStart|].
  now rewrite length_map.
Qed.

Lemma replaceRunsFrom_empty (p : ascii -> bool) (a : ascii) (s : string) :
  replaceRunsFrom p (String a "") false s = EmptyString <-> s = EmptyString.
Proof.
  split; [|now intros ->].
  destruct s as [|c s]; [reflexivity|].
  cbn [replaceRunsFrom]. destruct (p c); discriminate.
Qed.

Lemma replaceEach_empty (p : ascii -> bool) (s : string) :
  replaceEach p "" s = EmptyString <-> JSString.all p s = true.
Proof.
  induction s as [|c s IH]; [split; reflexivity|].
  cbn [replaceEach JSString.all]. destruct (p c); cbn [andb].
  - exact IH.
  - split; discriminate.
Qed.

(** X3. The slug is empty exactly when the title, lower-cased and trimmed, has
    no letter [a-z], no digit, no white space and no hyphen. *)
Theorem slugify_empty (s : string) :
  slugify s = EmptyString
  <-> JSString.all (fun c => negb (slugKeep c)) (trim (toLowerCase s)) = true.
Proof.
  unfold slugify, replaceRuns.
  now rewrite !replaceRunsFrom_empty, replaceEach_empty.
Qed.

(** ** More on [normalizeDate] *)

(** X4. The result of [normalizeDate] is a fixed point of it, in every runtime. *)
Theorem normalizeDate_idempotent (rt rt' : Runtime) (input r : string) :
  normalizeDate rt input = Ok r -> normalizeDate rt' r = Ok r.
Proof.
  unfold normalizeDate. destruct (newDate rt input) as [t|] eqn:Hnew; [|discriminate].
  intros [= <-]. pose proof (newDate_range rt input t Hnew) as Ht.
  unfold newDate. rewrite (parse_toISOString rt' t Ht).
  unfold TimeClip. now destruct (Z.leb_spec (Z.abs t) 8640000000000000); [|lia].
Qed.

Lemma normalizeDate_idempotent_witness :
  normalizeDate utcRuntime "2026-06-09T22:00:00.000Z" = Ok "2026-06-09T22:00:00.000Z".
Proof.
  apply (normalizeDate_idempotent eastRuntime utcRuntime "2026-06-10T00:00").
  reflexivity.
Defined.

Section CalendarInverse.
Open Scope Z_scope.

Lemma DayFromYear_lt (a b : Z) : a < b -> DayFromYear a + 365 <= DayFromYear b.
Proof. intros H. unfold DayFromYear. Z.div_mod_to_equations; lia. Qed.

Lemma YearFromDay_unique (y d : Z) :
  DayFromYear y <= d < DayFromYear (y + 1) -> YearFromDay d = y.
Proof.
  intros Hd. pose proof (YearFromDay_spec d) as Hs.
  set (y' := YearFromDay d) in *. clearbody y'.
  destruct (Z.lt_trichotomy y' y) as [Hlt | [-> | Hgt]]; [|reflexivity|].
  - assert (y' + 1 = y \/ y' + 1 < y) as [<- | H] by lia; [lia|].
    pose proof (DayFromYear_lt (y' + 1) y H). lia.
  - assert (y + 1 = y' \/ y + 1 < y') as [<- | H] by lia; [lia|].
    pose proof (DayFromYear_lt (y + 1) y' H). lia.
Qed.

(** The fields of a day made from a year, a month and a day of the month. *)
Lemma fields_of_MakeDay (y mo d t : Z) :
  0 <= mo <= 11 -> 1 <= d <= DaysInMonth y (mo + 1) ->
  Day t = MakeDay y mo d ->
  YearFromTime t = y /\ MonthFromTime t = mo /\ DateFromTime t = d.
Proof.
  intros Hmo Hd Ht.
  unfold MakeDay in Ht.
  rewrite (Z.div_small mo 12), (Z.mod_small mo 12), Z.add_0_r in Ht by lia.
  assert (0 <= monthStart (InLeapYear y) mo + d - 1 < DaysInYear y
          /\ monthStart (InLeapYear y) mo <= monthStart (InLeapYear y) mo + d - 1
             < monthStart (InLeapYear y) (mo + 1)) as [Hrange Hmonth].
  { unfold DaysInMonth, DaysInYear in *. replace (mo + 1 - 1) with mo in Hd by lia.
    assert (mo = 0 \/ mo = 1 \/ mo = 2 \/ mo = 3 \/ mo = 4 \/ mo = 5 \/ mo = 6
            \/ mo = 7 \/ mo = 8 \/ mo = 9 \/ mo = 10 \/ mo = 11) as Hc by lia.
    destruct (InLeapYear y);
      repeat (destruct Hc as [-> | Hc];
              [revert Hd;
               repeat match goal with
                      | |- context [monthStart ?l ?m] =>
                          let v := eval vm_compute in (monthStart l m) in
                          change (monthStart l m) with v
                      end; lia|]);
      subst mo; revert Hd;
      repeat match goal with
             | |- context [monthStart ?l ?m] =>
                 let v := eval vm_compute in (monthStart l m) in
                 change (monthStart l m) with v
             end; lia. }
  assert (YearFromTime t = y) as Hy.
  { unfold YearFromTime. apply YearFromDay_unique. rewrite DayFromYear_succ, Ht.
    set (a := DayFromYear y) in *. set (b := DaysInYear y) in *.
    set (c := monthStart _ _) in *. clearbody a b c. lia. }
  split; [exact Hy|].
  assert (DayWithinYear t = monthStart (InLeapYear y) mo + d - 1) as Hdw.
  { unfold DayWithinYear. rewrite Hy, Ht.
    set (a := DayFromYear y). set (c := monthStart _ _). clearbody a c. lia. }
  assert (MonthFromTime t = mo) as Hm.
  { unfold MonthFromTime. cbv zeta. rewrite Hy, Hdw.
    clear Ht Hy Hdw Hd Hrange.
    assert (mo = 0 \/ mo = 1 \/ mo = 2 \/ mo = 3 \/ mo = 4 \/ mo = 5 \/ mo = 6
            \/ mo = 7 \/ mo = 8 \/ mo = 9 \/ mo = 10 \/ mo = 11) as Hc by lia.
    set (x := d - 1) in *.
    replace (monthStart (InLeapYear y) mo + d - 1)
      with (monthStart (InLeapYear y) mo + x) in * by (unfold x; lia).
    clearbody x.
    destruct (InLeapYear y);
      repeat (destruct Hc as [-> | Hc];
              [revert Hmonth;
               repeat match goal with
                      | |- context [monthStart ?l ?m] =>
                          let v := eval vm_compute in (monthStart l m) in
                          change (monthStart l m) with v
                      end;
               intros Hmonth;
               repeat match goal with
                      | |- context [if ?a <? ?b then _ else _] =>
                          destruct (Z.ltb_spec a b)
                      end; lia|]);
      subst mo; revert Hmonth;
      repeat match goal with
             | |- context [monthStart ?l ?m] =>
                 let v := eval vm_compute in (monthStart l m) in
                 change (monthStart l m) with v
             end;
      intros Hmonth;
      repeat match goal with
             | |- context [if ?a <? ?b then _ else _] =>
                 destruct (Z.ltb_spec a b)
             end; lia. }
  split; [exact Hm|].
  unfold DateFromTime. rewrite Hm, Hy, Hdw.
  set (c := monthStart _ _). clearbody c. lia.
Qed.

End CalendarInverse.

Lemma exec_date (Y Mo D : string) :
  String.length Y = 4%nat -> JSString.all isDigit Y = true ->
  String.length Mo = 2%nat -> JSString.all isDigit Mo = true ->
  String.length D = 2%nat -> JSString.all isDigit D = true ->
  exec 11 DATE_TIME_FORMAT (Y ++ "-" ++ Mo ++ "-" ++ D)
  = Some [None; Some Y; Some Mo; Some D; None; None; None; None; None; None; None; None].
Proof.
  intros LY DY LMo DMo LD DD.
  destruct Y as [|y1 [|y2 [|y3 [|y4 [|]]]]]; try discriminate LY.
  destruct Mo as [|m1 [|m2 [|]]]; try discriminate LMo.
  destruct D as [|e1 [|e2 [|]]]; try discriminate LD.
  digits.
  cbv [append].
  unfold exec, DATE_TIME_FORMAT, Cat, d2, d1, lit.
  cbn [foldr run].
  rewrite (digit_not_sign y1) by assumption.
  repeat match goal with H : isDigit ?c = true |- _ => rewrite H; clear H end.
  simpl. reflexivity.
Qed.

(** The string of a calendar date, as the standard format writes it. *)
Lemma parse_date (rt : Runtime) (y m d : Z) :
  (0 <= y <= 9999)%Z -> (1 <= m <= 12)%Z -> (1 <= d <= 99)%Z ->
  parseDateTimeFormat rt (pad 4 y ++ "-" ++ pad 2 m ++ "-" ++ pad 2 d)
  = if (d <=? DaysInMonth y m)%Z
    then Some (MakeDate (MakeDay y (m - 1) d) 0)
    else None.
Proof.
  intros Hy Hm Hd.
  destruct (pad_spec 4 y ltac:(lia) ltac:(change (10 ^ Z.of_nat 4)%Z with 10000%Z; lia))
    as (LY & DY & PY).
  destruct (pad_spec 2 m ltac:(lia) ltac:(change (10 ^ Z.of_nat 2)%Z with 100%Z; lia))
    as (LMo & DMo & PMo).
  destruct (pad_spec 2 d ltac:(lia) ltac:(change (10 ^ Z.of_nat 2)%Z with 100%Z; lia))
    as (LD & DD & PD).
  unfold parseDateTimeFormat. rewrite (exec_date _ _ _ LY DY LMo DMo LD DD).
  cbn [group' group field lookup list_lookup].
  rewrite signed_digits by (rewrite ?LY; auto; lia).
  rewrite PY, PMo, PD.
  assert (String.eqb (pad 4 y) "-000000" = false) as ->.
  { apply String.eqb_neq. intros E. rewrite E in LY. discriminate LY. }
  destruct (Z.leb_spec d (DaysInMonth y m)) as [Hle | Hgt].
  - match goal with
    | |- context [if ?b then _ else _] => assert (b = true) as ->
    end.
    { rewrite !andb_true_iff, orb_true_iff, !Z.leb_le, Z.ltb_lt.
      repeat split; try reflexivity; lia. }
    reflexivity.
  - match goal with
    | |- context [if ?b then _ else _] => assert (b = false) as ->; [|reflexivity]
    end.
    now rewrite !andb_false_r.
Qed.

(** X5. A date of the calendar, written [YYYY-MM-DD], is the timestamp of that
    day at midnight UTC, whatever the time zone of the runtime. *)
Theorem normalizeDate_date_only (rt : Runtime) (y m d : Z) :
  (0 <= y <= 9999)%Z -> (1 <= m <= 12)%Z -> (1 <= d <= DaysInMonth y m)%Z ->
  normalizeDate rt (pad 4 y ++ "-" ++ pad 2 m ++ "-" ++ pad 2 d)
  = Ok (pad 4 y ++ "-" ++ pad 2 m ++ "-" ++ pad 2 d ++ "T00:00:00.000Z").
Proof.
  intros Hy Hm Hd.
  pose proof (DaysInMonth_max y m Hm) as Hmax.
  unfold normalizeDate, newDate, parse.
  rewrite (parse_date rt y m d Hy Hm ltac:(lia)).
  destruct (Z.leb_spec d (DaysInMonth y m)); [|lia].
  set (t := MakeDate (MakeDay y (m - 1) d) 0).
  assert (Day t = MakeDay y (m - 1) d) as Hday.
  { unfold t, MakeDate, Day, msPerDay. Z.div_mod_to_equations; lia. }
  destruct (fields_of_MakeDay y (m - 1) d t ltac:(lia)
              ltac:(replace (m - 1 + 1)%Z with m by lia; lia) Hday) as (Ey & Em & Ed).
  assert (HourFromTime t = 0 /\ MinFromTime t = 0 /\ SecFromTime t = 0 /\ msFromTime t = 0)%Z
    as (Eh & Emi & Es & Ems).
  { unfold t, MakeDate, HourFromTime, MinFromTime, SecFromTime, msFromTime,
      msPerDay, msPerHour, msPerMinute, msPerSecond.
    generalize (MakeDay y (m - 1) d). intros D.
    repeat split; Z.div_mod_to_equations; lia. }
  assert (Z.abs t <= 8640000000000000)%Z as Ht.
  { assert (-800000 <= MakeDay y (m - 1) d <= 4000000)%Z as HD.
    { unfold MakeDay.
      rewrite (Z.div_small (m - 1) 12), (Z.mod_small (m - 1) 12), Z.add_0_r by lia.
      assert (0 <= monthStart (InLeapYear y) (m - 1) <= 366)%Z.
      { assert (m = 1 \/ m = 2 \/ m = 3 \/ m = 4 \/ m = 5 \/ m = 6 \/ m = 7
                \/ m = 8 \/ m = 9 \/ m = 10 \/ m = 11 \/ m = 12)%Z as Hc by lia.
        destruct (InLeapYear y);
          repeat (destruct Hc as [-> | Hc]; [vm_compute; split; discriminate|]);
          subst m; vm_compute; split; discriminate. }
      set (c := monthStart _ _) in *. clearbody c.
      unfold DayFromYear. Z.div_mod_to_equations; lia. }
    unfold t, MakeDate, msPerDay. lia. }
  unfold TimeClip. destruct (Z.leb_spec (Z.abs t) 8640000000000000); [|lia].
  unfold toISOString, yearString. rewrite Ey, Em, Ed, Eh, Emi, Es, Ems.
  replace (m - 1 + 1)%Z with m by lia.
  assert ((0 <=? y)%Z && (y <=? 9999)%Z = true) as ->
      by (apply andb_true_iff; split; apply Z.leb_le; lia).
  reflexivity.
Qed.

Lemma normalizeDate_date_only_witness :
  normalizeDate eastRuntime "2024-02-29" = Ok "2024-02-29T00:00:00.000Z".
Proof.
  apply (normalizeDate_date_only eastRuntime 2024 2 29); vm_compute; split; discriminate.
Defined.

(** X6. A day that its month does not have is not a date of the standard
    format. The string is left to the parser of the engine, and
    [normalizeDate] returns the reading of that parser, or fails when it has
    none. Node reads a day up to 31 on into the next month, and has no
    reading of a later day. *)
Theorem normalizeDate_no_such_day (rt : Runtime) (y m d : Z) :
  (0 <= y <= 9999)%Z -> (1 <= m <= 12)%Z -> (DaysInMonth y m < d <= 99)%Z ->
  let s := pad 4 y ++ "-" ++ pad 2 m ++ "-" ++ pad 2 d in
  parseDateTimeFormat rt s = None
  /\ normalizeDate rt s
     = match fallbackParse rt s ≫= TimeClip with
       | Some t => Ok (toISOString t)
       | None => Err (Error "Invalid date format")
       end.
Proof.
  intros Hy Hm Hd s.
  assert (1 <= DaysInMonth y m)%Z as Hmin.
  { unfold DaysInMonth.
    assert (m = 1 \/ m = 2 \/ m = 3 \/ m = 4 \/ m = 5 \/ m = 6 \/ m = 7
            \/ m = 8 \/ m = 9 \/ m = 10 \/ m = 11 \/ m = 12)%Z as Hc by lia.
    destruct (InLeapYear y);
      repeat (destruct Hc as [-> | Hc]; [vm_compute; discriminate|]);
      subst m; vm_compute; discriminate. }
  assert (parseDateTimeFormat rt s = None) as Hp.
  { unfold s. rewrite (parse_date rt y m d Hy Hm ltac:(lia)).
    destruct (Z.leb_spec d (DaysInMonth y m)); [lia | reflexivity]. }
  split; [exact Hp|].
  unfold normalizeDate, newDate, parse. rewrite Hp.
  destruct (fallbackParse rt s) as [t|]; reflexivity.
Qed.

Lemma normalizeDate_no_such_day_witness :
  normalizeDate utcRuntime "2026-02-30" = Ok "2026-03-02T00:00:00.000Z"
  /\ normalizeDate eastRuntime "2026-02-30" = Ok "2026-03-02T00:00:00.000Z"
  /\ normalizeDate utcRuntime "2026-02-32" = Err (Error "Invalid date format").
Proof.
  split; [|split].
  - destruct (normalizeDate_no_such_day utcRuntime 2026 2 30) as [_ H];
      [vm_compute; split; first [discriminate | reflexivity] ..|]. exact H.
  - destruct (normalizeDate_no_such_day eastRuntime 2026 2 30) as [_ H];
      [vm_compute; split; first [discriminate | reflexivity] ..|]. exact H.
  - destruct (normalizeDate_no_such_day utcRuntime 2026 2 32) as [_ H];
      [vm_compute; split; first [discriminate | reflexivity] ..|]. exact H.
Defined.

(** ** The matcher answers with matches only *)

Lemma substring_prefix (u v : string) : substring 0 (String.length u) (u ++ v) = u.
Proof.
  induction u as [|c u IH].
  - cbn [String.length]. now destruct v.
  - change (String c u ++ v) with (String c (u ++ v)).
    cbn [String.length substring]. now rewrite IH.
Qed.

Lemma consumed_app (u v : string) : consumed (u ++ v) v = u.
Proof.
  unfold consumed. rewrite length_append.
  replace (String.length u + String.length v - String.length v)%nat
    with (String.length u) by lia.
  apply substring_prefix.
Qed.

Lemma append_assoc (a b c : string) : (a ++ b) ++ c = a ++ b ++ c.
Proof.
  induction a as [|x a IH]; [reflexivity|].
  change (String x (a ++ b) ++ c = String x (a ++ b ++ c)).
  change (String x ((a ++ b) ++ c) = String x (a ++ b ++ c)). now rewrite IH.
Qed.

Lemma run_sound {R : Type} (r : regex) :
  forall (s : string) (caps : captures) (k : string -> captures -> option R) (x : R),
    run r s caps k = Some x ->
    exists u v caps', s = u ++ v /\ matches r u v caps caps' /\ k v caps' = Some x.
Proof.
  induction r as [|p|r1 IH1 r2 IH2|r1 IH1 r2 IH2|r IH|p|p|i r IH|];
    intros s caps k x H; cbn [run] in H.
  - exists "", s, caps. repeat split; [constructor | exact H].
  - destruct s as [|c s]; [discriminate|]. destruct (p c) eqn:Hc; [|discriminate].
    exists (String c ""), s, caps. repeat split; [now constructor | exact H].
  - apply IH1 in H as (u1 & v1 & caps1 & -> & M1 & H).
    apply IH2 in H as (u2 & v & caps2 & -> & M2 & H).
    exists (u1 ++ u2), v, caps2. rewrite append_assoc.
    repeat split; [econstructor; eassumption | exact H].
  - destruct (run r1 s caps k) as [y|] eqn:E.
    + injection H as ->. apply IH1 in E as (u & v & caps' & -> & M & H).
      exists u, v, caps'. repeat split; [now apply matches_Alt_l | exact H].
    + apply IH2 in H as (u & v & caps' & -> & M & H).
      exists u, v, caps'. repeat split; [now apply matches_Alt_r | exact H].
  - destruct (run r s caps k) as [y|] eqn:E.
    + injection H as ->. apply IH in E as (u & v & caps' & -> & M & H).
      exists u, v, caps'. repeat split; [now apply matches_Opt_some | exact H].
    + exists "", s, caps. repeat split; [apply matches_Opt_none | exact H].
  - apply star_sound in H as (u & v & -> & Hu & H).
    exists u, v, caps. repeat split; [now constructor | exact H].
  - destruct s as [|c s]; [discriminate|]. destruct (p c) eqn:Hc; [|discriminate].
    apply star_sound in H as (u & v & -> & Hu & H).
    exists (String c u), v, caps. repeat split; [now constructor | exact H].
  - apply IH in H as (u & v & caps1 & -> & M & H).
    rewrite consumed_app in H.
    exists u, v, (<[i := Some u]> caps1). repeat split; [now constructor | exact H].
  - destruct s as [|c s]; [|discriminate].
    exists "", "", caps. repeat split; [constructor | exact H].
Qed.

Lemma exec_sound (n : nat) (r : regex) (s : string) (m : captures) :
  exec n r s = Some m ->
  exists u v, s = u ++ v /\ matches r u v (replicate (S n) None) m.
Proof.
  unfold exec. intros H.
  apply run_sound in H as (u & v & caps' & -> & M & H).
  injection H as ->. eauto.
Qed.

Ltac invert_matches :=
  repeat match goal with
    | H : matches (Seq _ _) _ _ _ _ |- _ => inversion H; subst; clear H
    | H : matches (Alt _ _) _ _ _ _ |- _ => inversion H; subst; clear H
    | H : matches (Opt _) _ _ _ _ |- _ => inversion H; subst; clear H
    | H : matches (Group _ _) _ _ _ _ |- _ => inversion H; subst; clear H
    | H : matches (Class _) _ _ _ _ |- _ => inversion H; subst; clear H
    | H : matches (Star _) _ _ _ _ |- _ => inversion H; subst; clear H
    | H : matches Empty _ _ _ _ |- _ => inversion H; subst; clear H
    | H : matches AtEnd _ _ _ _ |- _ => inversion H; subst; clear H
    end.

Lemma isDigit_digitChar (c : ascii) :
  isDigit c = true -> c = digitChar (digitVal c).
Proof. each_char c. Qed.

Lemma isDigit_range (c : ascii) : isDigit c = true -> (0 <= digitVal c <= 9)%Z.
Proof.
  unfold isDigit, inRange, digitVal. rewrite andb_true_iff, !N.leb_le. lia.
Qed.

Lemma rng_digitVal (a b c : ascii) :
  rng a b c = true -> (digitVal a <= digitVal c <= digitVal b)%Z.
Proof.
  unfold rng, inRange, digitVal. rewrite andb_true_iff, !N.leb_le. lia.
Qed.

Lemma rng_isDigit (a b c : ascii) :
  isDigit a = true -> isDigit b = true -> rng a b c = true -> isDigit c = true.
Proof.
  unfold rng, isDigit, inRange. rewrite !andb_true_iff, !N.leb_le. lia.
Qed.

Lemma pad2_digits (x y : Z) :
  (0 <= x < 10)%Z -> (0 <= y < 10)%Z ->
  pad 2 (10 * x + y) = String (digitChar x) (String (digitChar y) "").
Proof.
  intros Hx Hy. apply String.eqb_eq.
  pose proof (below_spec 10 (fun x => below 10 (fun y =>
    String.eqb (pad 2 (10 * x + y)) (String (digitChar x) (String (digitChar y) ""))))
    ltac:(vm_compute; reflexivity) x Hx) as H.
  exact (below_spec 10 _ H y Hy).
Qed.

Lemma pad2_chars (a b : ascii) :
  isDigit a = true -> isDigit b = true ->
  pad 2 (10 * digitVal a + digitVal b) = String a (String b "").
Proof.
  intros Ha Hb.
  rewrite (isDigit_digitChar a Ha) at 2. rewrite (isDigit_digitChar b Hb) at 2.
  apply isDigit_range in Ha, Hb. apply pad2_digits; lia.
Qed.

(** Two digits, a colon and two digits, within the bounds of the clock. *)
Lemma hhmm_chars (a b c d : ascii) (r : string) :
  r = String a (String b (String ":" (String c (String d "")))) ->
  isDigit a = true -> isDigit b = true -> isDigit c = true -> isDigit d = true ->
  (10 * digitVal a + digitVal b < 24)%Z -> (digitVal c <= 5)%Z ->
  exists h mi : Z, (0 <= h < 24)%Z /\ (0 <= mi < 60)%Z /\ r = hhmm h mi.
Proof.
  intros -> Ha Hb Hc Hd Hh Hm.
  exists (10 * digitVal a + digitVal b)%Z, (10 * digitVal c + digitVal d)%Z.
  unfold hhmm. rewrite !pad2_chars by assumption.
  apply isDigit_range in Ha, Hb, Hc, Hd.
  repeat split; try lia.
Qed.

Ltac class_facts :=
  repeat match goal with
    | H : chr _ ?c = true |- _ => apply Ascii.eqb_eq in H; subst c
    | H : rng ?a ?b ?c = true |- _ =>
        pose proof (rng_isDigit a b c eq_refl eq_refl H);
        apply rng_digitVal in H;
        let x := eval vm_compute in (digitVal a) in
        let y := eval vm_compute in (digitVal b) in
        change (digitVal a) with x in H; change (digitVal b) with y in H
    end.

Ltac clock :=
  first [ assumption | reflexivity
        | try change (digitVal "0") with 0%Z; try change (digitVal "1") with 1%Z;
          try change (digitVal "2") with 2%Z;
          repeat match goal with
            | H : isDigit _ = true |- _ => apply isDigit_range in H
            end; lia ].

(** A match of the first pattern is a time of the day, and what
    [normalizeTime] makes of its groups is that time in canonical form. *)
Lemma HHMM24_sound (s : string) (m : captures) :
  exec 2 HHMM24 s = Some m ->
  exists h mi : Z, (0 <= h < 24)%Z /\ (0 <= mi < 60)%Z
    /\ padStart 2 "0" (group' 1 m) ++ ":" ++ group' 2 m = hhmm h mi.
Proof.
  intros H. apply exec_sound in H as (u & v & -> & M).
  unfold HHMM24, Cat, d1, lit in M. cbn [foldr] in M.
  invert_matches; cbn [replicate] in *; class_facts.
  all: eapply hhmm_chars; [cbv; reflexivity | clock ..].
Qed.

Lemma chrI_a (c : ascii) : chrI "a" c = true -> toLowerChar c = "a"%char.
Proof. each_char c. Qed.

Lemma chrI_p (c : ascii) : chrI "p" c = true -> toLowerChar c = "p"%char.
Proof. each_char c. Qed.

Lemma chrI_m (c : ascii) : chrI "m" c = true -> toLowerChar c = "m"%char.
Proof. each_char c. Qed.

Lemma AMPM_fields (m : captures) (hs : string) (c d p q : ascii) :
  m = [None; Some hs; Some (String c (String d "")); Some (String p (String q ""))] ->
  (1 <= parseDigits hs <= 12)%Z ->
  isDigit c = true -> isDigit d = true -> (digitVal c <= 5)%Z ->
  toLowerChar p = "a"%char \/ toLowerChar p = "p"%char ->
  toLowerChar q = "m"%char ->
  exists h mi : Z, (1 <= h <= 12)%Z /\ (0 <= mi < 60)%Z
    /\ parseDigits (group' 1 m) = h /\ group' 2 m = pad 2 mi
    /\ (toLowerCase (group' 3 m) = "am" \/ toLowerCase (group' 3 m) = "pm").
Proof.
  intros -> Hh Hc Hd Hm Hp Hq.
  exists (parseDigits hs), (10 * digitVal c + digitVal d)%Z.
  rewrite pad2_chars by assumption.
  apply isDigit_range in Hc, Hd.
  repeat split; try lia.
  change (toLowerCase (group' 3 [None; Some hs; Some (String c (String d ""));
                                 Some (String p (String q ""))]))
    with (String (toLowerChar p) (String (toLowerChar q) "")).
  rewrite Hq. destruct Hp as [-> | ->]; auto.
Qed.

(** A match of the second pattern: an hour of the twelve-hour clock, a
    minute, and one of the two periods in any case. *)
Lemma AMPM_sound (s : string) (m : captures) :
  exec 3 AMPM s = Some m ->
  exists h mi : Z, (1 <= h <= 12)%Z /\ (0 <= mi < 60)%Z
    /\ parseDigits (group' 1 m) = h /\ group' 2 m = pad 2 mi
    /\ (toLowerCase (group' 3 m) = "am" \/ toLowerCase (group' 3 m) = "pm").
Proof.
  intros H. apply exec_sound in H as (u & v & -> & M).
  unfold AMPM, Cat, d1, lit in M. cbn [foldr] in M.
  invert_matches; cbn [replicate] in *; class_facts.
  all: eapply AMPM_fields;
    [ cbv; reflexivity
    | unfold parseDigits; cbn [parseDigitsFrom]; clock
    | clock | clock | clock
    | auto using chrI_a, chrI_p
    | auto using chrI_m ].
Qed.

Lemma normalizeTime_hhmm (rt : Runtime) (h mi : Z) :
  (0 <= h < 24)%Z -> (0 <= mi < 60)%Z ->
  normalizeTime rt (hhmm h mi) = Ok (hhmm h mi).
Proof.
  intros Hh Hm. apply staticTime_spec.
  pose proof (below_spec 24 _ shape_24h_all h Hh) as H. cbv beta in H.
  pose proof (below_spec 60 _ H mi Hm) as H'. cbv beta in H'.
  rewrite forallb_forall in H'. apply H'. unfold hourSpellings. right. now left.
Qed.

Lemma normalizeTime_ok_hhmm (rt : Runtime) (input r : string) :
  normalizeTime rt input = Ok r ->
  exists h mi : Z, (0 <= h < 24)%Z /\ (0 <= mi < 60)%Z /\ r = hhmm h mi.
Proof.
  intros H. unfold normalizeTime in H.
  destruct (exec 2 HHMM24 (trim input)) as [m|] eqn:E1.
  { injection H as <-. exact (HHMM24_sound _ _ E1). }
  destruct (exec 3 AMPM (trim input)) as [m|] eqn:E2.
  { injection H as <-.
    destruct (AMPM_sound _ _ E2) as (h & mi & Hh & Hm & -> & -> & Hp).
    eexists _, mi. split; [|split; [exact Hm | reflexivity]].
    destruct Hp as [-> | ->]; cbn [String.eqb Ascii.eqb Bool.eqb andb negb];
      destruct (Z.eqb_spec h 12) as [-> | Hne]; cbn [andb negb];
      rewrite ?Z.eqb_refl; lia. }
  destruct (newDate rt _) as [t|]; [|discriminate]. injection H as <-.
  exists (getHours rt t), (getMinutes rt t).
  unfold getHours, getMinutes.
  destruct (time_fields_range (LocalTime rt t)) as (Hh & Hm & _).
  repeat split; lia.
Qed.

(** X7. The result of [normalizeTime] is a time of the day in the canonical
    form [HH:MM], whatever the shape of the input and the runtime, and
    the canonical form is left as it is in every runtime. *)
Theorem normalizeTime_canonical (rt rt' : Runtime) (input r : string) :
  normalizeTime rt input = Ok r ->
  (exists h mi : Z, (0 <= h < 24)%Z /\ (0 <= mi < 60)%Z /\ r = hhmm h mi)
  /\ normalizeTime rt' r = Ok r.
Proof.
  intros H. pose proof (normalizeTime_ok_hhmm rt input r H) as Hr.
  split; [exact Hr|].
  destruct Hr as (h & mi & Hh & Hm & ->). now apply normalizeTime_hhmm.
Qed.

Lemma normalizeTime_canonical_witness :
  (exists h mi : Z, (0 <= h < 24)%Z /\ (0 <= mi < 60)%Z /\ "21:05" = hhmm h mi)
  /\ normalizeTime utcRuntime "21:05" = Ok "21:05".
Proof.
  apply (normalizeTime_canonical eastRuntime utcRuntime " 9:05 PM ").
  vm_compute. reflexivity.
Defined.

(** ** A time with seconds *)

Lemma digit_not_colon (c : ascii) : isDigit c = true -> chr ":" c = false.
Proof. each_char c. Qed.

Lemma digit_not_space (c : ascii) : isDigit c = true -> isWhiteSpace c = false.
Proof. each_char c. Qed.

Lemma HHMM24_seconds (a b c d e f : ascii) :
  isDigit a = true -> isDigit b = true -> isDigit c = true -> isDigit d = true ->
  exec 2 HHMM24
    (String a (String b (String ":" (String c (String d (String ":"
      (String e (String f "")))))))) = None.
Proof.
  intros Ha Hb Hc Hd. unfold exec, HHMM24, Cat, d1, lit. cbn [foldr run].
  rewrite (digit_not_colon b Hb), Ha, Hb, Hd.
  change (chr ":" ":") with true. cbv beta iota.
  repeat match goal with
         | |- context [if ?x then _ else _] => destruct x
         end; reflexivity.
Qed.

Lemma AMPM_seconds (a b c d e f : ascii) :
  isDigit a = true -> isDigit b = true -> isDigit c = true -> isDigit d = true ->
  exec 3 AMPM
    (String a (String b (String ":" (String c (String d (String ":"
      (String e (String f "")))))))) = None.
Proof.
  intros Ha Hb Hc Hd. unfold exec, AMPM, Cat, d1, lit. cbn [foldr run star].
  rewrite (digit_not_colon b Hb), Hd.
  change (chr ":" ":") with true. change (isWhiteSpace ":") with false.
  change (chrI "a" ":") with false. change (chrI "p" ":") with false.
  cbv beta iota.
  repeat match goal with
         | |- context [if ?x then _ else _] => destruct x
         end; reflexivity.
Qed.

Lemma exec_local_time (Y Mo D H Mi S : string) :
  String.length Y = 4%nat -> JSString.all isDigit Y = true ->
  String.length Mo = 2%nat -> JSString.all isDigit Mo = true ->
  String.length D = 2%nat -> JSString.all isDigit D = true ->
  String.length H = 2%nat -> JSString.all isDigit H = true ->
  String.length Mi = 2%nat -> JSString.all isDigit Mi = true ->
  String.length S = 2%nat -> JSString.all isDigit S = true ->
  exec 11 DATE_TIME_FORMAT (Y ++ "-" ++ Mo ++ "-" ++ D ++ "T" ++ H ++ ":" ++ Mi ++ ":" ++ S)
  = Some [None; Some Y; Some Mo; Some D; Some H; Some Mi; Some S; None;
          None; None; None; None].
Proof.
  intros LY DY LMo DMo LD DD LH DH LMi DMi LS DS.
  destruct Y as [|y1 [|y2 [|y3 [|y4 [|]]]]]; try discriminate LY.
  destruct Mo as [|m1 [|m2 [|]]]; try discriminate LMo.
  destruct D as [|e1 [|e2 [|]]]; try discriminate LD.
  destruct H as [|h1 [|h2 [|]]]; try discriminate LH.
  destruct Mi as [|i1 [|i2 [|]]]; try discriminate LMi.
  destruct S as [|s1 [|s2 [|]]]; try discriminate LS.
  digits.
  cbv [append].
  unfold exec, DATE_TIME_FORMAT, Cat, d2, d1, lit.
  cbn [foldr run].
  rewrite (digit_not_sign y1) by assumption.
  repeat match goal with H : isDigit ?c = true |- _ => rewrite H; clear H end.
  simpl. reflexivity.
Qed.

Lemma pad2_string (n : Z) :
  (0 <= n < 100)%Z ->
  exists a b, pad 2 n = String a (String b "") /\ isDigit a = true /\ isDigit b = true.
Proof.
  intros Hn.
  destruct (pad_spec 2 n ltac:(lia) ltac:(change (10 ^ Z.of_nat 2)%Z with 100%Z; lia))
    as (L & D & _).
  destruct (pad 2 n) as [|a [|b [|]]]; try discriminate L.
  cbn [JSString.all] in D. rewrite !andb_true_iff in D. exists a, b. tauto.
Qed.

(** X8. A time of the day written with its seconds, [HH:MM:SS], is none of
    the two patterns and goes to the [Date] of the runtime, read as local
    time: the result is the hour and the minute, the seconds are dropped,
    whatever the time zone. *)
Theorem normalizeTime_with_seconds (rt : Runtime) (h mi s : Z) :
  (Z.abs (LocalTZA rt) <= msPerDay)%Z ->
  (0 <= h < 24)%Z -> (0 <= mi < 60)%Z -> (0 <= s < 60)%Z ->
  normalizeTime rt (pad 2 h ++ ":" ++ pad 2 mi ++ ":" ++ pad 2 s) = Ok (hhmm h mi).
Proof.
  intros Htz Hh Hm Hs.
  destruct (pad_spec 2 h ltac:(lia) ltac:(change (10 ^ Z.of_nat 2)%Z with 100%Z; lia))
    as (LH & DH & PH).
  destruct (pad_spec 2 mi ltac:(lia) ltac:(change (10 ^ Z.of_nat 2)%Z with 100%Z; lia))
    as (LM & DM & PM).
  destruct (pad_spec 2 s ltac:(lia) ltac:(change (10 ^ Z.of_nat 2)%Z with 100%Z; lia))
    as (LS & DS & PS).
  unfold hhmm.
  set (t := MakeTime h mi s 0).
  assert (parseDateTimeFormat rt ("1970-01-01T" ++ pad 2 h ++ ":" ++ pad 2 mi ++ ":" ++ pad 2 s)
          = Some (UTC rt t)) as Hp.
  { unfold parseDateTimeFormat.
    change ("1970-01-01T" ++ pad 2 h ++ ":" ++ pad 2 mi ++ ":" ++ pad 2 s)
      with ("1970" ++ "-" ++ "01" ++ "-" ++ "01" ++ "T"
            ++ pad 2 h ++ ":" ++ pad 2 mi ++ ":" ++ pad 2 s).
    rewrite (exec_local_time "1970" "01" "01" (pad 2 h) (pad 2 mi) (pad 2 s))
      by (try reflexivity; assumption).
    cbn [group' group field lookup list_lookup].
    rewrite PH, PM, PS.
    change (signed "1970") with 1970%Z. change (parseDigits "01") with 1%Z.
    change (String.eqb "1970" "-000000") with false.
    change (DaysInMonth 1970 1) with 31%Z.
    change (MakeDay 1970 (1 - 1) 1) with 0%Z.
    match goal with
    | |- context [if ?b then _ else _] => assert (b = true) as ->
    end.
    { rewrite !andb_true_iff, orb_true_iff, !Z.leb_le, Z.ltb_lt.
      repeat split; try reflexivity; lia. }
    unfold t, MakeDate. now rewrite Z.mul_0_l, Z.add_0_l. }
  assert (0 <= t < msPerDay)%Z as Ht.
  { unfold t, MakeTime, msPerDay, msPerHour, msPerMinute, msPerSecond. lia. }
  destruct (newDate_local_time rt _ t Htz ltac:(unfold msPerDay in *; lia) Hp)
    as (Hn & Hgh & Hgm).
  destruct (pad2_string h ltac:(lia)) as (a & b & Eh & Ha & Hb).
  destruct (pad2_string mi ltac:(lia)) as (c & d & Em & Hc & Hd).
  destruct (pad2_string s ltac:(lia)) as (e & f & Es & He & Hf).
  set (input := pad 2 h ++ ":" ++ pad 2 mi ++ ":" ++ pad 2 s) in *.
  assert (input = String a (String b (String ":" (String c (String d (String ":"
                    (String e (String f ""))))))))  as Ein
      by (unfold input; now rewrite Eh, Em, Es).
  assert (trim input = input) as Htrim.
  { apply trim_id. rewrite Ein. cbn [JSString.all].
    rewrite !(digit_not_space _ Ha), !(digit_not_space _ Hb), !(digit_not_space _ Hc),
      !(digit_not_space _ Hd), !(digit_not_space _ He), !(digit_not_space _ Hf).
    reflexivity. }
  rewrite normalizeTime_fallback; rewrite Htrim.
  - rewrite Hn, Hgh, Hgm.
    assert (HourFromTime t = h /\ MinFromTime t = mi) as [-> ->]; [|reflexivity].
    unfold t, MakeTime, HourFromTime, MinFromTime, msPerHour, msPerMinute, msPerSecond.
    split; Z.div_mod_to_equations; lia.
  - rewrite Ein. now apply HHMM24_seconds.
  - rewrite Ein. now apply AMPM_seconds.
Qed.

Lemma normalizeTime_with_seconds_witness :
  normalizeTime eastRuntime "23:59:59" = Ok "23:59".
Proof.
  apply (normalizeTime_with_seconds eastRuntime 23 59 59); vm_compute;
    first [discriminate | split; first [discriminate | reflexivity]].
Defined.

(** ** What a save of an Event does *)

Lemma validateDoc_nil (sch : Schema) (doc : Document) (p : string * SchemaType) :
  validateDoc sch doc = [] -> In p sch -> validatePath doc p = None.
Proof.
  unfold validateDoc. induction sch as [|q sch IH]; [intros _ []|].
  cbn [omap list_omap]. destruct (validatePath doc q) eqn:Hq; [discriminate|].
  intros H [-> | Hin]; [exact Hq | now apply IH].
Qed.

Lemma validatePath_castErrors (doc : Document) (p : string * SchemaType) :
  validatePath doc p = None -> castErrors doc !! fst p = None.
Proof. unfold validatePath. now destruct (castErrors doc !! fst p). Qed.

Lemma validatePath_present (doc : Document) (path : string) (st : SchemaType)
      (msg : string) :
  validatePath doc (path, st) = None -> Opt.required st = Some msg ->
  exists v, fields doc !! path = Some v /\ v <> Str "".
Proof.
  unfold validatePath. cbn [fst snd]. intros H Hreq. rewrite Hreq in H.
  destruct (castErrors doc !! path); [discriminate H|].
  destruct (fields doc !! path) as [v|]; [|discriminate H].
  exists v. split; [reflexivity|]. intros ->. discriminate H.
Qed.

(** On a valid, well-formed Event every string path holds a non-empty
    string. *)
Lemma event_valid_string (doc : Document) (path : string) :
  validateDoc eventSchema doc = [] -> wellFormed eventSchema doc ->
  In path (stringPaths ++ ["slug"; "date"; "time"])%list ->
  exists s, fields doc !! path = Some (Str s) /\ s <> "".
Proof.
  intros Hv Hwf Hin.
  assert (exists st msg, In (path, st) eventSchema /\ Opt.required st = Some msg
                         /\ Opt.type st = KString) as (st & msg & Hst & Hreq & Hty).
  { cbn in Hin.
    repeat (destruct Hin as [<- | Hin];
            [eexists _, _; split;
             [unfold eventSchema, plainString, trimmedString; cbn [In]; eauto 20
             | split; reflexivity]|]).
    destruct Hin. }
  destruct (validatePath_present doc path st msg (validateDoc_nil _ _ _ Hv Hst) Hreq)
    as (v & Hf & Hne).
  destruct (Hwf path st v (pathType_In _ _ _ eventSchema_NoDup Hst) Hf) as [Hk _].
  rewrite Hty in Hk. destruct v as [s| |]; try discriminate Hk.
  exists s. split; [exact Hf|]. intros ->. now apply Hne.
Qed.

(** The three steps of the hook. *)
Lemma eventPreSaveHook_steps (rt : Runtime) (this this' : Document) :
  eventPreSaveHook rt this = Ok this' ->
  exists this1 this2,
    (if isModified "title" this
     then exists title, fields this !! "title" = Some (Str title)
                        /\ this1 = assign eventSchema "slug" (Str (slugify title)) this
     else this1 = this)
    /\ (if isModified "date" this1
        then exists d d', fields this1 !! "date" = Some (Str d)
                          /\ normalizeDate rt d = Ok d'
                          /\ this2 = assign eventSchema "date" (Str d') this1
        else this2 = this1)
    /\ (if isModified "time" this2
        then exists t t', fields this2 !! "time" = Some (Str t)
                          /\ normalizeTime rt t = Ok t'
                          /\ this' = assign eventSchema "time" (Str t') this2
        else this' = this2).
Proof.
  unfold eventPreSaveHook. intros H.
  destruct (if isModified "title" this then _ else _) as [this1|] eqn:H1; [|discriminate H].
  cbn [andThen] in H.
  destruct (if isModified "date" this1 then _ else _) as [this2|] eqn:H2; [|discriminate H].
  cbn [andThen] in H.
  exists this1, this2. unfold readString in *. split; [|split].
  - destruct (isModified "title" this); [|now injection H1].
    destruct (fields this !! "title") as [[title| |]|]; try discriminate H1.
    cbn [andThen] in H1. injection H1 as <-. eauto.
  - destruct (isModified "date" this1); [|now injection H2].
    destruct (fields this1 !! "date") as [[d| |]|]; try discriminate H2.
    cbn [andThen] in H2. destruct (normalizeDate rt d) as [d'|] eqn:Hd; [|discriminate H2].
    cbn [andThen] in H2. injection H2 as <-. eauto.
  - destruct (isModified "time" this2); [|now injection H].
    destruct (fields this2 !! "time") as [[t| |]|]; try discriminate H.
    cbn [andThen] in H. destruct (normalizeTime rt t) as [t'|] eqn:Ht; [|discriminate H].
    cbn [andThen] in H. injection H as <-. eauto.
Qed.

(** An assignment keeps what a document has beside its paths. *)
Lemma assign_stamps (sch : Schema) (path : string) (v : value) (doc : Document) :
  createdAt (assign sch path v doc) = createdAt doc
  /\ updatedAt (assign sch path v doc) = updatedAt doc
  /\ __v (assign sch path v doc) = __v doc.
Proof.
  unfold assign. destruct (pathType sch path); [|auto].
  destruct (cast _ v); auto.
Qed.

(** An assignment to a modified path changes the modified paths in
    nothing. *)
Lemma assign_modified_same (sch : Schema) (path path' : string) (v : value)
      (doc : Document) :
  isModified path doc = true ->
  isModified path' (assign sch path v doc) = isModified path' doc.
Proof.
  intros Hm. destruct (String.eqb_spec path' path) as [->|Hne].
  - rewrite Hm. now apply assign_modified_keeps.
  - now apply assign_modified_other.
Qed.

(** The assignment of a string to one of the paths of the hook clears no
    path of a cast error but its own, and leaves none. *)
Lemma assign_plain_castErrors (path path' : string) (s : string) (doc : Document) :
  In path ["slug"; "date"; "time"] ->
  castErrors doc !! path' = None ->
  castErrors (assign eventSchema path (Str s) doc) !! path' = None.
Proof.
  intros Hin Hc. destruct (String.eqb_spec path' path) as [->|Hne].
  - cbn [In] in Hin. destruct Hin as [<- | [<- | [<- | []]]].
    + now apply (assign_castErrors_same eventSchema "slug" (snd (plainString "slug"))).
    + now apply (assign_castErrors_same eventSchema "date" (snd (plainString "date"))).
    + now apply (assign_castErrors_same eventSchema "time" (snd (plainString "time"))).
  - now rewrite assign_castErrors_other.
Qed.

(** The hook, path by path: it keeps the identity of the document, touches
    no path but [slug], [date] and [time], and replaces the date and the
    time by their normal forms when they are modified. *)
Lemma eventPreSaveHook_fields (rt : Runtime) (this this' : Document) :
  eventPreSaveHook rt this = Ok this' ->
  _id this' = _id this /\ isNew this' = isNew this
  /\ (forall path, path <> "slug" -> path <> "date" -> path <> "time" ->
        fields this' !! path = fields this !! path)
  /\ (if isModified "date" this
      then exists d d', fields this !! "date" = Some (Str d)
                        /\ normalizeDate rt d = Ok d'
                        /\ fields this' !! "date" = Some (Str d')
      else fields this' !! "date" = fields this !! "date")
  /\ (if isModified "time" this
      then exists t t', fields this !! "time" = Some (Str t)
                        /\ normalizeTime rt t = Ok t'
                        /\ fields this' !! "time" = Some (Str t')
      else fields this' !! "time" = fields this !! "time").
Proof.
  intros (this1 & this2 & H1 & H2 & H3)%eventPreSaveHook_steps.
  assert (_id this1 = _id this /\ isNew this1 = isNew this
          /\ (forall path, path <> "slug" -> fields this1 !! path = fields this !! path)
          /\ (forall path, path <> "slug" -> isModified path this1 = isModified path this))
    as (I1 & N1 & F1 & M1).
  { destruct (isModified "title" this); [|subst this1; auto].
    destruct H1 as (title & _ & ->).
    split; [apply assign_id|]. split; [apply assign_id|].
    split; intros path Hp; [now apply assign_other | now apply assign_modified_other]. }
  rewrite (M1 "date") in H2 by discriminate. rewrite (F1 "date") in H2 by discriminate.
  assert (_id this2 = _id this /\ isNew this2 = isNew this
          /\ (forall path, path <> "slug" -> path <> "date" ->
                fields this2 !! path = fields this !! path)
          /\ (forall path, path <> "slug" -> isModified path this2 = isModified path this)
          /\ (if isModified "date" this
              then exists d d', fields this !! "date" = Some (Str d)
                                /\ normalizeDate rt d = Ok d'
                                /\ fields this2 !! "date" = Some (Str d')
              else fields this2 !! "date" = fields this !! "date"))
    as (I2 & N2 & F2 & M2 & D2).
  { destruct (isModified "date" this) eqn:Md.
    - destruct H2 as (d & d' & Hd & Hn & ->).
      split; [now rewrite (proj1 (assign_id _ _ _ _))|].
      split; [now rewrite (proj2 (assign_id _ _ _ _))|].
      split; [intros path Hs Hp; rewrite assign_other by exact Hp; now apply F1|].
      split.
      + intros path Hp. rewrite assign_modified_same; [now apply M1|].
        now rewrite M1 by discriminate.
      + exists d, d'. split; [exact Hd|]. split; [exact Hn|]. apply assign_plain. cbn; auto.
    - subst this2. repeat split; auto. }
  rewrite (M2 "time") in H3 by discriminate.
  rewrite (F2 "time") in H3 by discriminate.
  destruct (isModified "time" this) eqn:Mt.
  - destruct H3 as (t & t' & Ht & Hn & ->).
    split; [now rewrite (proj1 (assign_id _ _ _ _))|].
    split; [now rewrite (proj2 (assign_id _ _ _ _))|].
    split; [intros path Hs Hd Hp; rewrite assign_other by exact Hp; now apply F2|].
    split.
    + destruct (isModified "date" this).
      * destruct D2 as (d & d' & Hd & Hnd & Hd').
        exists d, d'. rewrite assign_other by discriminate. auto.
      * now rewrite assign_other by discriminate.
    + exists t, t'. split; [exact Ht|]. split; [exact Hn|]. apply assign_plain. cbn; auto.
  - subst this'. repeat split; auto.
Qed.

(** What the hook leaves beside the paths: the timestamps and the version,
    the modified paths but for the slug, which stays modified when it is, and
    no cast error where there was none. *)
Lemma eventPreSaveHook_meta (rt : Runtime) (this this' : Document) :
  eventPreSaveHook rt this = Ok this' ->
  createdAt this' = createdAt this /\ updatedAt this' = updatedAt this
  /\ __v this' = __v this
  /\ (forall path, path <> "slug" -> isModified path this' = isModified path this)
  /\ (isModified "slug" this = true -> isModified "slug" this' = true)
  /\ (forall path, castErrors this !! path = None -> castErrors this' !! path = None).
Proof.
  intros (this1 & this2 & H1 & H2 & H3)%eventPreSaveHook_steps.
  assert (createdAt this1 = createdAt this /\ updatedAt this1 = updatedAt this
          /\ __v this1 = __v this
          /\ (forall path, path <> "slug" -> isModified path this1 = isModified path this)
          /\ (isModified "slug" this = true -> isModified "slug" this1 = true)
          /\ (forall path, castErrors this !! path = None -> castErrors this1 !! path = None))
    as (C1 & U1 & V1 & M1 & S1 & E1).
  { destruct (isModified "title" this); [|subst this1; auto 10].
    destruct H1 as (title & _ & ->).
    destruct (assign_stamps eventSchema "slug" (Str (slugify title)) this) as (-> & -> & ->).
    repeat split.
    - intros path Hp. now apply assign_modified_other.
    - apply assign_modified_keeps.
    - intros path. apply assign_plain_castErrors. cbn; auto. }
  assert (createdAt this2 = createdAt this1 /\ updatedAt this2 = updatedAt this1
          /\ __v this2 = __v this1
          /\ (forall path, isModified path this2 = isModified path this1)
          /\ (forall path, castErrors this1 !! path = None -> castErrors this2 !! path = None))
    as (C2 & U2 & V2 & M2 & E2).
  { destruct (isModified "date" this1) eqn:Md; [|subst this2; auto 10].
    destruct H2 as (d & d' & _ & _ & ->).
    destruct (assign_stamps eventSchema "date" (Str d') this1) as (-> & -> & ->).
    repeat split.
    - intros path. now apply assign_modified_same.
    - intros path. apply assign_plain_castErrors. cbn; auto. }
  assert (createdAt this' = createdAt this2 /\ updatedAt this' = updatedAt this2
          /\ __v this' = __v this2
          /\ (forall path, isModified path this' = isModified path this2)
          /\ (forall path, castErrors this2 !! path = None -> castErrors this' !! path = None))
    as (C3 & U3 & V3 & M3 & E3).
  { destruct (isModified "time" this2) eqn:Mt; [|subst this'; auto 10].
    destruct H3 as (t & t' & _ & _ & ->).
    destruct (assign_stamps eventSchema "time" (Str t') this2) as (-> & -> & ->).
    repeat split.
    - intros path. now apply assign_modified_same.
    - intros path. apply assign_plain_castErrors. cbn; auto. }
  rewrite C3, C2, C1, U3, U2, U1, V3, V2, V1.
  repeat split.
  - intros path Hp. rewrite M3, M2. now apply M1.
  - intros Hs. rewrite M3, M2. now apply S1.
  - intros path Hc. now apply E3, E2, E1.
Qed.

(** On a persisted document whose title is modified, the slug is modified
    after the hook when the slug of the title is not the slug it had. *)
Lemma eventPreSaveHook_slug_modified (rt : Runtime) (this this' : Document)
      (title : string) :
  eventPreSaveHook rt this = Ok this' ->
  isModified "title" this = true -> fields this !! "title" = Some (Str title) ->
  fields this !! "slug" <> Some (Str (slugify title)) ->
  isModified "slug" this' = true.
Proof.
  intros Hhook Hm Ht Hne.
  pose proof Hhook as (this1 & this2 & H1 & H2 & H3)%eventPreSaveHook_steps.
  rewrite Hm in H1. destruct H1 as (title' & Ht' & ->).
  rewrite Ht in Ht'. injection Ht' as <-.
  assert (isModified "slug" (assign eventSchema "slug" (Str (slugify title)) this) = true)
    as Hs.
  { unfold assign, isModified.
    change (pathType eventSchema "slug") with (Some (snd (plainString "slug"))).
    cbn [cast Opt.type plainString snd applySetters Opt.lowercase Opt.trim modifiedPaths].
    rewrite (bool_decide_eq_false_2 _ Hne). rewrite orb_true_r.
    apply bool_decide_eq_true. rewrite elem_of_union, elem_of_singleton. now left. }
  assert (isModified "slug" this2 = true) as Hs2.
  { destruct (isModified "date" _); [|now subst this2].
    destruct H2 as (d & d' & _ & _ & ->). now apply assign_modified_keeps. }
  destruct (isModified "time" this2); [|now subst this'].
  destruct H3 as (t & t' & _ & _ & ->). now apply assign_modified_keeps.
Qed.

Lemma event_save_err (rt : Runtime) (db db' : Store) (doc : Document) (e : error) :
  save Event rt db doc = (Err e, db') -> db' = db.
Proof.
  unfold save. destruct (validateDoc (schema Event) doc); [|now intros [= _ <-]].
  cbn [preSave Event]. destruct (eventPreSaveHook rt _) as [this'|e'].
  - apply write_err.
  - now intros [= _ <-].
Qed.

Lemma conflicts_spec (coll : gmap N StoredRecord) (doc : Document) (path : string) :
  conflicts coll doc path = true
  <-> exists v j r, fields doc !! path = Some v /\ coll !! j = Some r
                    /\ j <> _id doc /\ r !! path = Some v.
Proof.
  unfold conflicts. destruct (fields doc !! path) as [v|].
  - rewrite existsb_exists. split.
    + intros ([j r] & Hin & H). cbn [fst snd] in H.
      apply andb_true_iff in H as [H1 H2].
      apply negb_true_iff, N.eqb_neq in H1. apply bool_decide_eq_true in H2.
      apply list_elem_of_In, elem_of_map_to_list in Hin. eauto 10.
    + intros (v' & j & r & [= <-] & Hj & Hne & Hr).
      exists (j, r). split.
      * now apply list_elem_of_In, elem_of_map_to_list.
      * cbn [fst snd]. apply andb_true_iff. split.
        -- now apply negb_true_iff, N.eqb_neq.
        -- now apply bool_decide_eq_true.
  - split; [discriminate|]. intros (v & j & r & H & _). discriminate H.
Qed.

(** What a successful save of an Event went through, with the document of
    the hook in terms of the document saved. *)
Lemma event_save_parts (rt : Runtime) (db db' : Store) (doc doc' : Document) :
  save Event rt db doc = (Ok doc', db') ->
  validateDoc eventSchema doc = []
  /\ exists this',
      eventPreSaveHook rt (setTimestamps rt doc) = Ok this'
      /\ write Event db this' = (Ok doc', db')
      /\ _id this' = _id doc /\ isNew this' = isNew doc
      /\ fields doc' = fields this'.
Proof.
  intros (Hv & this' & Hhook & Hw)%event_save_ok.
  split; [exact Hv|]. exists this'.
  pose proof (eventPreSaveHook_fields rt _ this' Hhook) as (Hid & Hnew & _).
  destruct (setTimestamps_fields rt doc) as (_ & Hid' & Hnew' & _).
  pose proof (write_ok _ _ _ _ _ Hw) as (Hf & _).
  repeat split; congruence.
Qed.

(** The paths of the hook on the document a save returns. *)
Lemma event_save_fields (rt : Runtime) (db db' : Store) (doc doc' : Document) :
  save Event rt db doc = (Ok doc', db') ->
  (forall path, path <> "slug" -> path <> "date" -> path <> "time" ->
     fields doc' !! path = fields doc !! path)
  /\ (if isModified "date" doc
      then exists d d', fields doc !! "date" = Some (Str d)
                        /\ normalizeDate rt d = Ok d'
                        /\ fields doc' !! "date" = Some (Str d')
      else fields doc' !! "date" = fields doc !! "date")
  /\ (if isModified "time" doc
      then exists t t', fields doc !! "time" = Some (Str t)
                        /\ normalizeTime rt t = Ok t'
                        /\ fields doc' !! "time" = Some (Str t')
      else fields doc' !! "time" = fields doc !! "time").
Proof.
  intros (_ & this' & Hhook & _ & _ & _ & Hf)%event_save_parts.
  apply eventPreSaveHook_fields in Hhook as (_ & _ & Hother & Hdate & Htime).
  rewrite (setTimestamps_modified rt doc "date") in Hdate by discriminate.
  rewrite (setTimestamps_modified rt doc "time") in Htime by discriminate.
  rewrite (proj1 (setTimestamps_fields rt doc)) in *. rewrite Hf. auto.
Qed.

(** *** What is stored *)

(** X9. A save that succeeds leaves the date and the time of the document in
    their normal forms when they are modified, and as they are otherwise.
    The record of a new document is the document that the save returns, path
    by path; the record of a persisted one keeps the date and the time it
    had when they are not modified. *)
Theorem event_save_normalizes (rt : Runtime) (db db' : Store) (doc doc' : Document) :
  save Event rt db doc = (Ok doc', db') ->
  (isModified "date" doc = true ->
   exists d t, fields doc !! "date" = Some (Str d)
               /\ newDate rt d = Some t
               /\ fields doc' !! "date" = Some (Str (toISOString t))
               /\ isFullTimestamp (toISOString t) = true)
  /\ (isModified "date" doc = false -> fields doc' !! "date" = fields doc !! "date")
  /\ (isModified "time" doc = true ->
      exists t h mi, fields doc !! "time" = Some (Str t)
                     /\ normalizeTime rt t = Ok (hhmm h mi)
                     /\ (0 <= h < 24)%Z /\ (0 <= mi < 60)%Z
                     /\ fields doc' !! "time" = Some (Str (hhmm h mi)))
  /\ (isModified "time" doc = false -> fields doc' !! "time" = fields doc !! "time")
  /\ (isNew doc = true ->
      forall path, stored Event db' (_id doc) ≫= (.!! path) = fields doc' !! path)
  /\ (isNew doc = false ->
      forall path, path = "date" \/ path = "time" -> isModified path doc = false ->
        stored Event db' (_id doc) ≫= (.!! path) = stored Event db (_id doc) ≫= (.!! path)).
Proof.
  intros H. pose proof (event_save_fields _ _ _ _ _ H) as (_ & Hdate & Htime).
  apply event_save_parts in H as (_ & this' & Hhook & Hw & Hid & Hnew & Hf).
  assert (forall path, path = "date" \/ path = "time" ->
            isModified path this' = isModified path doc) as Hmod.
  { intros path Hp. apply eventPreSaveHook_meta in Hhook as (_ & _ & _ & Hm & _).
    rewrite Hm by (destruct Hp as [-> | ->]; discriminate).
    apply setTimestamps_modified; destruct Hp as [-> | ->]; discriminate. }
  apply write_ok in Hw as (_ & _ & _ & _ & _ & _ & _ & _ & _ & r' & Hst & Hins & Hupd).
  rewrite Hid, Hnew in *.
  split; [|split; [|split; [|split; [|split]]]].
  - intros Hm. rewrite Hm in Hdate. destruct Hdate as (d & d' & Hd & Hn & Hd').
    unfold normalizeDate in Hn. destruct (newDate rt d) as [t|] eqn:Ht; [|discriminate Hn].
    injection Hn as <-. exists d, t. repeat split; try assumption.
    apply toISOString_full, (newDate_range rt d), Ht.
  - intros Hm. now rewrite Hm in Hdate.
  - intros Hm. rewrite Hm in Htime. destruct Htime as (t & t' & Ht & Hn & Ht').
    destruct (normalizeTime_ok_hhmm rt t t' Hn) as (h & mi & Hh & Hmi & ->).
    exists t, h, mi. repeat split; try assumption; lia.
  - intros Hm. now rewrite Hm in Htime.
  - intros Hn path. destruct (Hins Hn) as [_ ->]. rewrite Hst. cbn [mbind option_bind].
    unfold lookup at 1. unfold stored_lookup. cbn [toRecord saved Stored.data fields].
    now rewrite Hf.
  - intros Hn path Hp Hm. destruct (Hupd Hn) as (r & Hr & _ & Hpath).
    rewrite Hst, Hr. cbn [mbind option_bind]. rewrite Hpath, (Hmod path Hp), Hm. reflexivity.
Qed.

Lemma event_save_normalizes_witness :
  fields savedEvent !! "date" = Some (Str "2026-06-10T00:00:00.000Z")
  /\ fields savedEvent !! "time" = Some (Str "09:00")
  /\ stored Event storeAfterEvent 1 ≫= (.!! "date")
     = Some (Str "2026-06-10T00:00:00.000Z")
  /\ stored Event storeAfterEvent 1 ≫= (.!! "time")
     = stored Event
         (snd (save Event utcRuntime storeAfterEvent
                 (assign eventSchema "venue" (Str "Side hall") savedEvent))) 1
       ≫= (.!! "time").
Proof.
  destruct (event_save_normalizes utcRuntime emptyStore storeAfterEvent sampleEvent
              savedEvent ltac:(vm_compute; reflexivity))
    as (Hd & _ & Ht & _ & Hst & _).
  split; [reflexivity|]. split; [reflexivity|]. split.
  - etransitivity; [exact (Hst eq_refl "date") | reflexivity].
  - destruct (save Event utcRuntime storeAfterEvent
                (assign eventSchema "venue" (Str "Side hall") savedEvent))
      as [[doc'|e] db'] eqn:Hs; [|vm_compute in Hs; discriminate Hs].
    destruct (event_save_normalizes utcRuntime storeAfterEvent db'
                (assign eventSchema "venue" (Str "Side hall") savedEvent) doc' Hs)
      as (_ & _ & _ & _ & _ & Hkeep).
    symmetry. apply (Hkeep eq_refl "time"); [now right | reflexivity].
Defined.

(** *** What a save of an Event leaves alone *)

(** The hook does nothing on a document without a modified path. *)
Lemma eventPreSaveHook_unmodified (rt : Runtime) (this : Document) :
  modifiedPaths this = ∅ -> eventPreSaveHook rt this = Ok this.
Proof.
  intros Hm.
  assert (forall path, isModified path this = false) as H.
  { intros path. unfold isModified. rewrite Hm.
    apply bool_decide_eq_false_2, not_elem_of_empty. }
  unfold eventPreSaveHook. rewrite (H "title"). cbn [andThen].
  rewrite (H "date"). cbn [andThen]. now rewrite (H "time").
Qed.



(** *** A date or a time that cannot be read *)

Lemma normalizeDate_error (rt : Runtime) (d : string) (e : error) :
  normalizeDate rt d = Err e -> e = Error "Invalid date format".
Proof. unfold normalizeDate. destruct (newDate rt d); congruence. Qed.

Lemma normalizeTime_error (rt : Runtime) (t : string) (e : error) :
  normalizeTime rt t = Err e -> e = Error "Invalid time format".
Proof.
  unfold normalizeTime.
  destruct (exec 2 HHMM24 (trim t)); [discriminate|].
  destruct (exec 3 AMPM (trim t)); [discriminate|].
  destruct (newDate rt _); congruence.
Qed.

Lemma eventPreSaveHook_error (rt : Runtime) (this : Document) (title d t : string)
      (e : error) :
  fields this !! "title" = Some (Str title) ->
  fields this !! "date" = Some (Str d) -> fields this !! "time" = Some (Str t) ->
  (isModified "date" this = true /\ normalizeDate rt d = Err e)
  \/ (isModified "time" this = true /\ normalizeTime rt t = Err e) ->
  exists message,
    eventPreSaveHook rt this = Err (Error message)
    /\ (message = "Invalid date format" \/ message = "Invalid time format").
Proof.
  intros Htitle Hd Ht Hbad.
  unfold eventPreSaveHook, readString. rewrite Htitle.
  destruct (isModified "title" this); cbn [andThen];
    rewrite ?assign_modified_other, ?assign_other by discriminate; rewrite Hd;
    destruct (isModified "date" this) eqn:Md; cbn [andThen];
    try (destruct (normalizeDate rt d) as [d'|e'] eqn:Nd; cbn [andThen];
         [|apply normalizeDate_error in Nd as ->; eauto]);
    rewrite ?assign_modified_other, ?assign_other by discriminate; rewrite Ht;
    destruct (isModified "time" this) eqn:Mt; cbn [andThen];
    try (destruct (normalizeTime rt t) as [t'|e'] eqn:Nt; cbn [andThen];
         [|apply normalizeTime_error in Nt as ->; eauto]);
    destruct Hbad as [[? ?] | [? ?]]; congruence.
Qed.

(** X11. A valid Event whose modified date or time cannot be normalised is
    not saved: the save ends in the error of the normaliser and the store
    is as it was. *)
Theorem event_save_bad_date_time (rt : Runtime) (db : Store) (doc : Document)
        (d t : string) (e : error) :
  validateDoc eventSchema doc = [] -> wellFormed eventSchema doc ->
  fields doc !! "date" = Some (Str d) -> fields doc !! "time" = Some (Str t) ->
  (isModified "date" doc = true /\ normalizeDate rt d = Err e)
  \/ (isModified "time" doc = true /\ normalizeTime rt t = Err e) ->
  exists message,
    save Event rt db doc = (Err (Error message), db)
    /\ (message = "Invalid date format" \/ message = "Invalid time format").
Proof.
  intros Hv Hwf Hd Ht Hbad.
  destruct (event_valid_string doc "title" Hv Hwf ltac:(cbn; auto)) as (title & Htitle & _).
  rewrite save_valid by exact Hv. cbn [preSave timestamps Event].
  destruct (eventPreSaveHook_error rt (setTimestamps rt doc) title d t e)
    as (message & -> & Hm).
  - now rewrite (proj1 (setTimestamps_fields rt doc)).
  - now rewrite (proj1 (setTimestamps_fields rt doc)).
  - now rewrite (proj1 (setTimestamps_fields rt doc)).
  - now rewrite !setTimestamps_modified by discriminate.
  - eauto.
Qed.

Lemma event_save_bad_date_time_witness :
  exists message,
    save Event utcRuntime emptyStore
         (assign eventSchema "time" (Str "noon") sampleEvent)
    = (Err (Error message), emptyStore)
    /\ (message = "Invalid date format" \/ message = "Invalid time format").
Proof.
  apply (event_save_bad_date_time utcRuntime emptyStore
           (assign eventSchema "time" (Str "noon") sampleEvent)
           "2026-06-10" "noon" (Error "Invalid time format")).
  - vm_compute. reflexivity.
  - apply wellFormed_assign, build_wellFormed.
  - reflexivity.
  - reflexivity.
  - right. split; vm_compute; reflexivity.
Defined.

(** *** The unique index on the slug *)

(** X12. Whatever its outcome, the save of an Event keeps the slugs of the
    stored Events pairwise distinct. *)
Theorem event_save_unique_slugs (rt : Runtime) (db : Store) (doc : Document) :
  uniqueSlugs db -> uniqueSlugs (snd (save Event rt db doc)).
Proof.
  intros Hu. destruct (save Event rt db doc) as [[doc'|e] db'] eqn:Hs; cbn [snd].
  2: { now rewrite (event_save_err _ _ _ _ _ Hs). }
  apply event_save_ok in Hs as (_ & this' & _ & Hw).
  pose proof (write_unique Event db db' this' doc' "slug" Hw ltac:(cbn; auto)) as Hfree.
  pose proof (write_ok _ _ _ _ _ Hw)
    as (_ & _ & _ & _ & _ & _ & _ & Hrec & _ & r' & Hst & Hins & Hupd).
  unfold stored in Hrec, Hst, Hins, Hupd. cbn [modelName Event] in *.
  assert (forall j rj v, j <> _id this' -> collection "Event" db !! j = Some rj ->
            r' !! "slug" = Some v -> rj !! "slug" = Some v -> False) as Hfresh.
  { intros j rj v Hj Hrj Hv Hv'.
    assert (isNew this' = true \/ isModified "slug" this' = true
            -> fields this' !! "slug" = Some v -> False) as Hsent.
    { intros Hcase Hf. specialize (Hfree Hcase).
      apply not_true_iff_false in Hfree. apply Hfree, conflicts_spec. eauto 10. }
    destruct (isNew this') eqn:Hn.
    - destruct (Hins eq_refl) as [_ ->]. apply Hsent; [now left | exact Hv].
    - destruct (Hupd eq_refl) as (r & Hr & _ & Hpath).
      rewrite (Hpath "slug") in Hv.
      destruct (isModified "slug" this') eqn:Hm.
      + apply Hsent; [now right | exact Hv].
      + now apply Hj, (Hu j (_id this') rj r v). }
  intros i j ri rj v.
  destruct (decide (i = _id this')) as [-> | Hi], (decide (j = _id this')) as [-> | Hj];
    rewrite ?Hst, ?(Hrec i Hi), ?(Hrec j Hj).
  - reflexivity.
  - intros [= <-] Hrj Hv Hv'. now destruct (Hfresh j rj v Hj Hrj Hv Hv').
  - intros Hri [= <-] Hv Hv'. now destruct (Hfresh i ri v Hi Hri Hv' Hv).
  - apply Hu.
Qed.

Lemma event_save_unique_slugs_witness : uniqueSlugs storeAfterEvent.
Proof.
  apply (event_save_unique_slugs utcRuntime emptyStore sampleEvent).
  intros i j ri rj v H. unfold collection, emptyStore in H. cbn in H.
  rewrite lookup_empty in H. discriminate H.
Defined.

(** The hook succeeds on a document whose title, date and time are strings,
    when the date and the time can be normalised. *)
Lemma eventPreSaveHook_ok (rt : Runtime) (this : Document) (title d t d' t' : string) :
  fields this !! "title" = Some (Str title) ->
  fields this !! "date" = Some (Str d) -> fields this !! "time" = Some (Str t) ->
  normalizeDate rt d = Ok d' -> normalizeTime rt t = Ok t' ->
  exists this', eventPreSaveHook rt this = Ok this'.
Proof.
  intros Htitle Hd Ht Nd Nt.
  unfold eventPreSaveHook, readString. rewrite Htitle.
  destruct (isModified "title" this), (isModified "date" this) eqn:Md,
    (isModified "time" this) eqn:Mt;
    repeat progress (cbn [andThen];
                     rewrite ?assign_modified_other, ?assign_other by discriminate;
                     rewrite ?Md, ?Mt, ?Hd, ?Ht, ?Nd, ?Nt);
    eauto.
Qed.

(** X13. A new Event whose title is modified is not saved while another
    Event holds the slug of that title; the store is as it was, and the
    error is the one of the unique index when the document is valid, its date
    and its time can be normalised and its identifier is free. *)
Theorem event_save_duplicate_slug (rt : Runtime) (db : Store) (doc : Document)
        (title : string) (j : N) (rj : StoredRecord) :
  isNew doc = true ->
  isModified "title" doc = true -> fields doc !! "title" = Some (Str title) ->
  j <> _id doc -> collection "Event" db !! j = Some rj ->
  rj !! "slug" = Some (Str (slugify title)) ->
  exists e,
    save Event rt db doc = (Err e, db)
    /\ (validateDoc eventSchema doc = [] ->
        forall d t d' t',
          fields doc !! "date" = Some (Str d) -> fields doc !! "time" = Some (Str t) ->
          normalizeDate rt d = Ok d' -> normalizeTime rt t = Ok t' ->
          collection "Event" db !! _id doc = None ->
          e = DuplicateKey "slug").
Proof.
  intros Hnew Hm Ht Hne Hj Hslug.
  assert (forall this', eventPreSaveHook rt (setTimestamps rt doc) = Ok this' ->
            isNew this' = true /\ _id this' = _id doc
            /\ conflicts (collection "Event" db) this' "slug" = true) as Hconf.
  { intros this' Hhook.
    destruct (eventPreSaveHook_slug rt _ this' Hhook) as [Hs1 _].
    rewrite (setTimestamps_modified rt doc "title") in Hs1 by discriminate.
    rewrite (proj1 (setTimestamps_fields rt doc)) in Hs1.
    destruct (Hs1 Hm) as (title' & Ht' & Hs').
    rewrite Ht in Ht'. injection Ht' as <-.
    apply eventPreSaveHook_fields in Hhook as (Hid & Hnw & _).
    destruct (setTimestamps_fields rt doc) as (_ & Hid' & Hnew' & _).
    split; [congruence|]. split; [congruence|].
    apply conflicts_spec. exists (Str (slugify title)), j, rj.
    repeat split; try assumption; congruence. }
  destruct (save Event rt db doc) as [[doc'|e] db'] eqn:Hs.
  - exfalso. apply event_save_ok in Hs as (_ & this' & Hhook & Hw).
    destruct (Hconf this' Hhook) as (Hn & _ & Hc).
    pose proof (write_unique Event db db' this' doc' "slug" Hw ltac:(cbn; auto)
                  (or_introl Hn)) as Hfree.
    cbn [modelName Event] in Hfree. congruence.
  - pose proof (event_save_err _ _ _ _ _ Hs) as ->. exists e. split; [reflexivity|].
    intros Hv d t d' t' Hd Htm Nd Nt Hfree.
    destruct (eventPreSaveHook_ok rt (setTimestamps rt doc) title d t d' t')
      as [this' Hhook]; rewrite ?(proj1 (setTimestamps_fields rt doc)); try assumption.
    destruct (Hconf this' Hhook) as (Hn & Hid & Hc).
    rewrite save_valid in Hs by exact Hv. cbn [preSave timestamps Event] in Hs.
    rewrite Hhook in Hs.
    unfold write in Hs. cbn [modelName Event uniquePaths List.find] in Hs.
    rewrite Hn, Hid, Hfree, Hc in Hs.
    rewrite bool_decide_eq_false_2 in Hs by (intros [x Hx]; discriminate Hx).
    congruence.
Qed.

Lemma event_save_duplicate_slug_witness :
  exists e,
    save Event utcRuntime storeAfterEvent secondEvent = (Err e, storeAfterEvent)
    /\ e = DuplicateKey "slug".
Proof.
  destruct (stored Event storeAfterEvent 1) as [r|] eqn:Hr;
    [|vm_compute in Hr; discriminate Hr].
  destruct (event_save_duplicate_slug utcRuntime storeAfterEvent secondEvent
              "MY talk" 1 r) as (e & Hs & He);
    try (vm_compute; reflexivity); [discriminate | exact Hr | |].
  - assert (Some r ≫= (.!! "slug") = Some (Str "my-talk")) as H
        by (rewrite <- Hr; vm_compute; reflexivity).
    exact H.
  - exists e. split; [exact Hs|].
    apply (He ltac:(vm_compute; reflexivity) "2026-06-10" "9:00 AM"
              "2026-06-10T00:00:00.000Z" "09:00"); vm_compute; reflexivity.
Defined.

(** *** Saving again *)

Lemma validateDoc_all (sch : Schema) (doc : Document) :
  (forall p, In p sch -> validatePath doc p = None) -> validateDoc sch doc = [].
Proof.
  unfold validateDoc. induction sch as [|q sch IH]; intros H; [reflexivity|].
  cbn [omap list_omap]. rewrite (H q) by now left.
  apply IH. intros p Hp. apply H. now right.
Qed.

Lemma validatePath_ext (doc doc' : Document) (p : string * SchemaType) :
  validatePath doc p = None ->
  fields doc' !! fst p = fields doc !! fst p -> castErrors doc' !! fst p = None ->
  validatePath doc' p = None.
Proof.
  unfold validatePath. intros H -> ->.
  now destruct (castErrors doc !! fst p).
Qed.

Lemma validatePath_plain (doc : Document) (path s : string) :
  castErrors doc !! path = None -> fields doc !! path = Some (Str s) -> s <> "" ->
  validatePath doc (plainString path) = None.
Proof.
  intros Hc Hf Hne. unfold validatePath, plainString.
  cbn [fst snd Opt.required Opt.validate].
  rewrite Hc, Hf. cbn [checkRequired].
  destruct (String.eqb_spec s ""); [contradiction | reflexivity].
Qed.

Lemma toISOString_nonempty (t : Z) :
  (Z.abs t <= 8640000000000000)%Z -> toISOString t <> "".
Proof.
  intros Ht E. pose proof (toISOString_full t Ht) as H. rewrite E in H. discriminate H.
Qed.

Lemma hhmm_nonempty (h mi : Z) : (0 <= h < 24)%Z -> (0 <= mi < 60)%Z -> hhmm h mi <> "".
Proof.
  intros Hh Hm E. pose proof (normalizeTime_hhmm utcRuntime h mi Hh Hm) as H.
  rewrite E in H. discriminate H.
Qed.

(** The paths of the schema: the three the hook writes, which have no
    option but [required], and the others. *)
Lemma eventSchema_paths (p : string * SchemaType) :
  In p eventSchema ->
  p = plainString "slug" \/ p = plainString "date" \/ p = plainString "time"
  \/ (fst p <> "slug" /\ fst p <> "date" /\ fst p <> "time").
Proof.
  unfold eventSchema. cbn [In]. intros H.
  repeat (destruct H as [<- | H];
          [first [ left; reflexivity
                 | right; left; reflexivity
                 | right; right; left; reflexivity
                 | right; right; right; cbn [fst trimmedString];
                   repeat split; discriminate ]|]).
  destruct H.
Qed.

(** The three paths of the hook after it has run on a valid document. *)
Lemma eventPreSaveHook_nonempty (rt : Runtime) (doc this' : Document) (path : string) :
  validateDoc eventSchema doc = [] -> wellFormed eventSchema doc ->
  eventPreSaveHook rt (setTimestamps rt doc) = Ok this' ->
  path = "date" \/ path = "time" ->
  exists s, fields this' !! path = Some (Str s) /\ s <> "".
Proof.
  intros Hv Hwf Hhook Hp.
  apply eventPreSaveHook_fields in Hhook as (_ & _ & _ & Hdate & Htime).
  rewrite (proj1 (setTimestamps_fields rt doc)) in *.
  destruct Hp as [-> | ->].
  - destruct (isModified "date" _).
    + destruct Hdate as (d & d' & _ & Hn & ->). exists d'. split; [reflexivity|].
      unfold normalizeDate in Hn. destruct (newDate rt d) as [t|] eqn:Ht; [|discriminate].
      injection Hn as <-. apply toISOString_nonempty, (newDate_range rt d), Ht.
    + rewrite Hdate. apply event_valid_string; cbn; auto 20.
  - destruct (isModified "time" _).
    + destruct Htime as (t & t' & _ & Hn & ->). exists t'. split; [reflexivity|].
      destruct (normalizeTime_ok_hhmm rt t t' Hn) as (h & mi & Hh & Hm & ->).
      now apply hhmm_nonempty.
    + rewrite Htime. apply event_valid_string; cbn; auto 20.
Qed.

(** X14. A document that a save returns can be saved again at once, in any
    runtime, unless its slug is empty: the second save succeeds and
    changes neither the document nor the store. *)
Theorem event_save_again (rt rt' : Runtime) (db db' : Store) (doc doc' : Document) :
  wellFormed eventSchema doc ->
  save Event rt db doc = (Ok doc', db') ->
  fields doc' !! "slug" <> Some (Str "") ->
  save Event rt' db' doc' = (Ok doc', db').
Proof.
  intros Hwf Hs Hslug.
  pose proof (event_save_fields _ _ _ _ _ Hs) as (Hother & _).
  apply event_save_parts in Hs as (Hv & this' & Hhook & Hw & Hid & Hnew & Hf).
  pose proof (eventPreSaveHook_nonempty rt doc this' "date" Hv Hwf Hhook ltac:(auto))
    as (d & Hd & Hdne).
  pose proof (eventPreSaveHook_nonempty rt doc this' "time" Hv Hwf Hhook ltac:(auto))
    as (t & Ht & Htne).
  assert (exists s, fields this' !! "slug" = Some (Str s)) as (s & Hsl).
  { destruct (eventPreSaveHook_slug rt _ this' Hhook) as [H1 H2].
    destruct (isModified "title" (setTimestamps rt doc)).
    - destruct (H1 eq_refl) as (title & _ & ->). eauto.
    - rewrite (H2 eq_refl), (proj1 (setTimestamps_fields rt doc)).
      destruct (event_valid_string doc "slug" Hv Hwf ltac:(cbn; auto 20)) as (s & -> & _).
      eauto. }
  assert (forall path, castErrors doc !! path = None -> castErrors doc' !! path = None)
    as Hcast.
  { intros path Hc. apply eventPreSaveHook_meta in Hhook as (_ & _ & _ & _ & _ & He).
    apply write_saved in Hw as (version & -> & _). cbn [saved castErrors].
    apply He. now rewrite (proj1 (proj2 (proj2 (proj2 (setTimestamps_fields rt doc))))). }
  pose proof (write_saved _ _ _ _ _ Hw) as (version & Hdoc' & _).
  pose proof (write_ok _ _ _ _ _ Hw)
    as (_ & Hid' & Hnew' & Hmod' & _ & _ & _ & _ & _ & r' & Hst & _).
  rewrite <- Hf in Hd, Ht, Hsl.
  (* validation *)
  rewrite save_valid.
  2: { change (schema Event) with eventSchema. apply validateDoc_all. intros p Hp.
       pose proof (validatePath_castErrors doc p (validateDoc_nil _ _ p Hv Hp)) as Hc.
       destruct (eventSchema_paths p Hp) as [-> | [-> | [-> | (H1 & H2 & H3)]]].
       - apply (validatePath_plain _ "slug" s); [now apply Hcast | exact Hsl | congruence].
       - apply (validatePath_plain _ "date" d); [now apply Hcast | exact Hd | exact Hdne].
       - apply (validatePath_plain _ "time" t); [now apply Hcast | exact Ht | exact Htne].
       - apply (validatePath_ext doc); [exact (validateDoc_nil _ _ p Hv Hp) | |].
         + now apply Hother.
         + now apply Hcast. }
  (* the timestamps and the hook *)
  cbn [preSave timestamps Event].
  rewrite (setTimestamps_unmodified rt' doc' Hnew' Hmod').
  rewrite (eventPreSaveHook_unmodified rt' doc' Hmod').
  (* the write *)
  unfold write. rewrite Hnew'. unfold stored in Hst. rewrite Hid', Hst.
  rewrite (bool_decide_eq_true_2 _ Hmod').
  rewrite Hdoc'. reflexivity.
Qed.

Lemma event_save_again_witness :
  save Event eastRuntime storeAfterEvent savedEvent = (Ok savedEvent, storeAfterEvent).
Proof.
  apply (event_save_again utcRuntime eastRuntime emptyStore storeAfterEvent sampleEvent).
  - apply build_wellFormed.
  - vm_compute. reflexivity.
  - vm_compute. discriminate.
Defined.

(** X15. An Event whose title has nothing a slug keeps is stored with the
    empty slug, and the document the save returns does not pass validation
    again: the next save fails on the required slug. *)
Theorem event_save_empty_slug (rt rt' : Runtime) (db db' : Store) (doc doc' : Document)
        (title : string) :
  save Event rt db doc = (Ok doc', db') ->
  isModified "title" doc = true -> fields doc !! "title" = Some (Str title) ->
  slugify title = "" ->
  stored Event db' (_id doc) ≫= (.!! "slug") = Some (Str "")
  /\ exists errors,
       save Event rt' db' doc' = (Err (ValidationError errors), db')
       /\ In ("slug", requiredMessage "slug") errors.
Proof.
  intros Hs Hm Ht Hslug.
  apply event_save_parts in Hs as (Hv & this' & Hhook & Hw & Hid & Hnew & Hf).
  destruct (setTimestamps_fields rt doc) as (Hf0 & _ & _ & Hc0 & _).
  assert (isModified "title" (setTimestamps rt doc) = true) as Hm0
      by now rewrite setTimestamps_modified by discriminate.
  destruct (eventPreSaveHook_slug rt _ this' Hhook) as [H1 _].
  destruct (H1 Hm0) as (title' & Ht' & Hsl).
  rewrite Hf0, Ht in Ht'. injection Ht' as <-. rewrite Hslug in Hsl.
  pose proof (validateDoc_nil _ _ (plainString "slug") Hv ltac:(cbn; auto)) as Hvs.
  assert (castErrors this' !! "slug" = None) as Hcs.
  { apply eventPreSaveHook_meta in Hhook as (_ & _ & _ & _ & _ & He).
    apply He. rewrite Hc0. exact (validatePath_castErrors _ _ Hvs). }
  assert (isNew doc = false -> isModified "slug" this' = true) as Hwritten.
  { intros _. apply (eventPreSaveHook_slug_modified rt _ this' title Hhook Hm0).
    - now rewrite Hf0.
    - rewrite Hf0, Hslug. intros Hx.
      destruct (validatePath_present doc "slug" _ _ Hvs eq_refl) as (v & Hv' & Hne).
      congruence. }
  pose proof (write_saved _ _ _ _ _ Hw) as (version & Hdoc' & _).
  apply write_ok in Hw as (_ & _ & _ & _ & _ & _ & _ & _ & _ & r' & Hst & Hins & Hupd).
  rewrite Hid, Hnew in *. split.
  - rewrite Hst. cbn [mbind option_bind]. destruct (isNew doc) eqn:Hn.
    + destruct (Hins eq_refl) as [_ ->]. exact Hsl.
    + destruct (Hupd eq_refl) as (r & _ & _ & Hpath).
      now rewrite Hpath, (Hwritten eq_refl).
  - assert (In ("slug", requiredMessage "slug") (validateDoc eventSchema doc')) as Hin.
    { apply (validateDoc_In _ _ (plainString "slug")); [cbn; auto|].
      destruct (validatePath_required doc' "slug" (snd (plainString "slug"))
                  (requiredMessage "slug") eq_refl) as (m & Hm' & Heq).
      - right. now rewrite Hf.
      - rewrite <- Heq; [exact Hm'|]. now rewrite Hdoc'. }
    exists (validateDoc eventSchema doc'). split; [|exact Hin].
    exact (save_invalid Event rt' db' doc' _ Hin).
Qed.

Lemma event_save_empty_slug_witness :
  exists doc' db',
    save Event utcRuntime emptyStore untitledEvent = (Ok doc', db')
    /\ stored Event db' 2 ≫= (.!! "slug") = Some (Str "")
    /\ exists errors,
         save Event utcRuntime db' doc' = (Err (ValidationError errors), db')
         /\ In ("slug", requiredMessage "slug") errors.
Proof.
  destruct (save Event utcRuntime emptyStore untitledEvent) as [[doc'|e] db'] eqn:Hs;
    [|vm_compute in Hs; discriminate Hs].
  exists doc', db'. split; [reflexivity|].
  apply (event_save_empty_slug utcRuntime utcRuntime emptyStore db' untitledEvent doc' "?!" Hs);
    vm_compute; reflexivity.
Defined.

(** ** When a save of an Event succeeds *)

(** X16. The save of a new, valid Event with a modified title succeeds when
    its date and its time can be normalised, its identifier is free and no
    Event of the store holds the slug of the title. The record is then the
    document that the save returns, path by path, with that slug. *)
Theorem event_save_succeeds (rt : Runtime) (db : Store) (doc : Document)
        (title d t d' t' : string) :
  validateDoc eventSchema doc = [] ->
  isNew doc = true ->
  isModified "title" doc = true ->
  fields doc !! "title" = Some (Str title) ->
  fields doc !! "date" = Some (Str d) -> fields doc !! "time" = Some (Str t) ->
  normalizeDate rt d = Ok d' -> normalizeTime rt t = Ok t' ->
  collection "Event" db !! _id doc = None ->
  (forall j rj, collection "Event" db !! j = Some rj ->
     rj !! "slug" <> Some (Str (slugify title))) ->
  exists doc' db',
    save Event rt db doc = (Ok doc', db')
    /\ (forall path, stored Event db' (_id doc) ≫= (.!! path) = fields doc' !! path)
    /\ fields doc' !! "slug" = Some (Str (slugify title)).
Proof.
  intros Hv Hnew Hm Htitle Hd Ht Nd Nt Hid Hfree.
  destruct (setTimestamps_fields rt doc) as (Hf0 & Hid0 & Hnew0 & _).
  destruct (eventPreSaveHook_ok rt (setTimestamps rt doc) title d t d' t')
    as [this' Hhook]; rewrite ?Hf0; try assumption.
  destruct (eventPreSaveHook_slug rt _ this' Hhook) as [H1 _].
  rewrite (setTimestamps_modified rt doc "title"), Hf0 in H1 by discriminate.
  destruct (H1 Hm) as (title' & Ht' & Hsl). rewrite Htitle in Ht'. injection Ht' as <-.
  pose proof (eventPreSaveHook_fields rt _ this' Hhook) as (Hid' & Hnw & _).
  destruct (write_new Event db this') as (db' & Hw).
  { congruence. }
  { cbn [modelName Event]. now rewrite Hid', Hid0. }
  { cbn [uniquePaths Event In modelName]. intros path [<- | []].
    apply not_true_is_false. intros Hc.
    apply conflicts_spec in Hc as (v & j & r & Hv' & Hj & Hne & Hr).
    rewrite Hsl in Hv'. injection Hv' as <-. now apply (Hfree j r Hj). }
  exists (saved (Some 0%N) this'), db'.
  rewrite save_valid by exact Hv. cbn [preSave timestamps Event]. rewrite Hhook.
  split; [exact Hw|].
  apply write_ok in Hw as (_ & _ & _ & _ & _ & _ & _ & _ & _ & r' & Hst & Hins & _).
  rewrite Hid', Hid0 in Hst. rewrite Hst.
  destruct (Hins ltac:(congruence)) as [_ ->]. split; [reflexivity | exact Hsl].
Qed.

Lemma event_save_succeeds_witness :
  exists doc' db',
    save Event eastRuntime emptyStore sampleEvent = (Ok doc', db')
    /\ (forall path, stored Event db' 1 ≫= (.!! path) = fields doc' !! path)
    /\ fields doc' !! "slug" = Some (Str "my-talk").
Proof.
  apply (event_save_succeeds eastRuntime emptyStore sampleEvent "My Talk!"
           "2026-06-10" "9:00 AM" "2026-06-10T00:00:00.000Z" "09:00");
    try (vm_compute; reflexivity).
  intros j rj H. unfold collection, emptyStore in H. cbn in H.
  rewrite lookup_empty in H. discriminate H.
Defined.

(** ** The builders *)

Lemma applyDefaults_present (sch : Schema) (doc : Document) (path : string) (v : value) :
  fields doc !! path = Some v -> fields (applyDefaults sch doc) !! path = Some v.
Proof.
  intros Hv. unfold applyDefaults. cbn [fields].
  induction sch as [|[p t] sch IH]; [exact Hv|].
  cbn [foldr fst snd]. destruct (Opt.type t); try exact IH.
  destruct (foldr _ _ sch !! p) eqn:Hp; [exact IH|].
  rewrite lookup_insert_ne; [exact IH|]. intros ->. congruence.
Qed.

Lemma assign_cast (sch : Schema) (path : string) (st : SchemaType) (v v0 : value)
      (doc : Document) :
  pathType sch path = Some st -> cast (Opt.type st) v = Some v0 ->
  fields (assign sch path v doc) !! path = Some (applySetters st v0)
  /\ castErrors (assign sch path v doc) !! path = None
  /\ (isNew doc = true -> isModified path (assign sch path v doc) = true).
Proof.
  intros Hst Hc. unfold assign, isModified. rewrite Hst, Hc.
  cbn [fields castErrors modifiedPaths].
  split; [apply lookup_insert_eq|]. split; [apply lookup_delete_eq|].
  intros ->. cbn [orb]. apply bool_decide_eq_true.
  rewrite elem_of_union, elem_of_singleton. now left.
Qed.

Lemma assigns_id (sch : Schema) (attrs : list (string * value)) (doc : Document) :
  let doc' := foldl (fun doc p => assign sch (fst p) (snd p) doc) doc attrs in
  _id doc' = _id doc /\ isNew doc' = isNew doc.
Proof.
  cbv zeta. revert doc. induction attrs as [|[p w] attrs IH]; intros doc; [now split|].
  cbn [foldl fst snd]. destruct (IH (assign sch p w doc)) as [-> ->]. apply assign_id.
Qed.

Lemma assigns_other (sch : Schema) (attrs : list (string * value)) (doc : Document)
      (path : string) :
  ~ In path (List.map fst attrs) ->
  let doc' := foldl (fun doc p => assign sch (fst p) (snd p) doc) doc attrs in
  fields doc' !! path = fields doc !! path /\ isModified path doc' = isModified path doc
  /\ castErrors doc' !! path = castErrors doc !! path.
Proof.
  cbv zeta. revert doc. induction attrs as [|[p w] attrs IH]; intros doc Hp; [now split|].
  cbn [foldl fst snd]. cbn [List.map fst In] in Hp.
  destruct (IH (assign sch p w doc)) as (-> & -> & ->); [tauto|].
  rewrite assign_other, assign_modified_other, assign_castErrors_other
    by (intros ->; tauto).
  now split.
Qed.

Lemma construct_sets (sch : Schema) (id : N) (attrs : list (string * value))
      (path : string) (st : SchemaType) (v v0 : value) :
  NoDup (List.map fst attrs) -> In (path, v) attrs ->
  pathType sch path = Some st -> cast (Opt.type st) v = Some v0 ->
  let doc := construct sch id attrs in
  fields doc !! path = Some (applySetters st v0)
  /\ castErrors doc !! path = None
  /\ isModified path doc = true /\ isNew doc = true /\ _id doc = id.
Proof.
  intros Hnd Hin Hst Hk. cbv zeta. unfold construct.
  set (doc0 := {| _id := id; fields := ∅; modifiedPaths := ∅; isNew := true;
                  castErrors := ∅; createdAt := None; updatedAt := None; __v := None |}).
  assert (isNew doc0 = true) as Hnew by reflexivity.
  assert (_id doc0 = id) as Hid by reflexivity.
  clearbody doc0.
  enough (fields (foldl (fun doc p => assign sch (fst p) (snd p) doc) doc0 attrs) !! path
          = Some (applySetters st v0)
          /\ castErrors (foldl (fun doc p => assign sch (fst p) (snd p) doc) doc0 attrs)
               !! path = None
          /\ isModified path (foldl (fun doc p => assign sch (fst p) (snd p) doc) doc0 attrs)
             = true) as (Hf & Hc & Hm).
  { destruct (assigns_id sch attrs doc0) as [Hi Hn].
    split; [now apply applyDefaults_present|].
    unfold applyDefaults, isModified in *. cbn [modifiedPaths isNew _id castErrors].
    split; [exact Hc|]. split; [exact Hm|]. split; congruence. }
  revert doc0 Hnew Hid. induction attrs as [|[p w] attrs IH]; intros doc0 Hnew Hid;
    [destruct Hin|].
  cbn [List.map fst] in Hnd. apply NoDup_cons in Hnd as [Hp Hnd].
  cbn [foldl fst snd]. destruct Hin as [[= -> ->] | Hin].
  - assert (~ In path (List.map fst attrs)) as Hp'
        by (intros Hx; apply Hp, list_elem_of_In, Hx).
    destruct (assigns_other sch attrs (assign sch path v doc0) path Hp') as (-> & -> & ->).
    destruct (assign_cast sch path st v v0 doc0 Hst Hk) as (Hf & Hc & Hm). auto.
  - destruct (assign_id sch p w doc0) as [Hi Hn]. apply (IH Hnd Hin); congruence.
Qed.

(** X17. A document a builder makes is new and has the identifier drawn
    for it, and each attribute that can be cast to the type of its path is
    on it, cast and as the setters of the path leave it, marked as modified
    and without a cast error: the identifier of the Event of a Booking is on
    the document whether it was given as an identifier or as its 24
    hexadecimal digits. *)
Theorem build_sets (id : N) (attrs : list (string * value)) (path : string)
        (st : SchemaType) (v v0 : value) :
  NoDup (List.map fst attrs) -> In (path, v) attrs -> cast (Opt.type st) v = Some v0 ->
  (pathType eventSchema path = Some st ->
   let doc := EventModel.build id attrs in
   fields doc !! path = Some (applySetters st v0)
   /\ castErrors doc !! path = None
   /\ isModified path doc = true /\ isNew doc = true /\ _id doc = id)
  /\ (pathType bookingSchema path = Some st ->
      let doc := BookingModel.build id attrs in
      fields doc !! path = Some (applySetters st v0)
      /\ castErrors doc !! path = None
      /\ isModified path doc = true /\ isNew doc = true /\ _id doc = id).
Proof.
  intros Hnd Hin Hk. split; intros Hst; now apply (construct_sets _ id attrs path st v v0).
Qed.

Lemma build_sets_witness :
  (fields sampleEvent !! "title" = Some (Str "My Talk!")
   /\ isModified "title" sampleEvent = true /\ isNew sampleEvent = true
   /\ _id sampleEvent = 1%N)
  /\ eventId (BookingModel.build 1 [("eventId", Str "00000000000000000000000A");
                                    ("email", Str "ada@example.com")])
     = Some 10%N.
Proof.
  split.
  - destruct (build_sets 1 (("slug", Str "draft") :: sampleAttrs) "title"
                (snd (List.hd (plainString "title") eventSchema))
                (Str "  My Talk! ") (Str "  My Talk! ")) as [H _].
    + apply (bool_decide_unpack _). vm_compute. exact I.
    + cbn. auto.
    + reflexivity.
    + destruct (H eq_refl) as (Hf & _ & Hm). split; [exact Hf | exact Hm].
  - destruct (build_sets 1 [("eventId", Str "00000000000000000000000A");
                            ("email", Str "ada@example.com")] "eventId"
                (snd (List.hd (plainString "eventId") bookingSchema))
                (Str "00000000000000000000000A") (Oid 10)) as [_ H].
    + apply (bool_decide_unpack _). vm_compute. exact I.
    + cbn. auto.
    + reflexivity.
    + destruct (H eq_refl) as (Hf & _). unfold eventId. now rewrite Hf.
Defined.

(** ** What a save of a Booking does *)

Lemma eventId_field (doc : Document) (eid : N) :
  eventId doc = Some eid -> fields doc !! "eventId" = Some (Oid eid).
Proof.
  unfold eventId. destruct (fields doc !! "eventId") as [[| |i]|]; try discriminate.
  now intros [= ->].
Qed.

Lemma booking_save_ok (rt : Runtime) (db db' : Store) (doc doc' : Document) :
  save Booking rt db doc = (Ok doc', db') ->
  validateDoc bookingSchema doc = []
  /\ (exists eid, eventId doc = Some eid /\ is_Some (collection "Event" db !! eid))
  /\ write Booking {| collections := collections db;
                      existsLog := (existsLog db ++ [("Event", eventId doc)])%list |}
            (setTimestamps rt doc)
     = (Ok doc', db').
Proof.
  intros H.
  assert (validateDoc bookingSchema doc = []) as Hv.
  { unfold save in H. change (schema Booking) with bookingSchema in H.
    destruct (validateDoc bookingSchema doc); [reflexivity | discriminate H]. }
  split; [exact Hv|]. rewrite booking_save_valid in H by exact Hv. cbv zeta in H.
  destruct (eventId doc) as [eid|]; [|discriminate H].
  destruct (bool_decide (is_Some (collection "Event" db !! eid))) eqn:He;
    [|discriminate H].
  apply bool_decide_eq_true in He. eauto.
Qed.

Lemma booking_save_err (rt : Runtime) (db db' : Store) (doc : Document) (e : error) :
  save Booking rt db doc = (Err e, db') -> collections db' = collections db.
Proof.
  unfold save. destruct (validateDoc (schema Booking) doc); [|now intros [= _ <-]].
  cbn [preSave Booking]. unfold bookingPreSaveHook, exists_.
  destruct (negb _).
  - now intros [= _ <-].
  - intros H. now apply write_err in H as ->.
Qed.

(** X18. A save of a Booking that succeeds has found the Event of the
    Booking in the store. The hook changes nothing of the document: its paths
    are as they were validated, and it has the timestamps of the save. The
    record of a new Booking is the document, path by path, with its time of
    creation; the record of a persisted one has the values of the document
    at its modified paths and is as it was at the others. The save changes no
    other Booking and no other collection. *)
Theorem booking_save_stores (rt : Runtime) (db db' : Store) (doc doc' : Document) :
  save Booking rt db doc = (Ok doc', db') ->
  (exists eid, fields doc !! "eventId" = Some (Oid eid)
               /\ is_Some (collection "Event" db !! eid))
  /\ fields doc' = fields doc /\ _id doc' = _id doc
  /\ createdAt doc' = createdAt (setTimestamps rt doc)
  /\ updatedAt doc' = updatedAt (setTimestamps rt doc)
  /\ (exists r',
        stored Booking db' (_id doc) = Some r'
        /\ (isNew doc = true ->
            (forall path, r' !! path = fields doc !! path)
            /\ Stored.createdAt r' = Some (default (now rt) (createdAt doc))
            /\ Stored.updatedAt r' = Stored.createdAt r')
        /\ (isNew doc = false ->
            exists r, stored Booking db (_id doc) = Some r
                      /\ forall path st, pathType bookingSchema path = Some st ->
                           r' !! path = if isModified path doc then fields doc !! path
                                        else r !! path))
  /\ (forall id, id <> _id doc ->
        collection "Booking" db' !! id = collection "Booking" db !! id)
  /\ (forall name, name <> "Booking" -> collection name db' = collection name db).
Proof.
  intros H. apply booking_save_ok in H as (_ & (eid & Heid & Hev) & Hw).
  split; [exists eid; split; [now apply eventId_field | exact Hev]|].
  destruct (setTimestamps_fields rt doc) as (Hf0 & Hid0 & Hnew0 & _).
  pose proof (write_ok _ _ _ _ _ Hw)
    as (Hf & Hid & _ & _ & Hc & Hu & _ & Hrec & Hcoll & r' & Hst & Hins & Hupd).
  rewrite Hf0, Hid0, Hnew0 in *.
  split; [exact Hf|]. split; [exact Hid|]. split; [exact Hc|]. split; [exact Hu|].
  split; [|split].
  - exists r'. split; [exact Hst|]. split.
    + intros Hn. destruct (Hins Hn) as [_ ->].
      unfold setTimestamps. rewrite Hn.
      cbn [toRecord saved Stored.createdAt Stored.updatedAt createdAt updatedAt].
      split; [|split; reflexivity].
      intros path. unfold lookup at 1. unfold stored_lookup.
      cbn [toRecord saved Stored.data fields]. reflexivity.
    + intros Hn. destruct (Hupd Hn) as (r & Hr & _ & Hpath).
      exists r. split; [exact Hr|]. intros path st Hst'. rewrite Hpath.
      rewrite setTimestamps_modified; [reflexivity | |]; intros ->; discriminate Hst'.
  - exact Hrec.
  - intros name Hne. now apply Hcoll.
Qed.

Lemma booking_save_stores_witness :
  (exists eid, fields sampleBooking !! "eventId" = Some (Oid eid)
               /\ is_Some (collection "Event" storeWithEvent !! eid))
  /\ stored Booking storeAfterSave 1 ≫= (.!! "email") = Some (Str "ada@example.com")
  /\ (Stored.createdAt <$> stored Booking storeAfterSave 1) = Some (Some (now utcRuntime))
  /\ stored Booking storeAfterChange 1 ≫= (.!! "eventId") = Some (Oid 5)
  /\ collection "Event" storeAfterSave = collection "Event" storeWithEvent.
Proof.
  destruct (booking_save_stores utcRuntime storeWithEvent storeAfterSave sampleBooking
              savedBooking ltac:(vm_compute; reflexivity))
    as (He & _ & _ & _ & _ & (r' & Hst & Hnew & _) & _ & Hc).
  split; [exact He|].
  destruct (Hnew eq_refl) as (Hpath & Hcr & _).
  change (stored Booking storeAfterSave 1)
    with (stored Booking storeAfterSave (_id sampleBooking)).
  split; [|split; [|split]].
  - rewrite Hst. cbn [mbind option_bind]. now rewrite Hpath.
  - rewrite Hst. cbn [fmap option_fmap option_map]. now rewrite Hcr.
  - destruct (booking_save_stores utcRuntime storeAfterSave storeAfterChange
                (assign bookingSchema "email" (Str "grace@example.com") savedBooking)
                (match fst (save Booking utcRuntime storeAfterSave
                              (assign bookingSchema "email" (Str "grace@example.com")
                                      savedBooking)) with
                 | Ok doc => doc
                 | Err _ => savedBooking
                 end) ltac:(vm_compute; reflexivity))
      as (_ & _ & _ & _ & _ & (r2 & Hst2 & _ & Hold) & _).
    destruct (Hold eq_refl) as (r & Hr & Hp).
    change (stored Booking storeAfterChange 1) with
      (stored Booking storeAfterChange
         (_id (assign bookingSchema "email" (Str "grace@example.com") savedBooking))).
    rewrite Hst2. cbn [mbind option_bind].
    rewrite (Hp "eventId" (snd (List.hd (plainString "eventId") bookingSchema)) eq_refl).
    assert (Some r ≫= (.!! "eventId") = Some (Oid 5)) as Hx
        by (rewrite <- Hr; vm_compute; reflexivity).
    exact Hx.
  - apply Hc. discriminate.
Defined.

(** X19. The references of the Bookings are kept: when every stored Booking
    refers to a stored Event, it is so again after the save of a Booking
    and after the save of an Event, whatever their outcome. *)
Theorem saves_keep_references (rt : Runtime) (db : Store) (booking event : Document) :
  bookingsRefer db ->
  bookingsRefer (snd (save Booking rt db booking))
  /\ bookingsRefer (snd (save Event rt db event)).
Proof.
  intros Hr. split.
  - destruct (save Booking rt db booking) as [[doc'|e] db'] eqn:Hs; cbn [snd].
    + apply booking_save_ok in Hs as (_ & (eid & Heid & Hev) & Hw).
      destruct (setTimestamps_fields rt booking) as (Hf0 & Hid0 & Hnew0 & _).
      pose proof (write_ok _ _ _ _ _ Hw)
        as (_ & _ & _ & _ & _ & _ & _ & Hrec & Hcoll & r' & Hst & Hins & Hupd).
      unfold stored in Hrec, Hst, Hins, Hupd. cbn [modelName Booking] in *.
      rewrite Hf0, Hid0, Hnew0 in *.
      assert (forall i, collection "Event" db' !! i = collection "Event" db !! i) as Hev'.
      { intros i. rewrite (Hcoll "Event") by discriminate. reflexivity. }
      intros id r. destruct (decide (id = _id booking)) as [-> | Hne].
      * rewrite Hst. intros [= <-].
        destruct (isNew booking) eqn:Hn.
        -- destruct (Hins eq_refl) as [_ ->]. exists eid. rewrite Hev'.
           split; [|exact Hev]. apply eventId_field in Heid.
           unfold lookup, stored_lookup. cbn [toRecord saved Stored.data fields].
           now rewrite Hf0.
        -- destruct (Hupd eq_refl) as (r & Hr0 & _ & Hpath).
           rewrite (Hpath "eventId").
           destruct (isModified "eventId" (setTimestamps rt booking)).
           ++ exists eid. rewrite Hev'. split; [now apply eventId_field | exact Hev].
           ++ destruct (Hr _ _ Hr0) as (eid' & He' & Hev0). exists eid'.
              rewrite Hev'. auto.
      * rewrite (Hrec id Hne). intros H. destruct (Hr id r H) as (eid' & He' & Hev0).
        exists eid'. rewrite Hev'. auto.
    + apply booking_save_err in Hs. intros id r. unfold collection. rewrite Hs. apply Hr.
  - destruct (save Event rt db event) as [[doc'|e] db'] eqn:Hs; cbn [snd].
    + apply event_save_ok in Hs as (_ & this' & _ & Hw).
      pose proof (write_ok _ _ _ _ _ Hw)
        as (_ & _ & _ & _ & _ & _ & _ & Hrec & Hcoll & r' & Hst & _).
      unfold stored in Hrec, Hst. cbn [modelName Event] in *.
      intros id r. rewrite (Hcoll "Booking") by discriminate.
      intros H. destruct (Hr id r H) as (eid & He & Hev). exists eid. split; [exact He|].
      destruct (decide (eid = _id this')) as [-> | Hne].
      * rewrite Hst. eauto.
      * now rewrite (Hrec eid Hne).
    + now rewrite (event_save_err _ _ _ _ _ Hs).
Qed.

Lemma saves_keep_references_witness :
  bookingsRefer storeAfterSave
  /\ bookingsRefer (snd (save Event utcRuntime storeWithEvent sampleEvent)).
Proof.
  apply (saves_keep_references utcRuntime storeWithEvent sampleBooking sampleEvent).
  intros id r H. unfold collection, storeWithEvent in H. cbn in H.
  rewrite lookup_singleton_ne in H by discriminate. cbn in H.
  rewrite lookup_empty in H. discriminate H.
Defined.

(** ** Addresses the pattern accepts *)

Lemma occurrences_app (a : ascii) (u v : string) :
  occurrences a (u ++ v) = (occurrences a u + occurrences a v)%nat.
Proof.
  induction u as [|c u IH]; [reflexivity|].
  change (String c u ++ v) with (String c (u ++ v)). cbn [occurrences]. rewrite IH. lia.
Qed.

Lemma addressChar_spec (c : ascii) :
  addressChar c = true -> isWhiteSpace c = false /\ Ascii.eqb c "@" = false.
Proof.
  unfold addressChar, neg, either, chr. rewrite negb_true_iff, orb_false_iff. auto.
Qed.

Lemma address_part (s : string) :
  JSString.all addressChar s = true ->
  occurrences "@" s = 0%nat /\ JSString.all (fun c => negb (isWhiteSpace c)) s = true.
Proof.
  induction s as [|c s IH]; [auto|]. cbn [JSString.all occurrences].
  rewrite andb_true_iff. intros [Hc Hs].
  destruct (addressChar_spec c Hc) as [-> ->]. destruct (IH Hs) as [-> ->]. auto.
Qed.

(** X20. An address the pattern accepts holds one [@] and no white space,
    and at least five code units. *)
Theorem email_one_at (s : string) :
  test EMAIL_REGEX s = true ->
  occurrences "@" s = 1%nat
  /\ JSString.all (fun c => negb (isWhiteSpace c)) s = true
  /\ (5 <= String.length s)%nat.
Proof.
  intros H. apply test_EMAIL_REGEX_shape in H
    as (l & d & e & -> & Hl & Hd & He & Al & Ad & Ae).
  destruct (address_part l Al) as [Ol Wl], (address_part d Ad) as [Od Wd],
    (address_part e Ae) as [Oe We].
  rewrite !occurrences_app, !all_app, !length_append, Ol, Od, Oe, Wl, Wd, We.
  repeat split; try reflexivity.
  destruct l; [contradiction|]. destruct d; [contradiction|]. destruct e; [contradiction|].
  cbn [String.length]. lia.
Qed.

Lemma email_one_at_witness :
  occurrences "@" "ada@example.com" = 1%nat
  /\ JSString.all (fun c => negb (isWhiteSpace c)) "ada@example.com" = true
  /\ (5 <= String.length "ada@example.com")%nat.
Proof.
  apply (email_one_at "ada@example.com"). reflexivity.
Defined.

(** ** The connection helper *)

Section Connection.
Import Database.

(** The states the global goes through. *)
Lemma step_connecting (g : Global) (a : action) :
  g = initial \/ (exists st, g = connecting st) ->
  step g a = initial \/ exists st, step g a = connecting st.
Proof.
  intros [-> | [st ->]].
  - destruct a as [|p o].
    + right. exists Pending. reflexivity.
    + left. unfold step, settle. cbn [promises initial]. now rewrite lookup_nil.
  - right. destruct a as [|p o].
    + exists st. destruct st; reflexivity.
    + destruct p as [|p]; [|exists st; reflexivity].
      destruct st; [|exists (Fulfilled connection); reflexivity
                    |exists (Rejected reason); reflexivity].
      destruct o as [|c|r];
        [exists Pending | exists (Fulfilled c) | exists (Rejected r)]; reflexivity.
Qed.

Lemma steps_connecting (tr : list action) (g : Global) :
  g = initial \/ (exists st, g = connecting st) ->
  steps tr g = initial \/ exists st, steps tr g = connecting st.
Proof.
  revert g. induction tr as [|a tr IH]; intros g Hg; [exact Hg|].
  apply (IH (step g a)), step_connecting, Hg.
Qed.

(** Once the promise is settled nothing changes any more. *)
Lemma steps_settled (tr : list action) (st : promiseState) :
  st <> Pending -> steps tr (connecting st) = connecting st.
Proof.
  intros Hst. induction tr as [|a tr IH]; [reflexivity|].
  cbn [steps fold_left]. fold (steps tr (step (connecting st) a)).
  replace (step (connecting st) a) with (connecting st); [exact IH|].
  destruct a as [|[|p] o]; destruct st; try contradiction; reflexivity.
Qed.

Lemma steps_app (tr tr' : list action) (g : Global) :
  steps (tr ++ tr') g = steps tr' (steps tr g).
Proof. apply fold_left_app. Qed.

(** X21. Over any sequence of calls and settlements [mongoose.connect] is
    called at most once, and every call answers from that one promise: it
    awaits it, or returns the connection the promise was fulfilled with. *)
Theorem connectToDatabase_once (tr : list action) :
  let g := steps tr initial in
  (length (promises g) <= 1)%nat
  /\ (length (promises (snd (connectToDatabase g))) = 1)%nat
  /\ match fst (connectToDatabase g) with
     | Return c => promises g !! 0%nat = Some (Fulfilled c)
     | Await p => p = 0%nat
     end.
Proof.
  cbv zeta. destruct (steps_connecting tr initial (or_introl eq_refl)) as [-> | [st ->]].
  - repeat split. cbn. lia.
  - destruct st; repeat split; cbn; lia.
Qed.

(** X22. Once the promise is fulfilled, every later call returns the
    connection it was fulfilled with and leaves the global as it is, and
    the calls that were awaiting the promise get that connection too. *)
Theorem connectToDatabase_cached (tr tr' : list action) (c : N) :
  promises (steps tr initial) !! 0%nat = Some (Fulfilled c) ->
  let g := steps (tr ++ tr') initial in
  connectToDatabase g = (Return c, g)
  /\ g = steps tr initial
  /\ resume (Await 0) g = Some (Ok c).
Proof.
  intros H. cbv zeta. rewrite steps_app.
  destruct (steps_connecting tr initial (or_introl eq_refl)) as [E | [st E]];
    rewrite E in *; [discriminate H|].
  injection H as ->. rewrite steps_settled by discriminate. repeat split.
Qed.

Lemma connectToDatabase_cached_witness :
  let g := steps ([Call; Call; Settle 0 (Fulfilled 7)] ++ [Settle 0 (Rejected "late"); Call])
                 initial in
  connectToDatabase g = (Return 7%N, g)
  /\ g = steps [Call; Call; Settle 0 (Fulfilled 7)] initial
  /\ resume (Await 0) g = Some (Ok 7%N).
Proof.
  apply (connectToDatabase_cached [Call; Call; Settle 0 (Fulfilled 7)]
           [Settle 0 (Rejected "late"); Call] 7).
  reflexivity.
Defined.

(** X23. Once the promise is rejected the helper never connects again:
    every later call awaits the same promise and fails with the same
    reason, and no connection is ever cached. *)
Theorem connectToDatabase_rejected (tr tr' : list action) (r : string) :
  promises (steps tr initial) !! 0%nat = Some (Rejected r) ->
  let g := steps (tr ++ tr') initial in
  connectToDatabase g = (Await 0, g)
  /\ resume (Await 0) g = Some (Err r)
  /\ promises g = [Rejected r]
  /\ mongooseCache g ≫= conn = None.
Proof.
  intros H. cbv zeta. rewrite steps_app.
  destruct (steps_connecting tr initial (or_introl eq_refl)) as [E | [st E]];
    rewrite E in *; [discriminate H|].
  injection H as ->. rewrite steps_settled by discriminate. repeat split.
Qed.

Lemma connectToDatabase_rejected_witness :
  let g := steps ([Call; Settle 0 (Rejected "ECONNREFUSED")] ++ [Call; Call]) initial in
  connectToDatabase g = (Await 0, g)
  /\ resume (Await 0) g = Some (Err "ECONNREFUSED")
  /\ promises g = [Rejected "ECONNREFUSED"]
  /\ mongooseCache g ≫= conn = None.
Proof.
  apply (connectToDatabase_rejected [Call; Settle 0 (Rejected "ECONNREFUSED")]
           [Call; Call] "ECONNREFUSED").
  reflexivity.
Defined.

End Connection.
